(** * UnixNetVConnection: the virtual-connection I/O core

    A shallow embedding of [iocore/net/UnixNetVConnection.cc] and the
    properties of its read path, write path, re-enable protocol, close,
    shutdown, timeout signalling and [do_io_*] entry points.

    Conventions.
    - C++ [int] and [int64_t] values are integers of [Z].  Signed overflow
      is undefined in the source, so sums are not wrapped; lemma
      [read_loop_range] shows that the byte counts of a pass stay between
      [0] and [toread].  The one narrowing conversion of the file,
      [(int)-r], is written out as [to_int].
    - Pointers are references ([nat]) or [option] when they may be null.
      Dereferencing a null pointer and a failed [ink_release_assert] stop
      the program: the computation yields [None].  [ink_assert] is a
      debug-build check and is not part of the release behaviour.
    - The file is the build without [INACTIVITY_TIMEOUT] (deadlines kept
      in [next_inactivity_timeout_at] / [next_activity_timeout_at]).
    - Statistics counters and [Debug]/[Trace] output are left out, except
      the notice of the self-closing path of the signal functions. *)

From Stdlib Require Import ZArith List Bool Lia.
Import ListNotations.
Local Open Scope Z_scope.

(** ** References and constants *)

Definition EThread := nat.
Definition Continuation := nat.
Definition ProxyMutexRef := nat.
Definition NetHandlerRef := nat.

(** Each event thread has one NetHandler. *)
Definition get_NetHandler (t : EThread) : NetHandlerRef := t.

(** Event and return codes.  Their declarations live in the event system's
    headers; the proofs below use only that the codes are pairwise
    distinct. *)
Definition EVENT_NONE : Z := 0.
Definition EVENT_IMMEDIATE : Z := 1.
Definition EVENT_INTERVAL : Z := 2.
Definition EVENT_ERROR : Z := 3.
Definition EVENT_DONE : Z := 0.
Definition EVENT_CONT : Z := 1.

Definition VC_EVENT_READ_READY : Z := 100.
Definition VC_EVENT_WRITE_READY : Z := 101.
Definition VC_EVENT_READ_COMPLETE : Z := 102.
Definition VC_EVENT_WRITE_COMPLETE : Z := 103.
Definition VC_EVENT_EOS : Z := 104.
Definition VC_EVENT_ERROR : Z := EVENT_ERROR.
Definition VC_EVENT_INACTIVITY_TIMEOUT : Z := 105.
Definition VC_EVENT_ACTIVE_TIMEOUT : Z := 106.

(** Handshake modes and results of the TLS collaborator. *)
Definition SSL_EVENT_SERVER : Z := 0.
Definition SSL_EVENT_CLIENT : Z := 1.
Definition SSL_HANDSHAKE_WANT_READ : Z := 6.
Definition SSL_HANDSHAKE_WANT_WRITE : Z := 7.
Definition SSL_HANDSHAKE_WANT_ACCEPT : Z := 8.
Definition SSL_HANDSHAKE_WANT_CONNECT : Z := 9.

(** Polling interests. *)
Definition EVENTIO_READ : Z := 1.
Definition EVENTIO_WRITE : Z := 2.

(** The two bits of [f.shutdown]. *)
Definition NET_VC_SHUTDOWN_READ : Z := 1.
Definition NET_VC_SHUTDOWN_WRITE : Z := 2.

(** Error numbers of the platform (Linux). *)
Definition EAGAIN : Z := 11.
Definition ECONNRESET : Z := 104.
Definition ENOTCONN : Z := 107.

Definition NO_FD : Z := -1.

(** [(int)x] for an [int64_t] x: reduction to 32 bits, two's complement. *)
Definition to_int (x : Z) : Z := (x + 2 ^ 31) mod 2 ^ 32 - 2 ^ 31.

Inductive VIOop : Type := VIO_NONE | VIO_READ | VIO_WRITE.

Definition VIOop_eqb (a b : VIOop) : bool :=
  match a, b with
  | VIO_NONE, VIO_NONE | VIO_READ, VIO_READ | VIO_WRITE, VIO_WRITE => true
  | _, _ => false
  end.

Inductive ShutdownHowTo_t : Type :=
  IO_SHUTDOWN_READ | IO_SHUTDOWN_WRITE | IO_SHUTDOWN_READWRITE.

(** Which of the two VIOs of the connection a [VIO *] designates
    ([vio == &read.vio] in the source). *)
Inductive VIORef : Type := ReadVIO | WriteVIO.

Inductive NetVConnHandler : Type := StartEvent | AcceptEvent | MainEvent.

(** ** The byte buffer interface *)

(** Modelled from the spec: the linked-block byte buffer is an external
    collaborator (component 1, "Byte Buffer Interface"); its implementation
    is not part of this file.  A block is a window [_start <= _end <=
    _buf_end] over its storage: the bytes between [_start] and [_end] are
    readable, the bytes between [_end] and [_buf_end] are writable.  A block
    chain is the list of the blocks reached through [next]. *)
Record IOBufferBlock : Type := mkBlock {
  _start : Z;
  _end : Z;
  _buf_end : Z
}.

Definition block_write_avail (b : IOBufferBlock) : Z := _buf_end b - _end b.
Definition block_read_avail (b : IOBufferBlock) : Z := _end b - _start b.
Definition block_fill (len : Z) (b : IOBufferBlock) : IOBufferBlock :=
  mkBlock (_start b) (_end b + len) (_buf_end b).

(** The writer view: the chain that starts at [first_write_block]. *)
Record MIOBuffer : Type := mkMIOBuffer {
  first_write_block : list IOBufferBlock
}.

Fixpoint chain_write_avail (bs : list IOBufferBlock) : Z :=
  match bs with
  | [] => 0
  | b :: rest => block_write_avail b + chain_write_avail rest
  end.

Definition write_avail (m : MIOBuffer) : Z :=
  chain_write_avail (first_write_block m).

(** [fill(len)]: the first blocks of the chain take the bytes, each up to
    its free space; the last block of the chain takes what is left. *)
Fixpoint chain_fill (len : Z) (bs : list IOBufferBlock) : list IOBufferBlock :=
  match bs with
  | [] => []
  | [b] => [block_fill len b]
  | b :: rest =>
      let f := block_write_avail b in
      if f <? len then block_fill f b :: chain_fill (len - f) rest
      else block_fill len b :: rest
  end.

Definition fill (len : Z) (m : MIOBuffer) : MIOBuffer :=
  mkMIOBuffer (chain_fill len (first_write_block m)).

(** The reader view: the chain that starts at the reader's [block], the
    first [start_offset] bytes of which are already consumed, and the buffer
    the reader belongs to. *)
Record IOBufferReader : Type := mkReader {
  start_offset : Z;
  block : list IOBufferBlock;
  mbuf : MIOBuffer
}.

Fixpoint chain_read_avail (bs : list IOBufferBlock) : Z :=
  match bs with
  | [] => 0
  | b :: rest => block_read_avail b + chain_read_avail rest
  end.

Definition read_avail (r : IOBufferReader) : Z :=
  chain_read_avail (block r) - start_offset r.

(** [consume(n)]: advance the offset, then drop the blocks that are wholly
    consumed while a following non-empty block exists. *)
Fixpoint consume_skip (s : Z) (bs : list IOBufferBlock) : Z * list IOBufferBlock :=
  match bs with
  | b :: ((b' :: _) as rest) =>
      if (block_read_avail b <=? s) && negb (block_read_avail b' =? 0)
      then consume_skip (s - block_read_avail b) rest
      else (s, bs)
  | _ => (s, bs)
  end.

Definition consume (n : Z) (r : IOBufferReader) : IOBufferReader :=
  let (s, bs) := consume_skip (start_offset r + n) (block r) in
  mkReader s bs (mbuf r).

Definition is_read_avail_more_than (size : Z) (r : IOBufferReader) : bool :=
  size <? read_avail r.

(** [writer()] and [reader()] of the accessor are its two fields. *)
Record MIOBufferAccessor : Type := mkAccessor {
  writer : option MIOBuffer;
  reader : option IOBufferReader
}.

Definition accessor_clear : MIOBufferAccessor := mkAccessor None None.
Definition writer_for (b : MIOBuffer) : MIOBufferAccessor := mkAccessor (Some b) None.
Definition reader_for (r : IOBufferReader) : MIOBufferAccessor :=
  mkAccessor (Some (mbuf r)) (Some r).

Record IOVec : Type := mkIOVec {
  iov_base : Z;
  iov_len : Z
}.

(** ** Locks, kernel, scheduler objects *)

Record ProxyMutex : Type := mkProxyMutex {
  thread_holding : option EThread;
  nthread_holding : nat
}.

(** The retry callback of an out-of-band send; [trigger] tells whether its
    scheduled event is still pending. *)
Record OOB_callback : Type := mkOOB {
  trigger : bool
}.

(** The wake-up event of a NetHandler: the thread it runs on and whether
    that thread has a [signal_hook]. *)
Record TriggerEvent : Type := mkTriggerEvent {
  trigger_ethread : EThread;
  signal_hook : bool
}.

(** The timer event handed to [mainEvent]. *)
Record Event : Type := mkEvent {
  ethread : EThread;
  cancelled : bool
}.

(** Modelled from the spec: the socket operations are an external
    collaborator (section 6, "Return values follow POSIX conventions except
    errors are returned as negative errno").  A reply is what the kernel
    has for one call: a number of bytes ready (the call transfers as many of
    them as were asked for) or an error number. *)
Inductive KReply : Type :=
| KBytes (n : N)
| KErrno (e : positive).

Definition reply_value (attempted : Z) (k : KReply) : Z :=
  match k with
  | KBytes n => Z.min (Z.of_N n) (Z.max 0 attempted)
  | KErrno e => - Z.pos e
  end.

(** The read-or-write work item.  [vc_server] records whether the back pointer to the
    owning connection is set. *)
Record VIO : Type := mkVIO {
  op : VIOop;
  nbytes : Z;
  ndone : Z;
  _cont : option Continuation;
  vio_mutex : option ProxyMutexRef;
  buffer : MIOBufferAccessor;
  vc_server : bool
}.

Definition with_op (x : VIOop) (r : VIO) : VIO :=
  mkVIO x (nbytes r) (ndone r) (_cont r) (vio_mutex r) (buffer r) (vc_server r).
Definition with_nbytes (x : Z) (r : VIO) : VIO :=
  mkVIO (op r) x (ndone r) (_cont r) (vio_mutex r) (buffer r) (vc_server r).
Definition with_ndone (x : Z) (r : VIO) : VIO :=
  mkVIO (op r) (nbytes r) x (_cont r) (vio_mutex r) (buffer r) (vc_server r).
Definition with_cont (x : option Continuation) (r : VIO) : VIO :=
  mkVIO (op r) (nbytes r) (ndone r) x (vio_mutex r) (buffer r) (vc_server r).
Definition with_vio_mutex (x : option ProxyMutexRef) (r : VIO) : VIO :=
  mkVIO (op r) (nbytes r) (ndone r) (_cont r) x (buffer r) (vc_server r).
Definition with_buffer (x : MIOBufferAccessor) (r : VIO) : VIO :=
  mkVIO (op r) (nbytes r) (ndone r) (_cont r) (vio_mutex r) x (vc_server r).
Definition with_vc_server (x : bool) (r : VIO) : VIO :=
  mkVIO (op r) (nbytes r) (ndone r) (_cont r) (vio_mutex r) (buffer r) x.

(** Per-direction state of a connection.  The queue links are represented by the
    list membership kept in the NetHandler. *)
Record NetState : Type := mkNetState {
  enabled : Z;
  triggered : Z;
  in_enabled_list : Z;
  vio : VIO
}.

Definition with_enabled (x : Z) (r : NetState) : NetState :=
  mkNetState x (triggered r) (in_enabled_list r) (vio r).
Definition with_triggered (x : Z) (r : NetState) : NetState :=
  mkNetState (enabled r) x (in_enabled_list r) (vio r).
Definition with_in_enabled_list (x : Z) (r : NetState) : NetState :=
  mkNetState (enabled r) (triggered r) x (vio r).
Definition with_vio (x : VIO) (r : NetState) : NetState :=
  mkNetState (enabled r) (triggered r) (in_enabled_list r) x.

(** The connection object.  [addr] stands for the address of the object ([this]),
    which is what the NetHandler's intrusive lists hold. *)
Record UnixNetVConnection : Type := mkVC {
  addr : nat;
  closed : Z;
  recursion : Z;
  lerrno : Z;
  f_shutdown : Z;
  flags : Z;
  read : NetState;
  write : NetState;
  nh : option NetHandlerRef;
  thread : option EThread;
  mutex : option ProxyMutexRef;
  action_mutex : option ProxyMutexRef;
  handler : NetVConnHandler;
  inactivity_timeout_in : Z;
  active_timeout_in : Z;
  next_inactivity_timeout_at : Z;
  next_activity_timeout_at : Z;
  con_fd : Z;
  oob_ptr : option OOB_callback;
  write_buffer_empty_event : Z;
  from_accept_thread : bool;
  got_remote_addr : Z;
  got_local_addr : Z;
  attributes : Z
}.

Definition with_closed (x : Z) (r : UnixNetVConnection) : UnixNetVConnection :=
  mkVC (addr r) x (recursion r) (lerrno r) (f_shutdown r) (flags r) (read r) (write r) (nh r) (thread r) (mutex r) (action_mutex r) (handler r) (inactivity_timeout_in r) (active_timeout_in r) (next_inactivity_timeout_at r) (next_activity_timeout_at r) (con_fd r) (oob_ptr r) (write_buffer_empty_event r) (from_accept_thread r) (got_remote_addr r) (got_local_addr r) (attributes r).
Definition with_recursion (x : Z) (r : UnixNetVConnection) : UnixNetVConnection :=
  mkVC (addr r) (closed r) x (lerrno r) (f_shutdown r) (flags r) (read r) (write r) (nh r) (thread r) (mutex r) (action_mutex r) (handler r) (inactivity_timeout_in r) (active_timeout_in r) (next_inactivity_timeout_at r) (next_activity_timeout_at r) (con_fd r) (oob_ptr r) (write_buffer_empty_event r) (from_accept_thread r) (got_remote_addr r) (got_local_addr r) (attributes r).
Definition with_lerrno (x : Z) (r : UnixNetVConnection) : UnixNetVConnection :=
  mkVC (addr r) (closed r) (recursion r) x (f_shutdown r) (flags r) (read r) (write r) (nh r) (thread r) (mutex r) (action_mutex r) (handler r) (inactivity_timeout_in r) (active_timeout_in r) (next_inactivity_timeout_at r) (next_activity_timeout_at r) (con_fd r) (oob_ptr r) (write_buffer_empty_event r) (from_accept_thread r) (got_remote_addr r) (got_local_addr r) (attributes r).
Definition with_f_shutdown (x : Z) (r : UnixNetVConnection) : UnixNetVConnection :=
  mkVC (addr r) (closed r) (recursion r) (lerrno r) x (flags r) (read r) (write r) (nh r) (thread r) (mutex r) (action_mutex r) (handler r) (inactivity_timeout_in r) (active_timeout_in r) (next_inactivity_timeout_at r) (next_activity_timeout_at r) (con_fd r) (oob_ptr r) (write_buffer_empty_event r) (from_accept_thread r) (got_remote_addr r) (got_local_addr r) (attributes r).
Definition with_flags (x : Z) (r : UnixNetVConnection) : UnixNetVConnection :=
  mkVC (addr r) (closed r) (recursion r) (lerrno r) (f_shutdown r) x (read r) (write r) (nh r) (thread r) (mutex r) (action_mutex r) (handler r) (inactivity_timeout_in r) (active_timeout_in r) (next_inactivity_timeout_at r) (next_activity_timeout_at r) (con_fd r) (oob_ptr r) (write_buffer_empty_event r) (from_accept_thread r) (got_remote_addr r) (got_local_addr r) (attributes r).
Definition with_read (x : NetState) (r : UnixNetVConnection) : UnixNetVConnection :=
  mkVC (addr r) (closed r) (recursion r) (lerrno r) (f_shutdown r) (flags r) x (write r) (nh r) (thread r) (mutex r) (action_mutex r) (handler r) (inactivity_timeout_in r) (active_timeout_in r) (next_inactivity_timeout_at r) (next_activity_timeout_at r) (con_fd r) (oob_ptr r) (write_buffer_empty_event r) (from_accept_thread r) (got_remote_addr r) (got_local_addr r) (attributes r).
Definition with_write (x : NetState) (r : UnixNetVConnection) : UnixNetVConnection :=
  mkVC (addr r) (closed r) (recursion r) (lerrno r) (f_shutdown r) (flags r) (read r) x (nh r) (thread r) (mutex r) (action_mutex r) (handler r) (inactivity_timeout_in r) (active_timeout_in r) (next_inactivity_timeout_at r) (next_activity_timeout_at r) (con_fd r) (oob_ptr r) (write_buffer_empty_event r) (from_accept_thread r) (got_remote_addr r) (got_local_addr r) (attributes r).
Definition with_nh (x : option NetHandlerRef) (r : UnixNetVConnection) : UnixNetVConnection :=
  mkVC (addr r) (closed r) (recursion r) (lerrno r) (f_shutdown r) (flags r) (read r) (write r) x (thread r) (mutex r) (action_mutex r) (handler r) (inactivity_timeout_in r) (active_timeout_in r) (next_inactivity_timeout_at r) (next_activity_timeout_at r) (con_fd r) (oob_ptr r) (write_buffer_empty_event r) (from_accept_thread r) (got_remote_addr r) (got_local_addr r) (attributes r).
Definition with_thread (x : option EThread) (r : UnixNetVConnection) : UnixNetVConnection :=
  mkVC (addr r) (closed r) (recursion r) (lerrno r) (f_shutdown r) (flags r) (read r) (write r) (nh r) x (mutex r) (action_mutex r) (handler r) (inactivity_timeout_in r) (active_timeout_in r) (next_inactivity_timeout_at r) (next_activity_timeout_at r) (con_fd r) (oob_ptr r) (write_buffer_empty_event r) (from_accept_thread r) (got_remote_addr r) (got_local_addr r) (attributes r).
Definition with_mutex (x : option ProxyMutexRef) (r : UnixNetVConnection) : UnixNetVConnection :=
  mkVC (addr r) (closed r) (recursion r) (lerrno r) (f_shutdown r) (flags r) (read r) (write r) (nh r) (thread r) x (action_mutex r) (handler r) (inactivity_timeout_in r) (active_timeout_in r) (next_inactivity_timeout_at r) (next_activity_timeout_at r) (con_fd r) (oob_ptr r) (write_buffer_empty_event r) (from_accept_thread r) (got_remote_addr r) (got_local_addr r) (attributes r).
Definition with_action_mutex (x : option ProxyMutexRef) (r : UnixNetVConnection) : UnixNetVConnection :=
  mkVC (addr r) (closed r) (recursion r) (lerrno r) (f_shutdown r) (flags r) (read r) (write r) (nh r) (thread r) (mutex r) x (handler r) (inactivity_timeout_in r) (active_timeout_in r) (next_inactivity_timeout_at r) (next_activity_timeout_at r) (con_fd r) (oob_ptr r) (write_buffer_empty_event r) (from_accept_thread r) (got_remote_addr r) (got_local_addr r) (attributes r).
Definition with_handler (x : NetVConnHandler) (r : UnixNetVConnection) : UnixNetVConnection :=
  mkVC (addr r) (closed r) (recursion r) (lerrno r) (f_shutdown r) (flags r) (read r) (write r) (nh r) (thread r) (mutex r) (action_mutex r) x (inactivity_timeout_in r) (active_timeout_in r) (next_inactivity_timeout_at r) (next_activity_timeout_at r) (con_fd r) (oob_ptr r) (write_buffer_empty_event r) (from_accept_thread r) (got_remote_addr r) (got_local_addr r) (attributes r).
Definition with_inactivity_timeout_in (x : Z) (r : UnixNetVConnection) : UnixNetVConnection :=
  mkVC (addr r) (closed r) (recursion r) (lerrno r) (f_shutdown r) (flags r) (read r) (write r) (nh r) (thread r) (mutex r) (action_mutex r) (handler r) x (active_timeout_in r) (next_inactivity_timeout_at r) (next_activity_timeout_at r) (con_fd r) (oob_ptr r) (write_buffer_empty_event r) (from_accept_thread r) (got_remote_addr r) (got_local_addr r) (attributes r).
Definition with_active_timeout_in (x : Z) (r : UnixNetVConnection) : UnixNetVConnection :=
  mkVC (addr r) (closed r) (recursion r) (lerrno r) (f_shutdown r) (flags r) (read r) (write r) (nh r) (thread r) (mutex r) (action_mutex r) (handler r) (inactivity_timeout_in r) x (next_inactivity_timeout_at r) (next_activity_timeout_at r) (con_fd r) (oob_ptr r) (write_buffer_empty_event r) (from_accept_thread r) (got_remote_addr r) (got_local_addr r) (attributes r).
Definition with_next_inactivity_timeout_at (x : Z) (r : UnixNetVConnection) : UnixNetVConnection :=
  mkVC (addr r) (closed r) (recursion r) (lerrno r) (f_shutdown r) (flags r) (read r) (write r) (nh r) (thread r) (mutex r) (action_mutex r) (handler r) (inactivity_timeout_in r) (active_timeout_in r) x (next_activity_timeout_at r) (con_fd r) (oob_ptr r) (write_buffer_empty_event r) (from_accept_thread r) (got_remote_addr r) (got_local_addr r) (attributes r).
Definition with_next_activity_timeout_at (x : Z) (r : UnixNetVConnection) : UnixNetVConnection :=
  mkVC (addr r) (closed r) (recursion r) (lerrno r) (f_shutdown r) (flags r) (read r) (write r) (nh r) (thread r) (mutex r) (action_mutex r) (handler r) (inactivity_timeout_in r) (active_timeout_in r) (next_inactivity_timeout_at r) x (con_fd r) (oob_ptr r) (write_buffer_empty_event r) (from_accept_thread r) (got_remote_addr r) (got_local_addr r) (attributes r).
Definition with_con_fd (x : Z) (r : UnixNetVConnection) : UnixNetVConnection :=
  mkVC (addr r) (closed r) (recursion r) (lerrno r) (f_shutdown r) (flags r) (read r) (write r) (nh r) (thread r) (mutex r) (action_mutex r) (handler r) (inactivity_timeout_in r) (active_timeout_in r) (next_inactivity_timeout_at r) (next_activity_timeout_at r) x (oob_ptr r) (write_buffer_empty_event r) (from_accept_thread r) (got_remote_addr r) (got_local_addr r) (attributes r).
Definition with_oob_ptr (x : option OOB_callback) (r : UnixNetVConnection) : UnixNetVConnection :=
  mkVC (addr r) (closed r) (recursion r) (lerrno r) (f_shutdown r) (flags r) (read r) (write r) (nh r) (thread r) (mutex r) (action_mutex r) (handler r) (inactivity_timeout_in r) (active_timeout_in r) (next_inactivity_timeout_at r) (next_activity_timeout_at r) (con_fd r) x (write_buffer_empty_event r) (from_accept_thread r) (got_remote_addr r) (got_local_addr r) (attributes r).
Definition with_write_buffer_empty_event (x : Z) (r : UnixNetVConnection) : UnixNetVConnection :=
  mkVC (addr r) (closed r) (recursion r) (lerrno r) (f_shutdown r) (flags r) (read r) (write r) (nh r) (thread r) (mutex r) (action_mutex r) (handler r) (inactivity_timeout_in r) (active_timeout_in r) (next_inactivity_timeout_at r) (next_activity_timeout_at r) (con_fd r) (oob_ptr r) x (from_accept_thread r) (got_remote_addr r) (got_local_addr r) (attributes r).
Definition with_from_accept_thread (x : bool) (r : UnixNetVConnection) : UnixNetVConnection :=
  mkVC (addr r) (closed r) (recursion r) (lerrno r) (f_shutdown r) (flags r) (read r) (write r) (nh r) (thread r) (mutex r) (action_mutex r) (handler r) (inactivity_timeout_in r) (active_timeout_in r) (next_inactivity_timeout_at r) (next_activity_timeout_at r) (con_fd r) (oob_ptr r) (write_buffer_empty_event r) x (got_remote_addr r) (got_local_addr r) (attributes r).
Definition with_got_remote_addr (x : Z) (r : UnixNetVConnection) : UnixNetVConnection :=
  mkVC (addr r) (closed r) (recursion r) (lerrno r) (f_shutdown r) (flags r) (read r) (write r) (nh r) (thread r) (mutex r) (action_mutex r) (handler r) (inactivity_timeout_in r) (active_timeout_in r) (next_inactivity_timeout_at r) (next_activity_timeout_at r) (con_fd r) (oob_ptr r) (write_buffer_empty_event r) (from_accept_thread r) x (got_local_addr r) (attributes r).
Definition with_got_local_addr (x : Z) (r : UnixNetVConnection) : UnixNetVConnection :=
  mkVC (addr r) (closed r) (recursion r) (lerrno r) (f_shutdown r) (flags r) (read r) (write r) (nh r) (thread r) (mutex r) (action_mutex r) (handler r) (inactivity_timeout_in r) (active_timeout_in r) (next_inactivity_timeout_at r) (next_activity_timeout_at r) (con_fd r) (oob_ptr r) (write_buffer_empty_event r) (from_accept_thread r) (got_remote_addr r) x (attributes r).
Definition with_attributes (x : Z) (r : UnixNetVConnection) : UnixNetVConnection :=
  mkVC (addr r) (closed r) (recursion r) (lerrno r) (f_shutdown r) (flags r) (read r) (write r) (nh r) (thread r) (mutex r) (action_mutex r) (handler r) (inactivity_timeout_in r) (active_timeout_in r) (next_inactivity_timeout_at r) (next_activity_timeout_at r) (con_fd r) (oob_ptr r) (write_buffer_empty_event r) (from_accept_thread r) (got_remote_addr r) (got_local_addr r) x.

(** Per-thread scheduler state. *)
Record NetHandler : Type := mkNetHandler {
  nh_mutex : ProxyMutexRef;
  open_list : list nat;
  cop_list : list nat;
  read_ready_list : list nat;
  write_ready_list : list nat;
  read_enable_list : list nat;
  write_enable_list : list nat;
  keep_alive_queue : list nat;
  active_queue : list nat;
  trigger_event : option TriggerEvent
}.

Definition with_nh_mutex (x : ProxyMutexRef) (r : NetHandler) : NetHandler :=
  mkNetHandler x (open_list r) (cop_list r) (read_ready_list r) (write_ready_list r) (read_enable_list r) (write_enable_list r) (keep_alive_queue r) (active_queue r) (trigger_event r).
Definition with_open_list (x : list nat) (r : NetHandler) : NetHandler :=
  mkNetHandler (nh_mutex r) x (cop_list r) (read_ready_list r) (write_ready_list r) (read_enable_list r) (write_enable_list r) (keep_alive_queue r) (active_queue r) (trigger_event r).
Definition with_cop_list (x : list nat) (r : NetHandler) : NetHandler :=
  mkNetHandler (nh_mutex r) (open_list r) x (read_ready_list r) (write_ready_list r) (read_enable_list r) (write_enable_list r) (keep_alive_queue r) (active_queue r) (trigger_event r).
Definition with_read_ready_list (x : list nat) (r : NetHandler) : NetHandler :=
  mkNetHandler (nh_mutex r) (open_list r) (cop_list r) x (write_ready_list r) (read_enable_list r) (write_enable_list r) (keep_alive_queue r) (active_queue r) (trigger_event r).
Definition with_write_ready_list (x : list nat) (r : NetHandler) : NetHandler :=
  mkNetHandler (nh_mutex r) (open_list r) (cop_list r) (read_ready_list r) x (read_enable_list r) (write_enable_list r) (keep_alive_queue r) (active_queue r) (trigger_event r).
Definition with_read_enable_list (x : list nat) (r : NetHandler) : NetHandler :=
  mkNetHandler (nh_mutex r) (open_list r) (cop_list r) (read_ready_list r) (write_ready_list r) x (write_enable_list r) (keep_alive_queue r) (active_queue r) (trigger_event r).
Definition with_write_enable_list (x : list nat) (r : NetHandler) : NetHandler :=
  mkNetHandler (nh_mutex r) (open_list r) (cop_list r) (read_ready_list r) (write_ready_list r) (read_enable_list r) x (keep_alive_queue r) (active_queue r) (trigger_event r).
Definition with_keep_alive_queue (x : list nat) (r : NetHandler) : NetHandler :=
  mkNetHandler (nh_mutex r) (open_list r) (cop_list r) (read_ready_list r) (write_ready_list r) (read_enable_list r) (write_enable_list r) x (active_queue r) (trigger_event r).
Definition with_active_queue (x : list nat) (r : NetHandler) : NetHandler :=
  mkNetHandler (nh_mutex r) (open_list r) (cop_list r) (read_ready_list r) (write_ready_list r) (read_enable_list r) (write_enable_list r) (keep_alive_queue r) x (trigger_event r).
Definition with_trigger_event (x : option TriggerEvent) (r : NetHandler) : NetHandler :=
  mkNetHandler (nh_mutex r) (open_list r) (cop_list r) (read_ready_list r) (write_ready_list r) (read_enable_list r) (write_enable_list r) (keep_alive_queue r) (active_queue r) x.

(** Everything a continuation's handler can reach: the connection, the handlers,
    the locks, the kernel's pending replies and the clock. *)
Record State : Type := mkState {
  vc : UnixNetVConnection;
  handlers : NetHandlerRef -> NetHandler;
  mutexes : ProxyMutexRef -> ProxyMutex;
  cont_mutex : Continuation -> option ProxyMutexRef;
  kernel : list KReply;
  hrtime : Z;
  this_ethread : EThread
}.

Definition with_vc (x : UnixNetVConnection) (r : State) : State :=
  mkState x (handlers r) (mutexes r) (cont_mutex r) (kernel r) (hrtime r) (this_ethread r).
Definition with_handlers (x : NetHandlerRef -> NetHandler) (r : State) : State :=
  mkState (vc r) x (mutexes r) (cont_mutex r) (kernel r) (hrtime r) (this_ethread r).
Definition with_mutexes (x : ProxyMutexRef -> ProxyMutex) (r : State) : State :=
  mkState (vc r) (handlers r) x (cont_mutex r) (kernel r) (hrtime r) (this_ethread r).
Definition with_kernel (x : list KReply) (r : State) : State :=
  mkState (vc r) (handlers r) (mutexes r) (cont_mutex r) x (hrtime r) (this_ethread r).
Definition with_hrtime (x : Z) (r : State) : State :=
  mkState (vc r) (handlers r) (mutexes r) (cont_mutex r) (kernel r) x (this_ethread r).
Definition with_this_ethread (x : EThread) (r : State) : State :=
  mkState (vc r) (handlers r) (mutexes r) (cont_mutex r) (kernel r) (hrtime r) x.

(** What the code does to the world outside the connection object, in
    program order. *)
Inductive Action : Type :=
| SockRead (fd len : Z)
| SockReadv (fd : Z) (iov : list IOVec)
| SockWrite (fd len : Z)
| SockWritev (fd : Z) (iov : list IOVec)
| SockShutdown (fd how : Z)
| ConClose (fd : Z)
| EpModify (e : Z)
| EpRefresh (e : Z)
| EpStop
| HandleEvent (c : Continuation) (event : Z) (v : VIORef)
| NullContClose (event : Z) (v : VIORef)
| UnexpectedEvent (event : Z)
| ErrorClosedVC (v : VIORef)
| SignalHook (t : EThread)
| ScheduleRetry
| OOBCancel
| AllocFree (global : bool).

Record World : Type := mkWorld {
  st : State;
  log : list Action
}.

(** ** A state-and-abort monad for the code *)

Definition Net (A : Type) : Type := World -> option (A * World).

Definition ret {A} (a : A) : Net A := fun w => Some (a, w).
Definition bind {A B} (m : Net A) (k : A -> Net B) : Net B :=
  fun w => match m w with
           | Some (a, w') => k a w'
           | None => None
           end.
Definition abort {A} : Net A := fun _ => None.

Declare Scope net_scope.
Delimit Scope net_scope with net.
Notation "x <- m ;; k" := (bind m (fun x => k))
  (at level 61, m at next level, right associativity) : net_scope.
Notation "m ;; k" := (bind m (fun _ => k))
  (at level 61, right associativity) : net_scope.
Local Open Scope net_scope.

Definition gets {A} (f : State -> A) : Net A := fun w => Some (f (st w), w).
Definition modify (f : State -> State) : Net unit :=
  fun w => Some (tt, mkWorld (f (st w)) (log w)).
Definition emit (a : Action) : Net unit :=
  fun w => Some (tt, mkWorld (st w) (log w ++ [a])).

Definition upd_vc (f : UnixNetVConnection -> UnixNetVConnection) : State -> State :=
  fun s => with_vc (f (vc s)) s.
Definition upd_read (f : NetState -> NetState) : State -> State :=
  upd_vc (fun v => with_read (f (read v)) v).
Definition upd_write (f : NetState -> NetState) : State -> State :=
  upd_vc (fun v => with_write (f (write v)) v).
Definition upd_read_vio (f : VIO -> VIO) : State -> State :=
  upd_read (fun n => with_vio (f (vio n)) n).
Definition upd_write_vio (f : VIO -> VIO) : State -> State :=
  upd_write (fun n => with_vio (f (vio n)) n).
Definition upd_nh (h : NetHandlerRef) (f : NetHandler -> NetHandler) : State -> State :=
  fun s => with_handlers
             (fun h' => if Nat.eqb h' h then f (handlers s h) else handlers s h') s.
Definition upd_mutex (m : ProxyMutexRef) (f : ProxyMutex -> ProxyMutex) : State -> State :=
  fun s => with_mutexes
             (fun m' => if Nat.eqb m' m then f (mutexes s m) else mutexes s m') s.

(** The direction a VIO belongs to ([STATE_FROM_VIO]). *)
Definition STATE_FROM_VIO (v : VIORef) (c : UnixNetVConnection) : NetState :=
  match v with ReadVIO => read c | WriteVIO => write c end.
Definition upd_state_of (v : VIORef) (f : NetState -> NetState) : State -> State :=
  match v with ReadVIO => upd_read f | WriteVIO => upd_write f end.

(** Modelled from the spec: the intrusive lists are part of the NetHandler,
    an external collaborator (component 3).  A list holds each connection at
    most once: [in_or_enqueue] appends unless present, [remove] unlinks,
    [push] puts in front. *)
Definition queue_in (v : nat) (q : list nat) : bool := existsb (Nat.eqb v) q.
Definition enqueue (v : nat) (q : list nat) : list nat := q ++ [v].
Definition in_or_enqueue (v : nat) (q : list nat) : list nat :=
  if queue_in v q then q else enqueue v q.
Definition remove (v : nat) (q : list nat) : list nat :=
  filter (fun x => negb (Nat.eqb v x)) q.
Definition push (v : nat) (q : list nat) : list nat := v :: q.

(** Modelled from the spec: the lock implementation is external (section 5,
    "non-blocking try tagged for the current thread").  A try-lock succeeds
    when the mutex is free or already held by the same thread; releasing
    undoes one acquisition. *)
Definition Mutex_trylock (m : ProxyMutexRef) (t : EThread) : Net bool :=
  pm <- gets (fun s => mutexes s m) ;;
  match thread_holding pm with
  | None => modify (upd_mutex m (fun _ => mkProxyMutex (Some t) 1)) ;; ret true
  | Some t' =>
      if Nat.eqb t' t
      then modify (upd_mutex m (fun p => mkProxyMutex (Some t) (S (nthread_holding p)))) ;;
           ret true
      else ret false
  end.

Definition Mutex_unlock (m : ProxyMutexRef) : Net unit :=
  modify (upd_mutex m (fun p =>
    match thread_holding p with
    | None => p
    | Some t =>
        match nthread_holding p with
        | S (S n) => mkProxyMutex (Some t) (S n)
        | _ => mkProxyMutex None 0
        end
    end)).

(** A scoped try-lock ([MUTEX_TRY_LOCK], [MUTEX_TRY_LOCK_FOR]): [body]
    receives the mutex that was locked, or [None] when the lock was not
    obtained; the lock is released when the scope is left.  Locking through
    a null mutex pointer is a null dereference. *)
Definition MUTEX_TRY_LOCK {A} (m : option ProxyMutexRef) (t : EThread)
    (body : option ProxyMutexRef -> Net A) : Net A :=
  match m with
  | None => abort
  | Some mr =>
      ok <- Mutex_trylock mr t ;;
      if ok : bool
      then a <- body (Some mr) ;; Mutex_unlock mr ;; ret a
      else body None
  end.

Definition nonzero (z : Z) : bool := negb (z =? 0).

Definition opt_nat_eqb (a b : option nat) : bool :=
  match a, b with
  | Some x, Some y => Nat.eqb x y
  | None, None => true
  | _, _ => false
  end.

Arguments opt_nat_eqb : simpl never.

(** Modelled from the spec: [VIO::ntodo] is declared with the VIO (data
    model, "ntodo() = nbytes - ndone (READ/WRITE) or 0 when op = NONE"). *)
Definition ntodo (v : VIO) : Z :=
  match op v with
  | VIO_NONE => 0
  | _ => nbytes v - ndone v
  end.

(** One socket call: the kernel's next reply, or [-EAGAIN] when nothing is
    pending. *)
Definition socket_reply (attempted : Z) : Net Z :=
  fun w =>
    match kernel (st w) with
    | [] => Some (- EAGAIN, w)
    | k :: rest =>
        Some (reply_value attempted k, mkWorld (with_kernel rest (st w)) (log w))
    end.

Fixpoint iov_total (iov : list IOVec) : Z :=
  match iov with
  | [] => 0
  | v :: rest => iov_len v + iov_total rest
  end.

Definition socketManager_read (fd len : Z) : Net Z :=
  emit (SockRead fd len) ;; socket_reply len.
Definition socketManager_readv (fd : Z) (iov : list IOVec) : Net Z :=
  emit (SockReadv fd iov) ;; socket_reply (iov_total iov).
Definition socketManager_write (fd len : Z) : Net Z :=
  emit (SockWrite fd len) ;; socket_reply len.
Definition socketManager_writev (fd : Z) (iov : list IOVec) : Net Z :=
  emit (SockWritev fd iov) ;; socket_reply (iov_total iov).

(** "if we have already moved some bytes successfully, summarize in r":
    the statement shared by the read and the write path. *)
Definition summarize (total attempted r : Z) : Z :=
  if negb (total =? attempted)
  then if r <=? 0 then total - attempted else total - attempted + r
  else r.

(** ** Sample objects *)

Definition idle_vio : VIO := mkVIO VIO_NONE 0 0 None None accessor_clear false.
Definition idle_side : NetState := mkNetState 0 0 0 idle_vio.

(** A running connection at address 7, owned by thread 1 and attached to
    that thread's NetHandler. *)
Definition sample_vc : UnixNetVConnection :=
  mkVC 7%nat 0 0 0 0 0 idle_side idle_side (Some 1%nat) (Some 1%nat) (Some 50%nat)
       None MainEvent 0 0 0 0 33 None 0 false 0 0 0.

Definition sample_handler : NetHandler :=
  mkNetHandler 9%nat [7%nat] [] [] [] [] [] [] [] None.

(** No lock is held, continuation [k] has mutex [100 + k], the clock
    reads 1000, the running thread is thread 1. *)
Definition sample_state (c : UnixNetVConnection) (replies : list KReply) : State :=
  mkState c (fun _ => sample_handler) (fun _ => mkProxyMutex None 0)
          (fun k => Some (100 + k)%nat) replies 1000 1%nat.

Definition sample_world (c : UnixNetVConnection) (replies : list KReply) : World :=
  mkWorld (sample_state c replies) [].

(** A continuation that does nothing. *)
Definition quiet : Continuation -> Z -> VIORef -> State -> option State :=
  fun _ _ _ s => Some s.

(** A buffer of three empty blocks of 4, 0 and 6 bytes. *)
Definition sample_buffer : MIOBuffer :=
  mkMIOBuffer [mkBlock 0 0 4; mkBlock 100 100 100; mkBlock 200 200 206].

(** A read of [n] bytes into [m] for continuation 2, enabled and
    triggered. *)
Definition reading (n : Z) (m : MIOBuffer) : NetState :=
  mkNetState 1 1 0 (mkVIO VIO_READ n 0 (Some 2%nat) (Some 102%nat) (writer_for m) true).

(** A write of [n] bytes for continuation 3, enabled and triggered, with
    nothing in the buffer yet. *)
Definition writing (n : Z) : NetState :=
  mkNetState 1 1 0
    (mkVIO VIO_WRITE n 0 (Some 3%nat) (Some 103%nat)
       (reader_for (mkReader 0 [mkBlock 0 0 8] (mkMIOBuffer [mkBlock 0 0 8]))) true).

(** A lock table in which thread [t] holds the mutexes [ms] and all others
    are free. *)
Definition held_by (ms : list ProxyMutexRef) (t : EThread) : ProxyMutexRef -> ProxyMutex :=
  fun m => if existsb (Nat.eqb m) ms then mkProxyMutex (Some t) 1 else mkProxyMutex None 0.

Definition sample_world_locked (c : UnixNetVConnection) (ms : list ProxyMutexRef) : World :=
  mkWorld (with_mutexes (held_by ms 1%nat) (sample_state c [])) [].

(** A handshake hook that reports completion. *)
Definition handshake_done : Z -> State -> Z * Z * State :=
  fun _ s => (EVENT_DONE, 0, s).


(** The sample state with the mutexes [ms] held by thread [t]. *)
Definition sample_world_held (c : UnixNetVConnection) (ms : list ProxyMutexRef)
    (t : EThread) (replies : list KReply) : World :=
  mkWorld (with_mutexes (held_by ms t) (sample_state c replies)) [].

(** A write of [n] bytes for continuation 3, enabled and triggered, with
    5 bytes waiting in the buffer. *)
Definition sample_reader : IOBufferReader :=
  mkReader 0 [mkBlock 0 5 8] (mkMIOBuffer [mkBlock 0 5 8]).

Definition sending (n : Z) : NetState :=
  mkNetState 1 1 0
    (mkVIO VIO_WRITE n 0 (Some 3%nat) (Some 103%nat) (reader_for sample_reader) true).

(** A timer event on thread 1. *)
Definition sample_event (c : bool) : Event := mkEvent 1%nat c.
(** ** The code *)

Section Code.

Set Default Proof Using "Type*".

(** [NET_MAX_IOV] is [UIO_MAXIOV] of the platform, or 16. *)
Variable NET_MAX_IOV : nat.

(** [c->handleEvent(event, vio)]: the continuation's code.  It may change
    anything it can reach and may stop the program. *)
Variable handleEvent : Continuation -> Z -> VIORef -> State -> option State.

(** The mutex of each event thread. *)
Variable ethread_mutex : EThread -> ProxyMutexRef.

(** The handshake hooks of a TLS subclass.  [sslStartHandShake] yields its
    return value and the error it stores. *)
Variable getSSLHandShakeComplete : State -> bool.
Variable getSSLClientConnection : State -> bool.
Variable sslStartHandShake : Z -> State -> Z * Z * State.

Definition call_handleEvent (c : Continuation) (event : Z) (v : VIORef) : Net unit :=
  emit (HandleEvent c event v) ;;
  fun w => match handleEvent c event v (st w) with
           | Some s' => Some (tt, mkWorld s' (log w))
           | None => None
           end.

Definition ready_list_update (nh : NetHandlerRef) (v : VIORef)
    (f : nat -> list nat -> list nat) : Net unit :=
  me <- gets (fun s => addr (vc s)) ;;
  match v with
  | ReadVIO =>
      modify (upd_nh nh (fun h => with_read_ready_list (f me (read_ready_list h)) h))
  | WriteVIO =>
      modify (upd_nh nh (fun h => with_write_ready_list (f me (write_ready_list h)) h))
  end.

Definition read_reschedule (nh : NetHandlerRef) : Net unit :=
  emit (EpRefresh EVENTIO_READ) ;;
  c <- gets vc ;;
  if nonzero (triggered (read c)) && nonzero (enabled (read c))
  then ready_list_update nh ReadVIO in_or_enqueue
  else ready_list_update nh ReadVIO remove.

Definition write_reschedule (nh : NetHandlerRef) : Net unit :=
  emit (EpRefresh EVENTIO_WRITE) ;;
  c <- gets vc ;;
  if nonzero (triggered (write c)) && nonzero (enabled (write c))
  then ready_list_update nh WriteVIO in_or_enqueue
  else ready_list_update nh WriteVIO remove.

(** Modelled from the spec: [read_disable] and [write_disable] are defined
    with the NetHandler, not in this file (section 4.4, "Disable: remove
    from ready list, clear enabled, ep.modify(0 interests in that
    direction)"). *)
Definition read_disable (nh : NetHandlerRef) : Net unit :=
  ready_list_update nh ReadVIO remove ;;
  modify (upd_read (with_enabled 0)) ;;
  emit (EpModify (- EVENTIO_READ)).

Definition write_disable (nh : NetHandlerRef) : Net unit :=
  ready_list_update nh WriteVIO remove ;;
  modify (upd_write (with_enabled 0)) ;;
  emit (EpModify (- EVENTIO_WRITE)).

Definition net_activity : Net unit :=
  c <- gets vc ;;
  now <- gets hrtime ;;
  if nonzero (inactivity_timeout_in c)
  then modify (upd_vc (with_next_inactivity_timeout_at (now + inactivity_timeout_in c)))
  else modify (upd_vc (with_next_inactivity_timeout_at 0)).

Definition cancel_OOB : Net unit :=
  c <- gets vc ;;
  match oob_ptr c with
  | Some o =>
      (if trigger o then emit OOBCancel else ret tt) ;;
      modify (upd_vc (with_oob_ptr None))
  | None => ret tt
  end.

Definition free (t : option EThread) : Net unit :=
  me <- gets this_ethread ;;
  if negb (opt_nat_eqb t (Some me)) then abort
  else
    modify (upd_vc (with_mutex None)) ;;
    modify (upd_vc (with_action_mutex None)) ;;
    modify (upd_vc (with_got_remote_addr 0)) ;;
    modify (upd_vc (with_got_local_addr 0)) ;;
    modify (upd_vc (with_attributes 0)) ;;
    modify (upd_read_vio (with_vio_mutex None)) ;;
    modify (upd_write_vio (with_vio_mutex None)) ;;
    modify (upd_vc (with_flags 0)) ;;
    modify (upd_vc (with_handler StartEvent)) ;;
    modify (upd_vc (with_nh None)) ;;
    modify (upd_read (with_triggered 0)) ;;
    modify (upd_write (with_triggered 0)) ;;
    modify (upd_read (with_enabled 0)) ;;
    modify (upd_write (with_enabled 0)) ;;
    modify (upd_read_vio (with_cont None)) ;;
    modify (upd_write_vio (with_cont None)) ;;
    modify (upd_read_vio (with_vc_server false)) ;;
    modify (upd_write_vio (with_vc_server false)) ;;
    modify (upd_vc (with_closed 0)) ;;
    c <- gets vc ;;
    emit (AllocFree (from_accept_thread c)).

(** The four [remove] calls of [close_UnixNetVConnection] on the open,
    cop and ready lists. *)
Definition detach (me : nat) (h : NetHandler) : NetHandler :=
  with_write_ready_list (remove me (write_ready_list h))
    (with_read_ready_list (remove me (read_ready_list h))
       (with_cop_list (remove me (cop_list h))
          (with_open_list (remove me (open_list h)) h))).

(** Modelled from the spec: [remove_from_keep_alive_queue] and
    [remove_from_active_queue] are defined outside this file (section 4.5,
    "detach from ... keep-alive queue, active queue"). *)
Definition leave_queues (me : nat) (h : NetHandler) : NetHandler :=
  with_active_queue (remove me (active_queue h))
    (with_keep_alive_queue (remove me (keep_alive_queue h)) h).

Definition close_UnixNetVConnection (t : option EThread) : Net unit :=
  c0 <- gets vc ;;
  let nh := nh c0 in
  cancel_OOB ;;
  emit EpStop ;;
  emit (ConClose (con_fd c0)) ;;
  modify (upd_vc (with_con_fd NO_FD)) ;;
  if negb (opt_nat_eqb (thread c0) t) then abort
  else
    modify (upd_vc (with_next_inactivity_timeout_at 0)) ;;
    modify (upd_vc (with_next_activity_timeout_at 0)) ;;
    modify (upd_vc (with_inactivity_timeout_in 0)) ;;
    modify (upd_vc (with_active_timeout_in 0)) ;;
    match nh with
    | Some h =>
        modify (upd_nh h (detach (addr c0))) ;;
        (if nonzero (in_enabled_list (read c0))
         then modify (upd_nh h (fun x =>
                with_read_enable_list (remove (addr c0) (read_enable_list x)) x)) ;;
              modify (upd_read (with_in_enabled_list 0))
         else ret tt) ;;
        (if nonzero (in_enabled_list (write c0))
         then modify (upd_nh h (fun x =>
                with_write_enable_list (remove (addr c0) (write_enable_list x)) x)) ;;
              modify (upd_write (with_in_enabled_list 0))
         else ret tt) ;;
        modify (upd_nh h (leave_queues (addr c0)))
    | None => ret tt
    end ;;
    free t.

(** The events a direction without continuation turns into a close. *)
Definition closes_without_cont (event : Z) : bool :=
  (event =? VC_EVENT_EOS) || (event =? VC_EVENT_ERROR)
  || (event =? VC_EVENT_ACTIVE_TIMEOUT) || (event =? VC_EVENT_INACTIVITY_TIMEOUT).

(** The part of [read_signal_and_update] up to the recursion check. *)
Definition read_signal_deliver (event : Z) : Net unit :=
  modify (upd_vc (fun c => with_recursion (recursion c + 1) c)) ;;
  c <- gets vc ;;
  match _cont (vio (read c)) with
  | Some k => call_handleEvent k event ReadVIO
  | None =>
      if closes_without_cont event
      then emit (NullContClose event ReadVIO) ;; modify (upd_vc (with_closed 1))
      else emit (UnexpectedEvent event) ;; abort
  end.

(** [if (!--vc->recursion && vc->closed)] and what follows. *)
Definition signal_update : Net Z :=
  modify (upd_vc (fun c => with_recursion (recursion c - 1) c)) ;;
  c <- gets vc ;;
  if (recursion c =? 0) && nonzero (closed c)
  then close_UnixNetVConnection (thread c) ;; ret EVENT_DONE
  else ret EVENT_CONT.

Definition read_signal_and_update (event : Z) : Net Z :=
  read_signal_deliver event ;; signal_update.

Definition write_signal_deliver (event : Z) : Net unit :=
  modify (upd_vc (fun c => with_recursion (recursion c + 1) c)) ;;
  c <- gets vc ;;
  match _cont (vio (write c)) with
  | Some k => call_handleEvent k event WriteVIO
  | None =>
      if closes_without_cont event
      then emit (NullContClose event WriteVIO) ;; modify (upd_vc (with_closed 1))
      else emit (UnexpectedEvent event) ;; abort
  end.

Definition write_signal_and_update (event : Z) : Net Z :=
  write_signal_deliver event ;; signal_update.

Definition read_signal_done (event : Z) (nh : NetHandlerRef) : Net Z :=
  modify (upd_read (with_enabled 0)) ;;
  e <- read_signal_and_update event ;;
  if e =? EVENT_DONE then ret EVENT_DONE
  else read_reschedule nh ;; ret EVENT_CONT.

Definition write_signal_done (event : Z) (nh : NetHandlerRef) : Net Z :=
  modify (upd_write (with_enabled 0)) ;;
  e <- write_signal_and_update event ;;
  if e =? EVENT_DONE then ret EVENT_DONE
  else write_reschedule nh ;; ret EVENT_CONT.

Definition read_signal_error (nh : NetHandlerRef) (err : Z) : Net Z :=
  modify (upd_vc (with_lerrno err)) ;;
  read_signal_done VC_EVENT_ERROR nh.

Definition write_signal_error (nh : NetHandlerRef) (err : Z) : Net Z :=
  modify (upd_vc (with_lerrno err)) ;;
  write_signal_done VC_EVENT_ERROR nh.

(** The inner [while (b && niov < NET_MAX_IOV)] of the read loop: walk the
    block chain from [b] and describe the writable regions in [tiovec],
    never asking for more than [toread - total_read] bytes.  Yields the
    block the walk stopped at, the vector and [rattempted]. *)
Fixpoint fill_tiovec (toread total_read : Z) (b : list IOBufferBlock) (niov : nat)
    (tiovec : list IOVec) (rattempted : Z) : list IOBufferBlock * list IOVec * Z :=
  match b with
  | [] => (b, tiovec, rattempted)
  | blk :: next =>
      if (niov <? NET_MAX_IOV)%nat then
        let a := block_write_avail blk in
        if 0 <? a then
          let togo := toread - total_read - rattempted in
          let a := if togo <? a then togo else a in
          let tiovec := tiovec ++ [mkIOVec (_end blk) a] in
          let rattempted := rattempted + a in
          if togo <=? a then (b, tiovec, rattempted)
          else fill_tiovec toread total_read next (S niov) tiovec rattempted
        else fill_tiovec toread total_read next niov tiovec rattempted
      else (b, tiovec, rattempted)
  end.

(** [read] for a single region, [readv] otherwise. *)
Definition read_or_readv (fd : Z) (tiovec : list IOVec) : Net Z :=
  match tiovec with
  | [v] => socketManager_read fd (iov_len v)
  | _ => socketManager_readv fd tiovec
  end.

(** The [do ... while (rattempted && r == rattempted && total_read <
    toread)] loop.  Every round makes one socket call; [fuel] bounds the
    rounds, and the result is [None] only when it does not suffice.
    Yields the last [r], the last [rattempted] and [total_read]. *)
Fixpoint read_loop (fuel : nat) (fd toread : Z) (b : list IOBufferBlock)
    (total_read : Z) : Net (option (Z * Z * Z)) :=
  match fuel with
  | O => ret None
  | S fuel' =>
      let '(b', tiovec, rattempted) := fill_tiovec toread total_read b 0 [] 0 in
      r <- read_or_readv fd tiovec ;;
      let total_read := total_read + rattempted in
      if nonzero rattempted && (r =? rattempted) && (total_read <? toread)
      then read_loop fuel' fd toread b' total_read
      else ret (Some (r, rattempted, total_read))
  end.

(** The rounds of a loop never outnumber the pending replies by more than
    one: when nothing is pending the call answers [-EAGAIN] and the loop
    ends. *)
Definition loop_fuel : Net nat :=
  k <- gets kernel ;; ret (S (length k)).

(** Lines 293-348: the socket calls of a pass and the summarized [r]. *)
Definition read_data (toread : Z) (m : MIOBuffer) : Net Z :=
  c <- gets vc ;;
  fuel <- loop_fuel ;;
  res <- read_loop fuel (con_fd c) toread (first_write_block m) 0 ;;
  match res with
  | None => abort
  | Some (r, rattempted, total_read) => ret (summarize total_read rattempted r)
  end.

(** Lines 350-367: a pass that moved no byte. *)
Definition read_check_errors (nh : NetHandlerRef) (r : Z) : Net unit :=
  if (r =? - EAGAIN) || (r =? - ENOTCONN) then
    modify (upd_read (with_triggered 0)) ;;
    ready_list_update nh ReadVIO remove
  else if (r =? 0) || (r =? - ECONNRESET) then
    modify (upd_read (with_triggered 0)) ;;
    ready_list_update nh ReadVIO remove ;;
    read_signal_done VC_EVENT_EOS nh ;;
    ret tt
  else
    modify (upd_read (with_triggered 0)) ;;
    read_signal_error nh (to_int (- r)) ;;
    ret tt.

(** Lines 399-405. *)
Definition read_finish (nh : NetHandlerRef) : Net unit :=
  c <- gets vc ;;
  let s := read c in
  if (ntodo (vio s) <=? 0) || (enabled s =? 0) then read_disable nh
  else
    match writer (buffer (vio s)) with
    | None => abort
    | Some m =>
        if write_avail m =? 0 then read_disable nh else read_reschedule nh
    end.

(** Lines 381-405: signal the continuation, then disable or reschedule. *)
Definition read_signal_ready (nh : NetHandlerRef) (lock : option ProxyMutexRef)
    (r : Z) : Net unit :=
  if nonzero r then
    c <- gets vc ;;
    if ntodo (vio (read c)) <=? 0 then
      read_signal_done VC_EVENT_READ_COMPLETE nh ;; ret tt
    else
      e <- read_signal_and_update VC_EVENT_READ_READY ;;
      if negb (e =? EVENT_CONT) then ret tt
      else
        c' <- gets vc ;;
        if negb (opt_nat_eqb lock (vio_mutex (vio (read c'))))
        then read_reschedule nh
        else read_finish nh
  else read_finish nh.

(** Lines 368-377, then the signal: [r] bytes were received. *)
Definition read_received (nh : NetHandlerRef) (lock : option ProxyMutexRef)
    (r : Z) : Net unit :=
  modify (upd_read_vio (fun v =>
    with_buffer (mkAccessor (option_map (fill r) (writer (buffer v)))
                            (reader (buffer v))) v)) ;;
  modify (upd_read_vio (fun v => with_ndone (ndone v + r) v)) ;;
  net_activity ;;
  read_signal_ready nh lock r.

Definition read_from_net (nh : NetHandlerRef) (thread : EThread) : Net unit :=
  c0 <- gets vc ;;
  MUTEX_TRY_LOCK (vio_mutex (vio (read c0))) thread (fun lock =>
    match lock with
    | None => read_reschedule nh
    | Some _ =>
        c <- gets vc ;;
        let s := read c in
        if nonzero (closed c) then close_UnixNetVConnection (Some thread)
        else if (enabled s =? 0) || negb (VIOop_eqb (op (vio s)) VIO_READ)
        then read_disable nh
        else
          let ntodo := ntodo (vio s) in
          if ntodo <=? 0 then read_disable nh
          else
            match writer (buffer (vio s)) with
            | None => abort
            | Some m =>
                let toread := write_avail m in
                let toread := if ntodo <? toread then ntodo else toread in
                if nonzero toread then
                  r <- read_data toread m ;;
                  if r <=? 0 then read_check_errors nh r
                  else read_received nh lock r
                else read_signal_ready nh lock 0
            end
    end).

Definition net_read_io (nh : NetHandlerRef) (lthread : EThread) : Net unit :=
  read_from_net nh lthread.

(** The inner [while] of [load_buffer_and_write]: walk the reader's chain
    from [b], [offset] bytes into it, and describe the readable regions.
    Yields the block and offset the walk stopped at, the vector and
    [total_written]. *)
Fixpoint fill_wiovec (towrite : Z) (b : list IOBufferBlock) (niov : nat)
    (tiovec : list IOVec) (offset total_written : Z)
    : list IOBufferBlock * Z * list IOVec * Z :=
  match b with
  | [] => (b, offset, tiovec, total_written)
  | blk :: next =>
      if (niov <? NET_MAX_IOV)%nat then
        let l := block_read_avail blk - offset in
        if l <=? 0 then fill_wiovec towrite next niov tiovec (- l) total_written
        else
          let wavail := towrite - total_written in
          let l := if wavail <? l then wavail else l in
          if l =? 0 then (b, offset, tiovec, total_written)
          else
            fill_wiovec towrite next (S niov)
              (tiovec ++ [mkIOVec (_start blk + offset) l]) 0 (total_written + l)
      else (b, offset, tiovec, total_written)
  end.

Definition write_or_writev (fd : Z) (tiovec : list IOVec) : Net Z :=
  match tiovec with
  | [v] => socketManager_write fd (iov_len v)
  | _ => socketManager_writev fd tiovec
  end.

(** The [do ... while (r == wattempted && total_written < towrite)] loop.
    Yields the last [r], [wattempted] and [total_written]. *)
Fixpoint write_loop (fuel : nat) (fd towrite : Z) (b : list IOBufferBlock)
    (offset total_written : Z) : Net (option (Z * Z * Z)) :=
  match fuel with
  | O => ret None
  | S fuel' =>
      let total_written_last := total_written in
      let '(b', offset', tiovec, total_written) :=
        fill_wiovec towrite b 0 [] offset total_written in
      let wattempted := total_written - total_written_last in
      r <- write_or_writev fd tiovec ;;
      if (r =? wattempted) && (total_written <? towrite)
      then write_loop fuel' fd towrite b' offset' total_written
      else ret (Some (r, wattempted, total_written))
  end.

(** [load_buffer_and_write]: yields [r] and the values left in the
    reference arguments [wattempted], [total_written] and [needs]. *)
Definition load_buffer_and_write (towrite wattempted total_written : Z)
    (needs : Z) : Net (Z * Z * Z * Z) :=
  c <- gets vc ;;
  match reader (buffer (vio (write c))) with
  | None => abort
  | Some rd =>
      fuel <- loop_fuel ;;
      res <- write_loop fuel (con_fd c) towrite (block rd) (start_offset rd)
               total_written ;;
      match res with
      | None => abort
      | Some (r, wattempted, total_written) =>
          ret (r, wattempted, total_written, Z.lor needs EVENTIO_WRITE)
      end
  end.

Definition needs_has (needs e : Z) : bool := Z.land needs e =? e.

(** Lines 521-544: a write pass that moved no byte. *)
Definition write_check_errors (nh : NetHandlerRef) (needs r : Z) : Net unit :=
  if (r =? - EAGAIN) || (r =? - ENOTCONN) then
    (if needs_has needs EVENTIO_WRITE then
       modify (upd_write (with_triggered 0)) ;;
       ready_list_update nh WriteVIO remove ;;
       write_reschedule nh
     else ret tt) ;;
    (if needs_has needs EVENTIO_READ then
       modify (upd_read (with_triggered 0)) ;;
       ready_list_update nh ReadVIO remove ;;
       read_reschedule nh
     else ret tt)
  else if (r =? 0) || (r =? - ECONNRESET) then
    modify (upd_write (with_triggered 0)) ;;
    write_signal_done VC_EVENT_EOS nh ;;
    ret tt
  else
    modify (upd_write (with_triggered 0)) ;;
    write_signal_error nh (to_int (- r)) ;;
    ret tt.

(** Lines 580-591. *)
Definition write_finish (nh : NetHandlerRef) (needs : Z) : Net unit :=
  c <- gets vc ;;
  match reader (buffer (vio (write c))) with
  | None => abort
  | Some rd =>
      if read_avail rd =? 0 then write_disable nh
      else
        (if needs_has needs EVENTIO_WRITE then write_reschedule nh else ret tt) ;;
        (if needs_has needs EVENTIO_READ then read_reschedule nh else ret tt)
  end.

(** Lines 545-592: account for the bytes written and signal. *)
Definition write_done (nh : NetHandlerRef) (lock : option ProxyMutexRef)
    (signalled : bool) (needs r : Z) : Net unit :=
  c <- gets vc ;;
  let wbe_event := write_buffer_empty_event c in
  match reader (buffer (vio (write c))) with
  | None => abort
  | Some rd =>
      let rd' := consume r rd in
      modify (upd_write_vio (fun v =>
        with_buffer (mkAccessor (writer (buffer v)) (Some rd')) v)) ;;
      modify (upd_write_vio (fun v => with_ndone (ndone v + r) v)) ;;
      (if negb (is_read_avail_more_than 0 rd')
       then modify (upd_vc (with_write_buffer_empty_event 0))
       else ret tt) ;;
      net_activity ;;
      c1 <- gets vc ;;
      if ntodo (vio (write c1)) <=? 0 then
        write_signal_done VC_EVENT_WRITE_COMPLETE nh ;; ret tt
      else if signalled && negb (wbe_event =? write_buffer_empty_event c1) then
        e <- write_signal_and_update wbe_event ;;
        if negb (e =? EVENT_CONT) then ret tt else write_finish nh needs
      else if negb signalled then
        e <- write_signal_and_update VC_EVENT_WRITE_READY ;;
        if negb (e =? EVENT_CONT) then ret tt
        else
          c2 <- gets vc ;;
          if negb (opt_nat_eqb lock (vio_mutex (vio (write c2))))
          then write_reschedule nh
          else write_finish nh needs
      else write_finish nh needs
  end.

(** Lines 502-519, then the classification of [r]. *)
Definition write_data (nh : NetHandlerRef) (lock : option ProxyMutexRef)
    (signalled : bool) (towrite : Z) : Net unit :=
  if towrite <=? 0 then write_disable nh
  else
    out <- load_buffer_and_write towrite 0 0 0 ;;
    let '(r, wattempted, total_written, needs) := out in
    let r := summarize total_written wattempted r in
    if r <=? 0 then write_check_errors nh needs r
    else write_done nh lock signalled needs r.

(** Lines 438-464: the handshake of a TLS connection is not complete. *)
Definition write_handshake (nh : NetHandlerRef) : Net unit :=
  client <- gets getSSLClientConnection ;;
  s <- gets (fun s => s) ;;
  let '(res, err, s') :=
    sslStartHandShake (if client then SSL_EVENT_CLIENT else SSL_EVENT_SERVER) s in
  modify (fun _ => s') ;;
  if res =? EVENT_ERROR then
    modify (upd_write (with_triggered 0)) ;;
    write_signal_error nh err ;; ret tt
  else if (res =? SSL_HANDSHAKE_WANT_READ) || (res =? SSL_HANDSHAKE_WANT_ACCEPT) then
    modify (upd_read (with_triggered 0)) ;;
    ready_list_update nh ReadVIO remove ;;
    read_reschedule nh
  else if (res =? SSL_HANDSHAKE_WANT_CONNECT) || (res =? SSL_HANDSHAKE_WANT_WRITE) then
    modify (upd_write (with_triggered 0)) ;;
    ready_list_update nh WriteVIO remove ;;
    write_reschedule nh
  else if res =? EVENT_DONE then
    modify (upd_write (with_triggered 1)) ;;
    c <- gets vc ;;
    if nonzero (enabled (write c))
    then ready_list_update nh WriteVIO in_or_enqueue
    else ret tt
  else write_reschedule nh.

Definition write_to_net_io (nh : NetHandlerRef) (thread : EThread) : Net unit :=
  c0 <- gets vc ;;
  MUTEX_TRY_LOCK (vio_mutex (vio (write c0))) thread (fun lock =>
    c <- gets vc ;;
    let s := write c in
    match lock with
    | None => write_reschedule nh
    | Some _ =>
        if negb (opt_nat_eqb lock (vio_mutex (vio s))) then write_reschedule nh
        else
          complete <- gets getSSLHandShakeComplete ;;
          if negb complete then write_handshake nh
          else if (enabled s =? 0) || negb (VIOop_eqb (op (vio s)) VIO_WRITE)
          then write_disable nh
          else
            let ntodo0 := ntodo (vio s) in
            if ntodo0 <=? 0 then write_disable nh
            else
              match reader (buffer (vio s)) with
              | None => abort
              | Some rd =>
                  let towrite := read_avail rd in
                  let towrite := if ntodo0 <? towrite then ntodo0 else towrite in
                  if negb (towrite =? ntodo0) then
                    match writer (buffer (vio s)) with
                    | None => abort
                    | Some m =>
                        if nonzero (write_avail m) then
                          e <- write_signal_and_update VC_EVENT_WRITE_READY ;;
                          if negb (e =? EVENT_CONT) then ret tt
                          else
                            c1 <- gets vc ;;
                            let ntodo1 := ntodo (vio (write c1)) in
                            if ntodo1 <=? 0 then write_disable nh
                            else
                              match reader (buffer (vio (write c1))) with
                              | None => abort
                              | Some rd1 =>
                                  let towrite := read_avail rd1 in
                                  let towrite :=
                                    if ntodo1 <? towrite then ntodo1 else towrite in
                                  write_data nh lock true towrite
                              end
                        else write_data nh lock false towrite
                    end
                  else write_data nh lock false towrite
              end
    end).

Definition write_to_net (nh : NetHandlerRef) (thread : EThread) : Net unit :=
  write_to_net_io nh thread.

Definition set_enabled (v : VIORef) : Net unit :=
  modify (upd_state_of v (with_enabled 1)) ;;
  c <- gets vc ;;
  now <- gets hrtime ;;
  if (next_inactivity_timeout_at c =? 0) && nonzero (inactivity_timeout_in c)
  then modify (upd_vc (with_next_inactivity_timeout_at (now + inactivity_timeout_in c)))
  else ret tt.

(** The block repeated in [reenable]: install the polling interest and put
    the connection on or off the ready list. *)
Definition reenable_install (v : VIORef) (h : NetHandlerRef) : Net unit :=
  match v with
  | ReadVIO =>
      emit (EpModify EVENTIO_READ) ;;
      emit (EpRefresh EVENTIO_READ) ;;
      c <- gets vc ;;
      if nonzero (triggered (read c))
      then ready_list_update h ReadVIO in_or_enqueue
      else ready_list_update h ReadVIO remove
  | WriteVIO =>
      emit (EpModify EVENTIO_WRITE) ;;
      emit (EpRefresh EVENTIO_WRITE) ;;
      c <- gets vc ;;
      if nonzero (triggered (write c))
      then ready_list_update h WriteVIO in_or_enqueue
      else ready_list_update h WriteVIO remove
  end.

(** The other thread owns the NetHandler: leave the connection on the
    enable list and wake the owner. *)
Definition reenable_defer (v : VIORef) (h : NetHandlerRef) : Net unit :=
  c <- gets vc ;;
  match v with
  | ReadVIO =>
      if in_enabled_list (read c) =? 0 then
        modify (upd_read (with_in_enabled_list 1)) ;;
        modify (upd_nh h (fun x =>
          with_read_enable_list (push (addr c) (read_enable_list x)) x))
      else ret tt
  | WriteVIO =>
      if in_enabled_list (write c) =? 0 then
        modify (upd_write (with_in_enabled_list 1)) ;;
        modify (upd_nh h (fun x =>
          with_write_enable_list (push (addr c) (write_enable_list x)) x))
      else ret tt
  end ;;
  te <- gets (fun s => trigger_event (handlers s h)) ;;
  match te with
  | Some ev => if signal_hook ev then emit (SignalHook (trigger_ethread ev)) else ret tt
  | None => ret tt
  end.

(** [t] is [vio->mutex->thread_holding]; when no thread holds the VIO's
    mutex and the NetHandler's mutex is held, the try-lock cannot
    succeed. *)
Definition reenable (v : VIORef) : Net unit :=
  c0 <- gets vc ;;
  if nonzero (enabled (STATE_FROM_VIO v c0)) then ret tt
  else
    set_enabled v ;;
    c <- gets vc ;;
    match thread c with
    | None => ret tt
    | Some _ =>
        match vio_mutex (vio (STATE_FROM_VIO v c)) with
        | None => abort
        | Some vm =>
            t <- gets (fun s => thread_holding (mutexes s vm)) ;;
            match nh c with
            | None => abort
            | Some h =>
                hm <- gets (fun s => nh_mutex (handlers s h)) ;;
                holder <- gets (fun s => thread_holding (mutexes s hm)) ;;
                if opt_nat_eqb holder t then reenable_install v h
                else
                  match t with
                  | None => reenable_defer v h
                  | Some t' =>
                      MUTEX_TRY_LOCK (Some hm) t' (fun lock =>
                        match lock with
                        | None => reenable_defer v h
                        | Some _ => reenable_install v h
                        end)
                  end
            end
        end
    end.

(** [net_read_io] and [write_to_net] dereference the thread they are
    given. *)
Definition reenable_re (v : VIORef) : Net unit :=
  c <- gets vc ;;
  match thread c with
  | None => ret tt
  | Some _ =>
      match vio_mutex (vio (STATE_FROM_VIO v c)) with
      | None => abort
      | Some vm =>
          t <- gets (fun s => thread_holding (mutexes s vm)) ;;
          match nh c with
          | None => abort
          | Some h =>
              hm <- gets (fun s => nh_mutex (handlers s h)) ;;
              holder <- gets (fun s => thread_holding (mutexes s hm)) ;;
              if opt_nat_eqb holder t then
                set_enabled v ;;
                match v with
                | ReadVIO =>
                    emit (EpModify EVENTIO_READ) ;;
                    emit (EpRefresh EVENTIO_READ) ;;
                    c1 <- gets vc ;;
                    if nonzero (triggered (read c1)) then
                      match t with
                      | Some t' => net_read_io h t'
                      | None => abort
                      end
                    else ready_list_update h ReadVIO remove
                | WriteVIO =>
                    emit (EpModify EVENTIO_WRITE) ;;
                    emit (EpRefresh EVENTIO_WRITE) ;;
                    c1 <- gets vc ;;
                    if nonzero (triggered (write c1)) then
                      match t with
                      | Some t' => write_to_net h t'
                      | None => abort
                      end
                    else ready_list_update h WriteVIO remove
                end
              else reenable v
          end
      end
  end.

(** [do_io_read]: yields the VIO, or [None] for the null pointer. *)
Definition do_io_read (c : option Continuation) (n : Z) (buf : option MIOBuffer)
    : Net (option VIORef) :=
  me <- gets vc ;;
  if nonzero (closed me) then
    emit (ErrorClosedVC ReadVIO) ;; ret None
  else
    modify (upd_read_vio (with_op VIO_READ)) ;;
    cm <- gets (fun s => match c with
                         | Some k => cont_mutex s k
                         | None => mutex (vc s)
                         end) ;;
    modify (upd_read_vio (with_vio_mutex cm)) ;;
    modify (upd_read_vio (with_cont c)) ;;
    modify (upd_read_vio (with_nbytes n)) ;;
    modify (upd_read_vio (with_ndone 0)) ;;
    modify (upd_read_vio (with_vc_server true)) ;;
    match buf with
    | Some b =>
        modify (upd_read_vio (with_buffer (writer_for b))) ;;
        me1 <- gets vc ;;
        (if enabled (read me1) =? 0 then reenable ReadVIO else ret tt)
    | None =>
        modify (upd_read_vio (with_buffer accessor_clear)) ;;
        modify (upd_read (with_enabled 0))
    end ;;
    ret (Some ReadVIO).

Definition do_io_write (c : option Continuation) (n : Z) (rd : option IOBufferReader)
    (owner : bool) : Net (option VIORef) :=
  me <- gets vc ;;
  if nonzero (closed me) then
    emit (ErrorClosedVC WriteVIO) ;; ret None
  else
    modify (upd_write_vio (with_op VIO_WRITE)) ;;
    cm <- gets (fun s => match c with
                         | Some k => cont_mutex s k
                         | None => mutex (vc s)
                         end) ;;
    modify (upd_write_vio (with_vio_mutex cm)) ;;
    modify (upd_write_vio (with_cont c)) ;;
    modify (upd_write_vio (with_nbytes n)) ;;
    modify (upd_write_vio (with_ndone 0)) ;;
    modify (upd_write_vio (with_vc_server true)) ;;
    match rd with
    | Some r =>
        modify (upd_write_vio (with_buffer (reader_for r))) ;;
        me1 <- gets vc ;;
        (if nonzero n && (enabled (write me1) =? 0) then reenable WriteVIO else ret tt)
    | None => modify (upd_write (with_enabled 0))
    end ;;
    ret (Some WriteVIO).

(** Lines 673-682 of [do_io_close]: both directions are switched off, in
    the connection object only. *)
Definition do_io_close_reset (c : UnixNetVConnection) : UnixNetVConnection :=
  let quiet (s : NetState) :=
    with_vio (with_cont None (with_op VIO_NONE (with_nbytes 0
               (with_buffer accessor_clear (vio s))))) (with_enabled 0 s) in
  with_write (quiet (write c)) (with_read (quiet (read c)) c).

Definition do_io_close (alerrno : Z) : Net unit :=
  modify (upd_vc do_io_close_reset) ;;
  t <- gets this_ethread ;;
  c <- gets vc ;;
  holder <- gets (fun s => match nh c with
                           | Some h => thread_holding (mutexes s (nh_mutex (handlers s h)))
                           | None => None
                           end) ;;
  let close_inline :=
    (recursion c =? 0)
    && (match nh c with None => true | Some _ => opt_nat_eqb holder (Some t) end) in
  (if nonzero alerrno && negb (alerrno =? -1)
   then modify (upd_vc (with_lerrno alerrno)) else ret tt) ;;
  (if alerrno =? -1
   then modify (upd_vc (with_closed 1))
   else modify (upd_vc (with_closed (-1)))) ;;
  if close_inline then close_UnixNetVConnection (Some t) else ret tt.

Definition do_io_shutdown (howto : ShutdownHowTo_t) : Net unit :=
  c <- gets vc ;;
  match howto with
  | IO_SHUTDOWN_READ =>
      emit (SockShutdown (con_fd c) 0) ;;
      modify (upd_read (with_enabled 0)) ;;
      modify (upd_read_vio (with_buffer accessor_clear)) ;;
      modify (upd_read_vio (with_nbytes 0)) ;;
      modify (upd_vc (with_f_shutdown NET_VC_SHUTDOWN_READ))
  | IO_SHUTDOWN_WRITE =>
      emit (SockShutdown (con_fd c) 1) ;;
      modify (upd_write (with_enabled 0)) ;;
      modify (upd_write_vio (with_buffer accessor_clear)) ;;
      modify (upd_write_vio (with_nbytes 0)) ;;
      modify (upd_vc (with_f_shutdown NET_VC_SHUTDOWN_WRITE))
  | IO_SHUTDOWN_READWRITE =>
      emit (SockShutdown (con_fd c) 2) ;;
      modify (upd_read (with_enabled 0)) ;;
      modify (upd_write (with_enabled 0)) ;;
      modify (upd_read_vio (with_buffer accessor_clear)) ;;
      modify (upd_read_vio (with_nbytes 0)) ;;
      modify (upd_write_vio (with_buffer accessor_clear)) ;;
      modify (upd_write_vio (with_nbytes 0)) ;;
      modify (upd_vc (with_f_shutdown (Z.lor NET_VC_SHUTDOWN_READ NET_VC_SHUTDOWN_WRITE)))
  end.

(** The deadline [signal_timeout_at] points to. *)
Inductive Deadline : Type := Inactivity | Activity.

Definition deadline (d : Deadline) (c : UnixNetVConnection) : Z :=
  match d with
  | Inactivity => next_inactivity_timeout_at c
  | Activity => next_activity_timeout_at c
  end.

Definition disarm (d : Deadline) : State -> State :=
  match d with
  | Inactivity => upd_vc (with_next_inactivity_timeout_at 0)
  | Activity => upd_vc (with_next_activity_timeout_at 0)
  end.

(** The test in front of the write-side signal of [mainEvent] (line 1187).
    [*signal_timeout] is the local null pointer in this build. *)
Definition write_side_due (d : Deadline) (reader_cont writer_cont : option Continuation)
    (c : UnixNetVConnection) : bool :=
  (deadline d c =? 0) && (closed c =? 0)
  && VIOop_eqb (op (vio (write c))) VIO_WRITE
  && (Z.land (f_shutdown c) NET_VC_SHUTDOWN_WRITE =? 0)
  && negb (opt_nat_eqb reader_cont (_cont (vio (write c))))
  && opt_nat_eqb writer_cont (_cont (vio (write c))).

(** Lines 1172-1191. *)
Definition mainEvent_signal (signal_event : Z) (d : Deadline) : Net Z :=
  modify (disarm d) ;;
  c <- gets vc ;;
  let writer_cont := _cont (vio (write c)) in
  if nonzero (closed c) then
    close_UnixNetVConnection (thread c) ;; ret EVENT_DONE
  else
    rs <- (if VIOop_eqb (op (vio (read c))) VIO_READ
              && (Z.land (f_shutdown c) NET_VC_SHUTDOWN_READ =? 0)
           then
             e <- read_signal_and_update signal_event ;;
             ret (_cont (vio (read c)), e =? EVENT_DONE)
           else ret (None, false)) ;;
    let '(reader_cont, done) := rs in
    if done : bool then ret EVENT_DONE
    else
      c1 <- gets vc ;;
      if write_side_due d reader_cont writer_cont c1
      then write_signal_and_update signal_event ;; ret EVENT_DONE
      else ret EVENT_DONE.

Definition is_none {A} (o : option A) : bool :=
  match o with None => true | Some _ => false end.

Definition mutex_swapped (lock cur : option ProxyMutexRef) : bool :=
  negb (is_none cur) && negb (opt_nat_eqb lock cur).

Definition mainEvent (event : Z) (e : Event) : Net Z :=
  c0 <- gets vc ;;
  match thread c0 with
  | None => abort
  | Some th =>
      hm <- gets (fun s => nh_mutex (handlers s (get_NetHandler th))) ;;
      MUTEX_TRY_LOCK (Some hm) (ethread e) (fun hlock =>
        let or_thread (m : option ProxyMutexRef) :=
          match m with Some x => x | None => ethread_mutex (ethread e) end in
        MUTEX_TRY_LOCK (Some (or_thread (vio_mutex (vio (read c0))))) (ethread e)
          (fun rlock =>
        MUTEX_TRY_LOCK (Some (or_thread (vio_mutex (vio (write c0))))) (ethread e)
          (fun wlock =>
        c <- gets vc ;;
        if is_none hlock || is_none rlock || is_none wlock
           || mutex_swapped rlock (vio_mutex (vio (read c)))
           || mutex_swapped wlock (vio_mutex (vio (write c)))
        then emit ScheduleRetry ;; ret EVENT_CONT
        else if cancelled e then ret EVENT_DONE
        else if event =? EVENT_IMMEDIATE then
          now <- gets hrtime ;;
          if (inactivity_timeout_in c =? 0) || (now <? next_inactivity_timeout_at c)
          then ret EVENT_CONT
          else mainEvent_signal VC_EVENT_INACTIVITY_TIMEOUT Inactivity
        else mainEvent_signal VC_EVENT_ACTIVE_TIMEOUT Activity)))
  end.

(** ** Specification vocabulary *)

(** Partial-correctness triples over [Net]: a computation started in a
    world of [P] that yields a result yields one of [Q]. *)
Definition hoare {A} (P : World -> Prop) (m : Net A) (Q : A -> World -> Prop) : Prop :=
  forall w, P w ->
    match m w with
    | Some (a, w') => Q a w'
    | None => True
    end.

Definition keeps {A} (I : World -> Prop) (m : Net A) : Prop :=
  hoare I m (fun _ => I).

(** "ndone <= nbytes, or nbytes = 0". *)
Definition vio_inv (v : VIO) : Prop := ndone v <= nbytes v \/ nbytes v = 0.

Definition vio_invariant (s : State) : Prop :=
  vio_inv (vio (read (vc s))) /\ vio_inv (vio (write (vc s))).

(** The connection is on the read (write) ready list of handler [h]. *)
Definition on_ready_list (v : VIORef) (h : NetHandlerRef) (w : World) : bool :=
  match v with
  | ReadVIO => queue_in (addr (vc (st w))) (read_ready_list (handlers (st w) h))
  | WriteVIO => queue_in (addr (vc (st w))) (write_ready_list (handlers (st w) h))
  end.

(** The world in which a signal found no continuation: [closed] is set
    and the notice is written. *)
Definition null_cont_closed (event : Z) (v : VIORef) (w : World) : World :=
  mkWorld (upd_vc (with_closed 1) (st w)) (log w ++ [NullContClose event v]).

(** What [close_UnixNetVConnection] leaves in the log: the polling
    descriptor is stopped, the socket closed, the object freed; a pending
    out-of-band retry is cancelled first. *)
Definition close_actions (c : UnixNetVConnection) : list Action :=
  match oob_ptr c with
  | Some o => if trigger o then [OOBCancel] else []
  | None => []
  end ++ [EpStop; ConClose (con_fd c); AllocFree (from_accept_thread c)].

(** The thread [t] holds the mutex of handler [h]. *)
Definition holds_nh_mutex (s : State) (h : NetHandlerRef) (t : EThread) : Prop :=
  thread_holding (mutexes s (nh_mutex (handlers s h))) = Some t.

(** The condition under which [do_io_close] closes inline. *)
Definition close_inline_condition (s : State) : Prop :=
  recursion (vc s) = 0
  /\ (nh (vc s) = None
      \/ exists h, nh (vc s) = Some h /\ holds_nh_mutex s h (this_ethread s)).

(** The state [do_io_close] records before it decides. *)
Definition do_io_close_recorded (alerrno : Z) (s : State) : State :=
  upd_vc (fun c =>
    with_closed (if alerrno =? -1 then 1 else -1)
      (with_lerrno (if nonzero alerrno && negb (alerrno =? -1) then alerrno else lerrno c)
         (do_io_close_reset c))) s.

(** The polling interest of a direction. *)
Definition interest (v : VIORef) : Z :=
  match v with ReadVIO => EVENTIO_READ | WriteVIO => EVENTIO_WRITE end.

(** The caller of [reenable]: the thread [t] that holds the VIO's mutex, on
    a connection that has an owning thread and a NetHandler [h] whose mutex
    [t] holds or can acquire (it is free). *)
Definition reenable_caller (v : VIORef) (h : NetHandlerRef) (t : EThread)
    (s : State) : Prop :=
  thread (vc s) <> None
  /\ nh (vc s) = Some h
  /\ (exists vm, vio_mutex (vio (STATE_FROM_VIO v (vc s))) = Some vm
                 /\ thread_holding (mutexes s vm) = Some t)
  /\ (holds_nh_mutex s h t
      \/ thread_holding (mutexes s (nh_mutex (handlers s h))) = None).

(** What [reenable] is to establish: the direction enabled, the interest
    installed with [ep.modify] and [ep.refresh], the connection on the
    ready list exactly when [triggered] is set. *)
Definition reenabled (v : VIORef) (h : NetHandlerRef) (w w' : World) : Prop :=
  enabled (STATE_FROM_VIO v (vc (st w'))) = 1
  /\ log w' = log w ++ [EpModify (interest v); EpRefresh (interest v)]
  /\ (on_ready_list v h w' = true
      <-> triggered (STATE_FROM_VIO v (vc (st w'))) <> 0).

(** The claim that every call by such a caller re-enables. *)
Definition reenable_always (v : VIORef) (h : NetHandlerRef) (t : EThread)
    (w : World) : Prop :=
  reenable_caller v h t (st w) ->
  exists w', reenable v w = Some (tt, w') /\ reenabled v h w w'.

(** A try-lock of mutex [m] by thread [t] succeeds. *)
Definition can_lock (s : State) (m : ProxyMutexRef) (t : EThread) : Prop :=
  thread_holding (mutexes s m) = None \/ thread_holding (mutexes s m) = Some t.

(** Two worlds that differ in the state of the locks only. *)
Definition same_but_locks (w w1 : World) : Prop :=
  vc (st w1) = vc (st w)
  /\ handlers (st w1) = handlers (st w)
  /\ kernel (st w1) = kernel (st w)
  /\ hrtime (st w1) = hrtime (st w)
  /\ this_ethread (st w1) = this_ethread (st w)
  /\ log w1 = log w.

(** A read pass that gets as far as the socket: the lock is free for the
    thread, the connection is open, the read side enabled with a READ
    operation that has [ntodo > 0] bytes to go into buffer [m]. *)
Definition read_pass_ready (thread : EThread) (vm : ProxyMutexRef) (m : MIOBuffer)
    (s : State) : Prop :=
  vio_mutex (vio (read (vc s))) = Some vm
  /\ can_lock s vm thread
  /\ closed (vc s) = 0
  /\ enabled (read (vc s)) <> 0
  /\ op (vio (read (vc s))) = VIO_READ
  /\ 0 < ntodo (vio (read (vc s)))
  /\ writer (buffer (vio (read (vc s)))) = Some m.

(** [toread] of a pass. *)
Definition toread_of (s : State) (m : MIOBuffer) : Z :=
  Z.min (ntodo (vio (read (vc s)))) (write_avail m).

Definition is_socket_call (a : Action) : Prop :=
  match a with
  | SockRead _ _ | SockReadv _ _ | SockWrite _ _ | SockWritev _ _ => True
  | _ => False
  end.

(** [w'] is reached from [w] by socket calls alone: kernel replies are
    consumed and the calls logged, nothing else changes. *)
Definition socket_calls_only (w w' : World) : Prop :=
  vc (st w') = vc (st w)
  /\ handlers (st w') = handlers (st w)
  /\ mutexes (st w') = mutexes (st w)
  /\ hrtime (st w') = hrtime (st w)
  /\ this_ethread (st w') = this_ethread (st w)
  /\ exists l, log w' = log w ++ l /\ Forall is_socket_call l.

(** The values [r], [rattempted] and [total_read] a read loop started with
    [total_read = T] ends with: the last round started at some [T'], after
    rounds that each moved what they attempted; the last call asked for
    [rattempted] bytes, within the [toread - T'] still wanted, and was
    answered with [r], not more than asked. *)
Definition read_loop_post (toread T r rattempted total_read : Z) : Prop :=
  exists T',
    total_read = T' + rattempted
    /\ (T' = T \/ (T < T' /\ T' < toread))
    /\ r <= Z.max 0 rattempted
    /\ (rattempted = 0 \/ rattempted <= toread - T')
    /\ (T' < toread -> 0 <= rattempted <= toread - T').

(** The same for a write loop: every round writes within what is left. *)
Definition write_loop_post (towrite T r wattempted total_written : Z) : Prop :=
  T <= total_written - wattempted
  /\ 0 <= wattempted
  /\ total_written <= towrite
  /\ r <= wattempted.

(** The log entry of a signal: the call of the continuation's handler, or
    the notice of the self-close when there is no continuation. *)
Definition signal_entry (c : option Continuation) (event : Z) (v : VIORef) : Action :=
  match c with
  | Some k => HandleEvent k event v
  | None => NullContClose event v
  end.

(** Log entries other than signals. *)
Definition quiet_action (a : Action) : Prop :=
  match a with
  | HandleEvent _ _ _ | NullContClose _ _ => False
  | _ => True
  end.

(** A signal of the write side in the log. *)
Definition is_write_signal (a : Action) : Prop :=
  match a with
  | HandleEvent _ _ WriteVIO | NullContClose _ WriteVIO => True
  | _ => False
  end.

(** The handler of continuation [k] was called. *)
Definition delivered_to (k : Continuation) (a : Action) : bool :=
  match a with
  | HandleEvent k' _ _ => Nat.eqb k k'
  | _ => false
  end.

Definition deliveries (k : Continuation) (l : list Action) : nat :=
  length (filter (delivered_to k) l).

(** The invariant of C3 as a predicate on worlds. *)
Definition inv (w : World) : Prop := vio_invariant (st w).

(** Whenever [m] yields a result, it has added to the log a list of
    actions that satisfies [P]. *)
Definition logs {A} (P : list Action -> Prop) (m : Net A) : Prop :=
  forall w a w', m w = Some (a, w') -> exists l, log w' = log w ++ l /\ P l.

(** [close_inline] of [do_io_close], computed on the state. *)
Definition close_inline_b (s : State) : bool :=
  (recursion (vc s) =? 0)
  && match nh (vc s) with
     | None => true
     | Some h =>
         opt_nat_eqb (thread_holding (mutexes s (nh_mutex (handlers s h))))
                     (Some (this_ethread s))
     end.

(** What a signal function does when the direction has no continuation,
    stated once for both directions. *)
Definition null_cont_outcome (v : VIORef) (deliver : Z -> Net unit)
    (signal : Z -> Net Z) (event : Z) (w : World) : Prop :=
  (exists w1,
      deliver event w = Some (tt, w1)
      /\ closed (vc (st w1)) = 1
      /\ recursion (vc (st w1)) = recursion (vc (st w)) + 1
      /\ log w1 = log w ++ [NullContClose event v])
  /\ (recursion (vc (st w)) <> 0 ->
      exists w',
        signal event w = Some (EVENT_CONT, w')
        /\ closed (vc (st w')) = 1
        /\ recursion (vc (st w')) = recursion (vc (st w))
        /\ log w' = log w ++ [NullContClose event v])
  /\ (recursion (vc (st w)) = 0 ->
      signal event w
        = (close_UnixNetVConnection (thread (vc (st w))) ;; ret EVENT_DONE)
            (null_cont_closed event v w))
  /\ (recursion (vc (st w)) = 0 ->
      thread (vc (st w)) = Some (this_ethread (st w)) ->
      exists w',
        signal event w = Some (EVENT_DONE, w')
        /\ log w' = log w ++ [NullContClose event v] ++ close_actions (vc (st w))
        /\ nh (vc (st w')) = None
        /\ con_fd (vc (st w')) = NO_FD).

(** A signal function logs its signal, then at most the actions of a
    close; it answers [EVENT_CONT] only when it did not close. *)
Definition signal_logged (v : VIORef) (c : option Continuation) (event : Z)
    (w : World) (res : option (Z * World)) : Prop :=
  match res with
  | Some (e, w') =>
      exists tail,
        log w' = log w ++ signal_entry c event v :: tail
        /\ Forall quiet_action tail
        /\ (e = EVENT_DONE \/ (e = EVENT_CONT /\ tail = []))
  | None => True
  end.

(** ** Vocabulary for the further properties *)

(** The number of bytes a socket call asks for. *)
Definition attempted (a : Action) : Z :=
  match a with
  | SockRead _ len | SockWrite _ len => len
  | SockReadv _ iov | SockWritev _ iov => iov_total iov
  | _ => 0
  end.

(** The bytes the kernel hands over (or takes) in the calls [calls], made
    in this order against the pending replies [ks]: what each call returns
    when it is not an error.  Calls made after the replies ran out move
    nothing. *)
Fixpoint moved (calls : list Action) (ks : list KReply) : Z :=
  match calls, ks with
  | a :: calls', k :: ks' => Z.max 0 (reply_value (attempted a) k) + moved calls' ks'
  | _, _ => 0
  end.

Definition positive_len (v : IOVec) : Prop := 0 < iov_len v.


(** The connection [me] is on none of the lists and queues of handler [h]
    that [close_UnixNetVConnection] always clears. *)
Definition on_no_list (me : nat) (h : NetHandler) : Prop :=
  queue_in me (open_list h) = false
  /\ queue_in me (cop_list h) = false
  /\ queue_in me (read_ready_list h) = false
  /\ queue_in me (write_ready_list h) = false
  /\ queue_in me (keep_alive_queue h) = false
  /\ queue_in me (active_queue h) = false.

(** The fields of a connection object after [close_UnixNetVConnection]. *)
Definition released (c : UnixNetVConnection) : Prop :=
  con_fd c = NO_FD /\ nh c = None /\ oob_ptr c = None
  /\ closed c = 0 /\ flags c = 0
  /\ mutex c = None /\ action_mutex c = None
  /\ next_inactivity_timeout_at c = 0 /\ next_activity_timeout_at c = 0
  /\ inactivity_timeout_in c = 0 /\ active_timeout_in c = 0
  /\ enabled (read c) = 0 /\ enabled (write c) = 0
  /\ triggered (read c) = 0 /\ triggered (write c) = 0
  /\ in_enabled_list (read c) = 0 /\ in_enabled_list (write c) = 0
  /\ _cont (vio (read c)) = None /\ _cont (vio (write c)) = None
  /\ vio_mutex (vio (read c)) = None /\ vio_mutex (vio (write c)) = None.

(** The enable list of a direction. *)
Definition enable_list (v : VIORef) (h : NetHandler) : list nat :=
  match v with
  | ReadVIO => read_enable_list h
  | WriteVIO => write_enable_list h
  end.

(** The wake-up of the thread that runs a NetHandler: its [signal_hook],
    when the handler has a trigger event and the thread a hook. *)
Definition wake_up (h : NetHandler) : list Action :=
  match trigger_event h with
  | Some ev => if signal_hook ev then [SignalHook (trigger_ethread ev)] else []
  | None => []
  end.

(** A continuation that answers an event by calling [do_io_close] on the
    connection. *)
Definition answers_with_close (alerrno : Z) (s : State) : option State :=
  match do_io_close alerrno (mkWorld s []) with
  | Some (_, w') => Some (st w')
  | None => None
  end.




(** Lines 562-592 of [write_to_net_io]: the signal of a write pass that
    moved bytes, and what follows it.  [wbe_event] is the trap event saved
    before the bytes were consumed. *)
Definition write_signal_ready (nh : NetHandlerRef) (lock : option ProxyMutexRef)
    (signalled : bool) (needs wbe_event : Z) : Net unit :=
  c1 <- gets vc ;;
  if ntodo (vio (write c1)) <=? 0 then
    write_signal_done VC_EVENT_WRITE_COMPLETE nh ;; ret tt
  else if signalled && negb (wbe_event =? write_buffer_empty_event c1) then
    e <- write_signal_and_update wbe_event ;;
    if negb (e =? EVENT_CONT) then ret tt else write_finish nh needs
  else if negb signalled then
    e <- write_signal_and_update VC_EVENT_WRITE_READY ;;
    if negb (e =? EVENT_CONT) then ret tt
    else
      c2 <- gets vc ;;
      if negb (opt_nat_eqb lock (vio_mutex (vio (write c2))))
      then write_reschedule nh
      else write_finish nh needs
  else write_finish nh needs.

(** The signal of such a pass: completion, else the trap event when
    [VC_EVENT_WRITE_READY] went out earlier in the pass and the trap was
    sprung, else [VC_EVENT_WRITE_READY] unless it went out earlier. *)
Definition write_signals (c : option Continuation) (signalled : bool)
    (left wbe_event wbe_now : Z) : list Action :=
  if left <=? 0 then [signal_entry c VC_EVENT_WRITE_COMPLETE WriteVIO]
  else if signalled then
    (if wbe_event =? wbe_now then [] else [signal_entry c wbe_event WriteVIO])
  else [signal_entry c VC_EVENT_WRITE_READY WriteVIO].
(** ** Basic facts *)

Lemma nonzero_true (z : Z) : z <> 0 -> nonzero z = true.
Proof. intro H. unfold nonzero. apply negb_true_iff. now apply Z.eqb_neq. Qed.

Lemma nonzero_false (z : Z) : nonzero z = false -> z = 0.
Proof. unfold nonzero. intro H. apply negb_false_iff in H. now apply Z.eqb_eq. Qed.

Lemma opt_nat_eqb_refl (a : option nat) : opt_nat_eqb a a = true.
Proof. destruct a; unfold opt_nat_eqb; auto using Nat.eqb_refl. Qed.

Lemma opt_nat_eqb_eq (a b : option nat) : opt_nat_eqb a b = true <-> a = b.
Proof.
  destruct a, b; unfold opt_nat_eqb; split; intro H; try congruence; try discriminate.
  - apply Nat.eqb_eq in H. congruence.
  - inversion H. apply Nat.eqb_refl.
Qed.

Lemma queue_in_remove (v : nat) (q : list nat) : queue_in v (remove v q) = false.
Proof.
  unfold queue_in, remove. induction q as [|x q IH]; simpl; auto.
  destruct (Nat.eqb v x) eqn:E; simpl; auto. now rewrite E.
Qed.

Lemma queue_in_in_or_enqueue (v : nat) (q : list nat) :
  queue_in v (in_or_enqueue v q) = true.
Proof.
  unfold in_or_enqueue. destruct (queue_in v q) eqn:E; auto.
  unfold queue_in, enqueue. rewrite existsb_app. simpl.
  rewrite Nat.eqb_refl. now rewrite orb_true_r.
Qed.

(** ** Entry points on a closed connection *)

(** C10.  [do_io_read] and [do_io_write] on a connection whose [closed]
    flag is non-zero return the null pointer and leave the whole state as
    it was: no VIO field is written, nothing is enabled or disabled; only
    the error message is produced. *)
Theorem do_io_on_closed_vc :
  forall (c : option Continuation) (n : Z) (buf : option MIOBuffer)
         (rd : option IOBufferReader) (owner : bool) (w : World),
    closed (vc (st w)) <> 0 ->
    do_io_read c n buf w
      = Some (None, mkWorld (st w) (log w ++ [ErrorClosedVC ReadVIO]))
    /\ do_io_write c n rd owner w
      = Some (None, mkWorld (st w) (log w ++ [ErrorClosedVC WriteVIO])).
Proof.
  intros c n buf rd owner w Hc.
  unfold do_io_read, do_io_write, bind, gets.
  rewrite (nonzero_true _ Hc). split; reflexivity.
Qed.

(** ** Shutdown *)

(** C6.  Shutting down the write half after the read half stores
    [NET_VC_SHUTDOWN_WRITE] alone in [f.shutdown]: the READ bit set by the
    first call is gone, whereas [IO_SHUTDOWN_READWRITE] stores both bits. *)
Theorem shutdown_write_after_read_drops_read_bit :
  forall w : World,
    (exists w',
        (do_io_shutdown IO_SHUTDOWN_READ ;; do_io_shutdown IO_SHUTDOWN_WRITE) w
          = Some (tt, w')
        /\ f_shutdown (vc (st w')) = NET_VC_SHUTDOWN_WRITE
        /\ Z.land (f_shutdown (vc (st w'))) NET_VC_SHUTDOWN_READ = 0)
    /\ (exists w',
        do_io_shutdown IO_SHUTDOWN_READWRITE w = Some (tt, w')
        /\ Z.land (f_shutdown (vc (st w'))) NET_VC_SHUTDOWN_READ = NET_VC_SHUTDOWN_READ
        /\ Z.land (f_shutdown (vc (st w'))) NET_VC_SHUTDOWN_WRITE = NET_VC_SHUTDOWN_WRITE).
Proof.
  intro w. split; eexists; (split; [reflexivity | split; reflexivity]).
Qed.

(** After [do_io_shutdown(IO_SHUTDOWN_READ)] alone the READ bit is set. *)
Lemma shutdown_read_sets_read_bit (w : World) :
  exists w', do_io_shutdown IO_SHUTDOWN_READ w = Some (tt, w')
             /\ Z.land (f_shutdown (vc (st w'))) NET_VC_SHUTDOWN_READ = NET_VC_SHUTDOWN_READ.
Proof. eexists. split; reflexivity. Qed.

(** ** Closing *)

Ltac run :=
  unfold bind, gets, modify, emit, ret, abort; simpl.

(** [close_UnixNetVConnection] either stops the program (a failed release
    assertion on the thread) or performs the close actions. *)
Lemma close_log (t : option EThread) (w : World) :
  match close_UnixNetVConnection t w with
  | Some (_, w') =>
      log w' = log w ++ close_actions (vc (st w))
      /\ thread (vc (st w)) = t /\ t = Some (this_ethread (st w))
      /\ nh (vc (st w')) = None /\ con_fd (vc (st w')) = NO_FD
      /\ closed (vc (st w')) = 0
      /\ vio_invariant (st w) = vio_invariant (st w')
  | None => thread (vc (st w)) <> t \/ t <> Some (this_ethread (st w))
  end.
Proof.
  destruct w as [s l]. destruct s as [c hs ms cm k now me].
  unfold close_UnixNetVConnection, close_actions, cancel_OOB, free. run.
  destruct (opt_nat_eqb (thread c) t) eqn:Et.
  2:{ assert (thread c <> t)
        by (intro H; rewrite H, opt_nat_eqb_refl in Et; discriminate).
      destruct (oob_ptr c) as [o|]; [destruct (trigger o)|]; simpl;
        rewrite ?Et; simpl; auto. }
  destruct (opt_nat_eqb t (Some me)) eqn:Em.
  2:{ assert (t <> Some me)
        by (intro H; rewrite H, opt_nat_eqb_refl in Em; discriminate).
      destruct (oob_ptr c) as [o|]; [destruct (trigger o)|]; simpl;
        rewrite ?Et; simpl;
        destruct (nh c); simpl;
        destruct (nonzero (in_enabled_list (read c)));
        destruct (nonzero (in_enabled_list (write c))); simpl;
        rewrite ?Em; simpl; auto. }
  apply opt_nat_eqb_eq in Et, Em.
  rewrite <- opt_nat_eqb_eq in Et, Em.
  destruct (oob_ptr c) as [o|]; [destruct (trigger o)|]; simpl;
    rewrite ?Et; simpl;
    destruct (nh c); simpl;
    destruct (nonzero (in_enabled_list (read c)));
    destruct (nonzero (in_enabled_list (write c))); simpl;
    rewrite ?Em; simpl;
    rewrite opt_nat_eqb_eq in Et, Em;
    rewrite <- ?app_assoc; simpl; repeat split; auto.
Qed.

(** On its owning thread the close goes through. *)
Lemma close_on_owner (w : World) :
  thread (vc (st w)) = Some (this_ethread (st w)) ->
  exists w',
    close_UnixNetVConnection (thread (vc (st w))) w = Some (tt, w')
    /\ log w' = log w ++ close_actions (vc (st w))
    /\ nh (vc (st w')) = None /\ con_fd (vc (st w')) = NO_FD.
Proof.
  intro Ht.
  pose proof (close_log (thread (vc (st w))) w) as H.
  destruct (close_UnixNetVConnection (thread (vc (st w))) w) as [[[] w']|].
  - exists w'. destruct H as (H1 & _ & _ & H2 & H3 & _). auto.
  - destruct H as [H|H]; [now elim H | now elim H].
Qed.

(** ** Signals without a continuation *)

Lemma closes_without_cont_true (event : Z) :
  event = VC_EVENT_EOS \/ event = VC_EVENT_ERROR
  \/ event = VC_EVENT_ACTIVE_TIMEOUT \/ event = VC_EVENT_INACTIVITY_TIMEOUT ->
  closes_without_cont event = true.
Proof. intros [H|[H|[H|H]]]; subst; reflexivity. Qed.

Lemma signal_update_nested (w : World) :
  recursion (vc (st w)) - 1 <> 0 ->
  signal_update w
    = Some (EVENT_CONT,
            mkWorld (upd_vc (fun c => with_recursion (recursion c - 1) c) (st w)) (log w)).
Proof.
  intro H. unfold signal_update. run.
  apply Z.eqb_neq in H. now rewrite H.
Qed.

Lemma signal_update_outermost (w : World) :
  recursion (vc (st w)) - 1 = 0 ->
  closed (vc (st w)) <> 0 ->
  signal_update w
    = (close_UnixNetVConnection (thread (vc (st w))) ;; ret EVENT_DONE)
        (mkWorld (upd_vc (fun c => with_recursion (recursion c - 1) c) (st w)) (log w)).
Proof.
  intros H Hc. unfold signal_update. run.
  rewrite H. simpl. now rewrite (nonzero_true _ Hc).
Qed.

Lemma leave_null_cont_closed (event : Z) (v : VIORef) (w : World) :
  recursion (vc (st w)) = 0 ->
  mkWorld
    (upd_vc (fun c => with_recursion (recursion c - 1) c)
       (upd_vc (with_closed 1)
          (upd_vc (fun c => with_recursion (recursion c + 1) c) (st w))))
    (log w ++ [NullContClose event v])
  = null_cont_closed event v w.
Proof.
  destruct w as [[c hs ms cm k now me] l]. destruct c. simpl.
  intro H. subst. reflexivity.
Qed.

Lemma read_null_cont (event : Z) (w : World) :
  closes_without_cont event = true ->
  _cont (vio (read (vc (st w)))) = None ->
  null_cont_outcome ReadVIO read_signal_deliver read_signal_and_update event w.
Proof.
  intros He H.
  assert (D : read_signal_deliver event w
              = Some (tt, mkWorld
                  (upd_vc (with_closed 1)
                     (upd_vc (fun c => with_recursion (recursion c + 1) c) (st w)))
                  (log w ++ [NullContClose event ReadVIO]))).
  { unfold read_signal_deliver. run. rewrite H, He. reflexivity. }
  assert (S : read_signal_and_update event w
              = signal_update (mkWorld
                  (upd_vc (with_closed 1)
                     (upd_vc (fun c => with_recursion (recursion c + 1) c) (st w)))
                  (log w ++ [NullContClose event ReadVIO]))).
  { unfold read_signal_and_update, bind. now rewrite D. }
  unfold null_cont_outcome. rewrite S, D.
  repeat split.
  - eexists. split; [reflexivity|]. simpl. auto.
  - intro Hr. rewrite signal_update_nested by (simpl; lia).
    eexists. split; [reflexivity|]. simpl. repeat split; auto. lia.
  - intro Hr. rewrite signal_update_outermost by (simpl; lia || discriminate).
    simpl. rewrite (leave_null_cont_closed event ReadVIO w Hr). reflexivity.
  - intros Hr Ht. rewrite signal_update_outermost by (simpl; lia || discriminate).
    simpl. rewrite (leave_null_cont_closed event ReadVIO w Hr).
    destruct (close_on_owner (null_cont_closed event ReadVIO w)) as (w' & Hc & Hl & Hn & Hf).
    { simpl. exact Ht. }
    simpl in Hc. unfold bind. rewrite Hc. exists w'. simpl in Hl.
    repeat split; auto. rewrite Hl. now rewrite <- app_assoc.
Qed.

Lemma write_null_cont (event : Z) (w : World) :
  closes_without_cont event = true ->
  _cont (vio (write (vc (st w)))) = None ->
  null_cont_outcome WriteVIO write_signal_deliver write_signal_and_update event w.
Proof.
  intros He H.
  assert (D : write_signal_deliver event w
              = Some (tt, mkWorld
                  (upd_vc (with_closed 1)
                     (upd_vc (fun c => with_recursion (recursion c + 1) c) (st w)))
                  (log w ++ [NullContClose event WriteVIO]))).
  { unfold write_signal_deliver. run. rewrite H, He. reflexivity. }
  assert (S : write_signal_and_update event w
              = signal_update (mkWorld
                  (upd_vc (with_closed 1)
                     (upd_vc (fun c => with_recursion (recursion c + 1) c) (st w)))
                  (log w ++ [NullContClose event WriteVIO]))).
  { unfold write_signal_and_update, bind. now rewrite D. }
  unfold null_cont_outcome. rewrite S, D.
  repeat split.
  - eexists. split; [reflexivity|]. simpl. auto.
  - intro Hr. rewrite signal_update_nested by (simpl; lia).
    eexists. split; [reflexivity|]. simpl. repeat split; auto. lia.
  - intro Hr. rewrite signal_update_outermost by (simpl; lia || discriminate).
    simpl. rewrite (leave_null_cont_closed event WriteVIO w Hr). reflexivity.
  - intros Hr Ht. rewrite signal_update_outermost by (simpl; lia || discriminate).
    simpl. rewrite (leave_null_cont_closed event WriteVIO w Hr).
    destruct (close_on_owner (null_cont_closed event WriteVIO w)) as (w' & Hc & Hl & Hn & Hf).
    { simpl. exact Ht. }
    simpl in Hc. unfold bind. rewrite Hc. exists w'. simpl in Hl.
    repeat split; auto. rewrite Hl. now rewrite <- app_assoc.
Qed.

(** C9.  When a direction has no continuation, signalling
    [VC_EVENT_EOS], [VC_EVENT_ERROR], [VC_EVENT_ACTIVE_TIMEOUT] or
    [VC_EVENT_INACTIVITY_TIMEOUT] sets [closed] to 1.  In a nested signal
    ([recursion] not yet back to 0) the flag stays for the outer frame and
    [EVENT_CONT] is returned; when [recursion] returns to 0 the signal
    function goes on to [close_UnixNetVConnection], which on the owning
    thread closes and frees the connection and returns [EVENT_DONE].  This
    holds for [read_signal_and_update] and [write_signal_and_update]. *)
Theorem null_cont_signal_closes :
  forall (event : Z) (w : World),
    event = VC_EVENT_EOS \/ event = VC_EVENT_ERROR
    \/ event = VC_EVENT_ACTIVE_TIMEOUT \/ event = VC_EVENT_INACTIVITY_TIMEOUT ->
    (_cont (vio (read (vc (st w)))) = None ->
     null_cont_outcome ReadVIO read_signal_deliver read_signal_and_update event w)
    /\ (_cont (vio (write (vc (st w)))) = None ->
        null_cont_outcome WriteVIO write_signal_deliver write_signal_and_update event w).
Proof.
  intros event w He. apply closes_without_cont_true in He.
  split; intro H; [now apply read_null_cont | now apply write_null_cont].
Qed.

(** ** [do_io_close] *)

Lemma close_inline_b_spec (s : State) :
  close_inline_b s = true <-> close_inline_condition s.
Proof.
  unfold close_inline_b, close_inline_condition, holds_nh_mutex.
  rewrite andb_true_iff, Z.eqb_eq.
  destruct (nh (vc s)) as [h|].
  - rewrite opt_nat_eqb_eq. split.
    + intros [H1 H2]. split; auto. right. exists h. auto.
    + intros [H1 [H2|(h' & H2 & H3)]]; [discriminate|].
      inversion H2. subst. auto.
  - split; intros [H1 _]; auto.
Qed.

Lemma do_io_close_unfold (alerrno : Z) (w : World) :
  do_io_close alerrno w
  = if close_inline_b (st w)
    then close_UnixNetVConnection (Some (this_ethread (st w)))
           (mkWorld (do_io_close_recorded alerrno (st w)) (log w))
    else Some (tt, mkWorld (do_io_close_recorded alerrno (st w)) (log w)).
Proof.
  destruct w as [[c hs ms cm k now me] l]. destruct c.
  unfold do_io_close, do_io_close_recorded, close_inline_b. run.
  destruct (recursion0 =? 0); simpl;
    destruct nh0; simpl;
    try destruct (opt_nat_eqb _ _); simpl;
    destruct (nonzero alerrno); simpl;
    destruct (alerrno =? -1); simpl; reflexivity.
Qed.

Lemma close_actions_recorded (alerrno : Z) (s : State) :
  close_actions (vc (do_io_close_recorded alerrno s)) = close_actions (vc s).
Proof. reflexivity. Qed.

Lemma close_actions_nonempty (c : UnixNetVConnection) (l : list Action) :
  l <> l ++ close_actions c.
Proof.
  intro H. apply (f_equal (@length Action)) in H.
  unfold close_actions in H. rewrite !length_app in H. simpl in H. lia.
Qed.

(** C4.  [do_io_close] records the close request -- both directions
    switched off, [lerrno] set to a non-zero, non-sentinel error, [closed]
    set to 1 for the sentinel -1 and to -1 otherwise -- and then calls
    [close_UnixNetVConnection] inline if and only if [recursion] is 0 and
    the connection has no NetHandler or the calling thread holds the
    NetHandler's mutex.  Otherwise it returns with the request recorded:
    nothing is logged, the NetHandler is untouched, and the close is left
    to a later pass. *)
Theorem do_io_close_inline_iff :
  forall (alerrno : Z) (w : World),
    let recorded := mkWorld (do_io_close_recorded alerrno (st w)) (log w) in
    (close_inline_condition (st w) ->
       do_io_close alerrno w
       = close_UnixNetVConnection (Some (this_ethread (st w))) recorded)
    /\ (~ close_inline_condition (st w) ->
          do_io_close alerrno w = Some (tt, recorded))
    /\ closed (vc (st recorded)) = (if alerrno =? -1 then 1 else -1)
    /\ lerrno (vc (st recorded))
       = (if (alerrno =? 0) || (alerrno =? -1) then lerrno (vc (st w)) else alerrno)
    /\ handlers (st recorded) = handlers (st w)
    /\ match do_io_close alerrno w with
       | Some (_, w') =>
           close_inline_condition (st w)
           <-> log w' = log w ++ close_actions (vc (st w))
       | None => close_inline_condition (st w)
       end.
Proof.
  intros alerrno w recorded. subst recorded.
  rewrite do_io_close_unfold.
  pose proof (close_inline_b_spec (st w)) as Hb.
  assert (Hclosed : closed (vc (do_io_close_recorded alerrno (st w)))
                    = (if alerrno =? -1 then 1 else -1)) by reflexivity.
  assert (Hlerrno : lerrno (vc (do_io_close_recorded alerrno (st w)))
                    = (if (alerrno =? 0) || (alerrno =? -1)
                       then lerrno (vc (st w)) else alerrno)).
  { simpl. unfold nonzero. destruct (alerrno =? 0), (alerrno =? -1); reflexivity. }
  assert (Hnh : handlers (do_io_close_recorded alerrno (st w)) = handlers (st w))
    by reflexivity.
  destruct (close_inline_b (st w)) eqn:E.
  - assert (Hc : close_inline_condition (st w)) by (now apply Hb).
    split; [reflexivity|]. split; [intro Hn; now elim Hn|].
    split; [exact Hclosed|]. split; [exact Hlerrno|]. split; [exact Hnh|].
    pose proof (close_log (Some (this_ethread (st w)))
                  (mkWorld (do_io_close_recorded alerrno (st w)) (log w))) as Hl.
    destruct (close_UnixNetVConnection _ _) as [[[] w']|]; auto.
    destruct Hl as (Hl & _). simpl in Hl. split; auto.
  - assert (Hc : ~ close_inline_condition (st w)).
    { intro H. apply Hb in H. discriminate. }
    split; [intro H; now elim Hc|]. split; [reflexivity|].
    split; [exact Hclosed|]. split; [exact Hlerrno|]. split; [exact Hnh|].
    simpl. split; intro H; [now elim Hc|].
    now apply close_actions_nonempty in H.
Qed.

(** ** Re-enable *)

Lemma nonzero_iff (z : Z) : nonzero z = true <-> z <> 0.
Proof.
  unfold nonzero. rewrite negb_true_iff. apply Z.eqb_neq.
Qed.

Lemma upd_nh_same (h : NetHandlerRef) (f : NetHandler -> NetHandler) (s : State) :
  handlers (upd_nh h f s) h = f (handlers s h).
Proof. unfold upd_nh. simpl. now rewrite Nat.eqb_refl. Qed.

Lemma reenable_install_spec (v : VIORef) (h : NetHandlerRef) (w : World) :
  exists w',
    reenable_install v h w = Some (tt, w')
    /\ log w' = log w ++ [EpModify (interest v); EpRefresh (interest v)]
    /\ vc (st w') = vc (st w)
    /\ mutexes (st w') = mutexes (st w)
    /\ (on_ready_list v h w' = true
        <-> triggered (STATE_FROM_VIO v (vc (st w))) <> 0).
Proof.
  destruct w as [s l].
  destruct v; unfold reenable_install, ready_list_update; run.
  - destruct (nonzero (triggered (read (vc s)))) eqn:E; simpl;
      eexists; (split; [reflexivity|]); simpl;
      rewrite <- app_assoc; simpl; (split; [reflexivity|]);
      (split; [reflexivity|]); (split; [reflexivity|]);
      unfold on_ready_list; simpl; rewrite Nat.eqb_refl; simpl.
    + rewrite queue_in_in_or_enqueue. apply nonzero_iff in E. split; auto.
    + rewrite queue_in_remove. apply nonzero_false in E.
      split; [discriminate | intro H; now elim H].
  - destruct (nonzero (triggered (write (vc s)))) eqn:E; simpl;
      eexists; (split; [reflexivity|]); simpl;
      rewrite <- app_assoc; simpl; (split; [reflexivity|]);
      (split; [reflexivity|]); (split; [reflexivity|]);
      unfold on_ready_list; simpl; rewrite Nat.eqb_refl; simpl.
    + rewrite queue_in_in_or_enqueue. apply nonzero_iff in E. split; auto.
    + rewrite queue_in_remove. apply nonzero_false in E.
      split; [discriminate | intro H; now elim H].
Qed.

(** [set_enabled] sets the flag and touches only the connection. *)
Lemma set_enabled_spec (v : VIORef) (w : World) :
  exists w',
    set_enabled v w = Some (tt, w')
    /\ log w' = log w
    /\ enabled (STATE_FROM_VIO v (vc (st w'))) = 1
    /\ triggered (STATE_FROM_VIO v (vc (st w'))) = triggered (STATE_FROM_VIO v (vc (st w)))
    /\ vio (STATE_FROM_VIO v (vc (st w'))) = vio (STATE_FROM_VIO v (vc (st w)))
    /\ thread (vc (st w')) = thread (vc (st w))
    /\ nh (vc (st w')) = nh (vc (st w))
    /\ addr (vc (st w')) = addr (vc (st w))
    /\ handlers (st w') = handlers (st w)
    /\ mutexes (st w') = mutexes (st w).
Proof.
  destruct w as [s l]. unfold set_enabled. run.
  destruct v; simpl;
    match goal with |- context [if ?b then _ else _] => destruct b end;
    simpl; eexists; (split; [reflexivity|]); simpl; repeat split; reflexivity.
Qed.

Lemma bind_some {A B} (m : Net A) (k : A -> Net B) (w w' : World) (a : A) :
  m w = Some (a, w') -> bind m k w = k a w'.
Proof. intro H. unfold bind. now rewrite H. Qed.

Lemma opt_nat_eqb_neq (a b : option nat) : a <> b -> opt_nat_eqb a b = false.
Proof.
  intro H. destruct (opt_nat_eqb a b) eqn:E; auto.
  apply opt_nat_eqb_eq in E. contradiction.
Qed.

(** C5 (as the code has it).  A call of [reenable] by the thread that
    holds the VIO's mutex, on a direction whose [enabled] flag is 0, sets
    the flag to 1, installs the polling interest with [ep.modify] and
    [ep.refresh], and leaves the connection on the ready list exactly when
    [triggered] is set -- provided the caller holds or can acquire the
    NetHandler's mutex.  On a direction that is already enabled the call
    returns at once and changes nothing. *)
Theorem reenable_when_disabled :
  forall (v : VIORef) (h : NetHandlerRef) (t : EThread) (w : World),
    reenable_caller v h t (st w) ->
    (enabled (STATE_FROM_VIO v (vc (st w))) = 0 ->
       exists w', reenable v w = Some (tt, w') /\ reenabled v h w w')
    /\ (enabled (STATE_FROM_VIO v (vc (st w))) <> 0 ->
          reenable v w = Some (tt, w)).
Proof.
  intros v h t w (Hth & Hnh & (vm & Hvm & Hheld) & Hown).
  split.
  2:{ intro He. unfold reenable, bind, gets. now rewrite (nonzero_true _ He). }
  intro He.
  destruct (set_enabled_spec v w)
    as (w1 & Hs & Hl1 & Hen & Htr & Hvio & Ht1 & Hn1 & Ha1 & Hh1 & Hm1).
  unfold reenable. unfold bind at 1. unfold gets at 1.
  rewrite He. simpl.
  rewrite (bind_some _ _ _ _ _ Hs).
  unfold bind at 1. unfold gets at 1.
  rewrite Ht1. destruct (thread (vc (st w))) as [th|]; [|now elim Hth].
  rewrite Hvio, Hvm.
  unfold bind at 1. unfold gets at 1. rewrite Hm1, Hheld.
  rewrite Hn1, Hnh.
  unfold bind at 1. unfold gets at 1.
  unfold bind at 1. unfold gets at 1.
  rewrite Hh1, Hm1.
  destruct Hown as [Hown|Hfree].
  - unfold holds_nh_mutex in Hown. rewrite Hown, opt_nat_eqb_refl.
    destruct (reenable_install_spec v h w1) as (w2 & Hi & Hl2 & Hvc2 & Hm2 & Hr).
    exists w2. split; [exact Hi|].
    unfold reenabled. rewrite ?Hvc2, ?Htr in Hr. rewrite ?Hvc2, ?Hen, ?Hl2, ?Hl1, ?Htr.
    repeat split; auto; apply Hr.
  - rewrite Hfree. rewrite opt_nat_eqb_neq by discriminate.
    unfold MUTEX_TRY_LOCK, Mutex_trylock.
    unfold bind at 1. unfold bind at 1. unfold gets at 1.
    rewrite Hm1, Hfree.
    unfold bind at 1. unfold modify at 1. unfold ret at 1.
    destruct (reenable_install_spec v h
                (mkWorld (upd_mutex (nh_mutex (handlers (st w) h))
                            (fun _ => mkProxyMutex (Some t) 1) (st w1)) (log w1)))
      as (w2 & Hi & Hl2 & Hvc2 & Hm2 & Hr).
    rewrite (bind_some _ _ _ _ _ Hi).
    unfold Mutex_unlock. run.
    eexists. split; [reflexivity|].
    unfold reenabled. simpl in Hvc2, Hl2, Hr |- *.
    unfold on_ready_list in Hr |- *. simpl in Hr |- *.
    rewrite ?Hvc2, ?Htr in Hr. rewrite ?Hvc2, ?Hen, ?Hl2, ?Hl1, ?Htr.
    repeat split; auto; apply Hr.
Qed.

(** ** The read pass *)


Lemma same_but_locks_trans (w w1 w2 : World) :
  same_but_locks w w1 -> same_but_locks w1 w2 -> same_but_locks w w2.
Proof.
  unfold same_but_locks. intros (a & b & c & d & e & f) (a' & b' & c' & d' & e' & f').
  repeat split; congruence.
Qed.

Lemma trylock_ok (m : ProxyMutexRef) (t : EThread) (w : World) :
  can_lock (st w) m t ->
  exists w1, Mutex_trylock m t w = Some (true, w1) /\ same_but_locks w w1.
Proof.
  destruct w as [s l]. unfold can_lock, Mutex_trylock. run.
  intros [H|H]; rewrite H; simpl.
  - eexists. split; [reflexivity|]. unfold same_but_locks. simpl. auto 10.
  - rewrite Nat.eqb_refl. simpl.
    eexists. split; [reflexivity|]. unfold same_but_locks. simpl. auto 10.
Qed.

Lemma unlock_ok (m : ProxyMutexRef) (w : World) :
  exists w1, Mutex_unlock m w = Some (tt, w1) /\ same_but_locks w w1.
Proof.
  destruct w as [s l]. unfold Mutex_unlock. run.
  eexists. split; [reflexivity|]. unfold same_but_locks. simpl. auto 10.
Qed.

(** With the lock available, a scoped try-lock runs its body in a world
    that differs in the locks only, then releases. *)
Lemma MUTEX_TRY_LOCK_ok {A} (m : ProxyMutexRef) (t : EThread)
    (body : option ProxyMutexRef -> Net A) (w : World) :
  can_lock (st w) m t ->
  exists w1,
    same_but_locks w w1
    /\ MUTEX_TRY_LOCK (Some m) t body w
       = (a <- body (Some m) ;; Mutex_unlock m ;; ret a) w1.
Proof.
  intro H. destruct (trylock_ok m t w H) as (w1 & Hl & Hs).
  exists w1. split; auto.
  unfold MUTEX_TRY_LOCK. now rewrite (bind_some _ _ _ _ _ Hl).
Qed.

Lemma read_disable_spec (nh : NetHandlerRef) (w : World) :
  exists w',
    read_disable nh w = Some (tt, w')
    /\ log w' = log w ++ [EpModify (- EVENTIO_READ)]
    /\ kernel (st w') = kernel (st w)
    /\ enabled (read (vc (st w'))) = 0
    /\ on_ready_list ReadVIO nh w' = false
    /\ vio (read (vc (st w'))) = vio (read (vc (st w)))
    /\ write (vc (st w')) = write (vc (st w)).
Proof.
  destruct w as [s l]. unfold read_disable, ready_list_update. run.
  eexists. split; [reflexivity|]. simpl.
  unfold on_ready_list. simpl. rewrite Nat.eqb_refl. simpl.
  rewrite queue_in_remove. auto 10.
Qed.

(** C8.  A read pass whose VIO has work to do ([ntodo > 0]) while the
    writer has no room ([write_avail = 0], so [toread = 0]) makes no
    socket call -- the only action of the pass is the [ep.modify] of
    [read_disable], and no kernel reply is consumed -- and disables the
    read direction: [read.enabled] is cleared and the connection is not on
    the read ready list. *)
Theorem empty_read_disables :
  forall (nh : NetHandlerRef) (thread : EThread) (vm : ProxyMutexRef)
         (m : MIOBuffer) (w : World),
    read_pass_ready thread vm m (st w) ->
    write_avail m = 0 ->
    exists w',
      read_from_net nh thread w = Some (tt, w')
      /\ log w' = log w ++ [EpModify (- EVENTIO_READ)]
      /\ kernel (st w') = kernel (st w)
      /\ enabled (read (vc (st w'))) = 0
      /\ on_ready_list ReadVIO nh w' = false.
Proof.
  intros nh thread vm m w (Hm & Hlock & Hc & He & Hop & Hn & Hw) Ha.
  unfold read_from_net. unfold bind at 1. unfold gets at 1. rewrite Hm.
  match goal with
  | |- context [MUTEX_TRY_LOCK (Some vm) thread ?b w] =>
      destruct (MUTEX_TRY_LOCK_ok vm thread b w Hlock)
        as (w1 & (Hvc & Hh & Hk & _ & _ & Hl) & Heq)
  end.
  rewrite Heq. clear Heq.
  unfold bind at 1. unfold bind at 1. unfold gets at 1.
  rewrite Hvc, Hc. simpl.
  apply Z.eqb_neq in He. rewrite He, Hop. simpl.
  apply Z.leb_gt in Hn. rewrite Hn, Hw, Ha.
  assert (Ht : (if ntodo (vio (read (vc (st w)))) <? 0
                then ntodo (vio (read (vc (st w)))) else 0) = 0).
  { apply Z.leb_gt in Hn. destruct (Z.ltb_spec (ntodo (vio (read (vc (st w))))) 0); lia. }
  rewrite Ht. simpl.
  unfold read_signal_ready. simpl. unfold read_finish.
  unfold bind at 1. unfold gets at 1. rewrite Hvc, Hn, He, Hw, Ha. simpl.
  match goal with
  | |- context [(Mutex_unlock vm ;; ret tt) ?w2] =>
      destruct (unlock_ok vm w2) as (w3 & Hu & (Hvc3 & Hh3 & Hk3 & _ & _ & Hl3))
  end.
  rewrite (bind_some _ _ _ _ _ Hu). unfold ret.
  exists w3. split; [reflexivity|].
  unfold on_ready_list. rewrite Hvc3, Hh3, Hl3, Hk3. simpl.
  rewrite Nat.eqb_refl. simpl. rewrite queue_in_remove, Hl, Hk. auto.
Qed.

(** ** The socket loops *)

Lemma iov_total_app (l : list IOVec) (v : IOVec) :
  iov_total (l ++ [v]) = iov_total l + iov_len v.
Proof. induction l as [|x l IH]; simpl; lia. Qed.

Lemma fill_tiovec_spec (toread T : Z) (b : list IOBufferBlock) :
  forall (niov : nat) (iov : list IOVec) (ra : Z),
    match fill_tiovec toread T b niov iov ra with
    | (b', iov', ra') =>
        iov_total iov' = iov_total iov + (ra' - ra)
        /\ (ra' = toread - T
            \/ (ra <= ra' /\ (ra' = ra \/ ra' < toread - T)))
    end.
Proof.
  induction b as [|blk next IH]; intros niov iov ra; simpl.
  - split; lia.
  - destruct (niov <? NET_MAX_IOV)%nat; [|split; lia].
    destruct (Z.ltb_spec 0 (block_write_avail blk)) as [Ha|Ha].
    2:{ apply IH. }
    set (togo := toread - T - ra).
    destruct (Z.ltb_spec togo (block_write_avail blk)) as [Hlt|Hge].
    + rewrite Z.leb_refl. rewrite iov_total_app. simpl. split; lia.
    + destruct (Z.leb_spec togo (block_write_avail blk)) as [Hle|Hgt].
      * rewrite iov_total_app. simpl. split; lia.
      * specialize (IH (S niov)
                       (iov ++ [mkIOVec (_end blk) (block_write_avail blk)])
                       (ra + block_write_avail blk)).
        destruct (fill_tiovec toread T next (S niov) _ _) as [[b' iov'] ra'].
        rewrite iov_total_app in IH. simpl in IH.
        destruct IH as (H1 & H2). split; lia.
Qed.

Lemma reply_value_le (n : Z) (k : KReply) : reply_value n k <= Z.max 0 n.
Proof. destruct k; simpl; lia. Qed.

Lemma socket_reply_spec (n : Z) (w : World) :
  exists r w',
    socket_reply n w = Some (r, w')
    /\ r <= Z.max 0 n
    /\ (0 <= r -> S (length (kernel (st w'))) = length (kernel (st w)))
    /\ (length (kernel (st w')) <= length (kernel (st w)))%nat
    /\ vc (st w') = vc (st w)
    /\ handlers (st w') = handlers (st w)
    /\ mutexes (st w') = mutexes (st w)
    /\ hrtime (st w') = hrtime (st w)
    /\ this_ethread (st w') = this_ethread (st w)
    /\ log w' = log w.
Proof.
  destruct w as [s l]. unfold socket_reply. simpl.
  destruct (kernel s) as [|k rest] eqn:E.
  - do 2 eexists. split; [reflexivity|]. simpl. rewrite E.
    unfold EAGAIN. repeat split; auto; lia.
  - do 2 eexists. split; [reflexivity|]. simpl.
    repeat split; auto using reply_value_le.
Qed.

(** One call of the read side. *)
Lemma read_or_readv_spec (fd : Z) (iov : list IOVec) (w : World) :
  exists r w' a,
    read_or_readv fd iov w = Some (r, w')
    /\ r <= Z.max 0 (iov_total iov)
    /\ (0 <= r -> S (length (kernel (st w'))) = length (kernel (st w)))
    /\ (length (kernel (st w')) <= length (kernel (st w)))%nat
    /\ vc (st w') = vc (st w)
    /\ handlers (st w') = handlers (st w)
    /\ mutexes (st w') = mutexes (st w)
    /\ hrtime (st w') = hrtime (st w)
    /\ this_ethread (st w') = this_ethread (st w)
    /\ log w' = log w ++ [a] /\ is_socket_call a.
Proof.
  unfold read_or_readv, socketManager_read, socketManager_readv.
  destruct iov as [|v [|v' rest]];
    unfold bind, emit;
    match goal with
    | |- context [socket_reply ?n ?w0] =>
        destruct (socket_reply_spec n w0)
          as (r & w' & Hs & Hr & Hk & Hk' & Hvc & Hh & Hm & Ht & He & Hl)
    end;
    rewrite Hs; exists r, w'; eexists; (split; [reflexivity|]);
    simpl in Hr, Hk, Hk', Hvc, Hh, Hm, Ht, He, Hl |- *;
    (split; [lia|]); (split; [exact Hk|]); (split; [exact Hk'|]);
    (split; [exact Hvc|]); (split; [exact Hh|]); (split; [exact Hm|]);
    (split; [exact Ht|]); (split; [exact He|]); (split; [exact Hl|]);
    exact I.
Qed.

Lemma write_or_writev_spec (fd : Z) (iov : list IOVec) (w : World) :
  exists r w' a,
    write_or_writev fd iov w = Some (r, w')
    /\ r <= Z.max 0 (iov_total iov)
    /\ (0 <= r -> S (length (kernel (st w'))) = length (kernel (st w)))
    /\ (length (kernel (st w')) <= length (kernel (st w)))%nat
    /\ vc (st w') = vc (st w)
    /\ handlers (st w') = handlers (st w)
    /\ mutexes (st w') = mutexes (st w)
    /\ hrtime (st w') = hrtime (st w)
    /\ this_ethread (st w') = this_ethread (st w)
    /\ log w' = log w ++ [a] /\ is_socket_call a.
Proof.
  unfold write_or_writev, socketManager_write, socketManager_writev.
  destruct iov as [|v [|v' rest]];
    unfold bind, emit;
    match goal with
    | |- context [socket_reply ?n ?w0] =>
        destruct (socket_reply_spec n w0)
          as (r & w' & Hs & Hr & Hk & Hk' & Hvc & Hh & Hm & Ht & He & Hl)
    end;
    rewrite Hs; exists r, w'; eexists; (split; [reflexivity|]);
    simpl in Hr, Hk, Hk', Hvc, Hh, Hm, Ht, He, Hl |- *;
    (split; [lia|]); (split; [exact Hk|]); (split; [exact Hk'|]);
    (split; [exact Hvc|]); (split; [exact Hh|]); (split; [exact Hm|]);
    (split; [exact Ht|]); (split; [exact He|]); (split; [exact Hl|]);
    exact I.
Qed.

Lemma socket_calls_only_refl (w : World) : socket_calls_only w w.
Proof.
  unfold socket_calls_only. repeat split; auto.
  exists []. rewrite app_nil_r. auto.
Qed.

Lemma socket_calls_only_step (w w1 w2 : World) (a : Action) :
  vc (st w1) = vc (st w) ->
  handlers (st w1) = handlers (st w) ->
  mutexes (st w1) = mutexes (st w) ->
  hrtime (st w1) = hrtime (st w) ->
  this_ethread (st w1) = this_ethread (st w) ->
  log w1 = log w ++ [a] -> is_socket_call a ->
  socket_calls_only w1 w2 -> socket_calls_only w w2.
Proof.
  intros Hvc Hh Hm Ht He Hl Ha (Hvc2 & Hh2 & Hm2 & Ht2 & He2 & l & Hl2 & Hf).
  unfold socket_calls_only. repeat split; try congruence.
  exists (a :: l). split.
  - rewrite Hl2, Hl, <- app_assoc. reflexivity.
  - constructor; auto.
Qed.

(** The read loop ends, whatever the kernel answers, and its final values
    are related as [read_loop_post] says. *)
Lemma read_loop_spec (fd toread : Z) :
  forall (fuel : nat) (b : list IOBufferBlock) (T : Z) (w : World),
    (length (kernel (st w)) < fuel)%nat ->
    exists r ra tr w',
      read_loop fuel fd toread b T w = Some (Some (r, ra, tr), w')
      /\ read_loop_post toread T r ra tr
      /\ socket_calls_only w w'.
Proof.
  induction fuel as [|fuel IH]; intros b T w Hf; [lia|].
  simpl.
  pose proof (fill_tiovec_spec toread T b 0 [] 0) as Hfill.
  destruct (fill_tiovec toread T b 0 [] 0) as [[b' iov] ra].
  simpl in Hfill. destruct Hfill as (Hiov & Hra).
  destruct (read_or_readv_spec fd iov w)
    as (r & w1 & a & Hs & Hr & Hk & Hk' & Hvc & Hh & Hm & Ht & He & Hl & Ha).
  unfold bind at 1. rewrite Hs.
  replace (iov_total iov) with ra in Hr by lia.
  destruct (nonzero ra && (r =? ra) && (T + ra <? toread)) eqn:Hcont.
  - apply andb_true_iff in Hcont. destruct Hcont as (Hc1 & Hc3).
    apply andb_true_iff in Hc1. destruct Hc1 as (Hc1 & Hc2).
    apply nonzero_iff in Hc1. apply Z.eqb_eq in Hc2. apply Z.ltb_lt in Hc3.
    assert (Hpos : 0 < ra) by lia.
    destruct (IH b' (T + ra) w1) as (r2 & ra2 & tr2 & w2 & Hloop & Hpost & Hsock).
    { assert (0 <= r) by lia. specialize (Hk H). lia. }
    exists r2, ra2, tr2, w2. split; [exact Hloop|]. split.
    + destruct Hpost as (T' & H1 & H2 & H3 & H4 & H5).
      exists T'. split; [exact H1|]. split; [right; lia|]. auto.
    + eapply socket_calls_only_step; eauto.
  - exists r, ra, (T + ra), w1. split; [reflexivity|]. split.
    + exists T. split; [reflexivity|]. split; [now left|]. split; [exact Hr|].
      split; lia.
    + eapply socket_calls_only_step; eauto using socket_calls_only_refl.
Qed.

(** The counts of a read pass stay between 0 and [toread]: the sums of
    the loop do not overflow. *)
Lemma read_loop_range (toread last ra tr : Z) :
  0 < toread ->
  read_loop_post toread 0 last ra tr ->
  0 <= ra /\ 0 <= tr - ra /\ tr <= toread /\ last <= ra
  /\ summarize tr ra last <= toread.
Proof.
  intros Ht (T' & H1 & H2 & H3 & H4 & H5).
  assert (Hlt : T' < toread) by lia. specialize (H5 Hlt).
  unfold summarize. destruct (Z.eqb_spec tr ra); simpl;
    [|destruct (Z.leb_spec last 0)]; lia.
Qed.

Lemma summarize_folded (total attempted r : Z) :
  total <> attempted ->
  summarize total attempted r = total - attempted + Z.max r 0
  /\ (r <= 0 -> summarize total attempted r = total - attempted)
  /\ (0 < r -> summarize total attempted r = total - attempted + r).
Proof.
  intro H. unfold summarize. apply Z.eqb_neq in H. rewrite H. simpl.
  destruct (Z.leb_spec r 0); repeat split; intros; lia.
Qed.

Lemma summarize_first (attempted r : Z) : summarize attempted attempted r = r.
Proof. unfold summarize. now rewrite Z.eqb_refl. Qed.

Lemma read_data_spec (toread : Z) (m : MIOBuffer) (w : World) :
  exists last rattempted total_read w',
    read_loop (S (length (kernel (st w)))) (con_fd (vc (st w))) toread
      (first_write_block m) 0 w
    = Some (Some (last, rattempted, total_read), w')
    /\ read_data toread m w = Some (summarize total_read rattempted last, w')
    /\ read_loop_post toread 0 last rattempted total_read
    /\ socket_calls_only w w'.
Proof.
  destruct (read_loop_spec (con_fd (vc (st w))) toread
              (S (length (kernel (st w)))) (first_write_block m) 0 w)
    as (r & ra & tr & w' & Hl & Hp & Hs); [lia|].
  exists r, ra, tr, w'. split; [exact Hl|]. split; [|now split].
  unfold read_data, loop_fuel, bind, gets, ret. cbv beta match.
  rewrite Hl. reflexivity.
Qed.

(** C1.  The socket calls of a read pass always end, with the last
    return [last], the last [rattempted] and [total_read]; the [r] the pass
    goes on with is their summary.  Whenever [total_read] differs from the
    last [rattempted] -- earlier calls of the pass have moved
    [total_read - rattempted > 0] bytes -- the summary is
    [total_read - rattempted] when the last return was [<= 0] and
    [total_read - rattempted + last] when it was positive, that is
    [total_read - rattempted + max(last, 0)].  When the two are equal (the
    pass made one call) the summary is the return of that call itself. *)
Theorem read_fold_total :
  forall (toread : Z) (m : MIOBuffer) (w : World),
    exists last rattempted total_read w',
      read_loop (S (length (kernel (st w)))) (con_fd (vc (st w))) toread
        (first_write_block m) 0 w
      = Some (Some (last, rattempted, total_read), w')
      /\ exists r,
           read_data toread m w = Some (r, w')
           /\ (total_read <> rattempted ->
               (last <= 0 -> r = total_read - rattempted)
               /\ (0 < last -> r = total_read - rattempted + last)
               /\ r = total_read - rattempted + Z.max last 0
               /\ 0 < total_read - rattempted < toread)
           /\ (total_read = rattempted -> r = last).
Proof.
  intros toread m w.
  destruct (read_data_spec toread m w) as (last & ra & tr & w' & Hl & Hd & Hp & _).
  exists last, ra, tr, w'. split; [exact Hl|].
  exists (summarize tr ra last). split; [exact Hd|]. split.
  - intro Hne. destruct (summarize_folded tr ra last Hne) as (H1 & H2 & H3).
    repeat split; auto.
    + destruct Hp as (T' & Ht & [H0|H0] & _); lia.
    + destruct Hp as (T' & Ht & [H0|H0] & _); lia.
  - intro He. subst. apply summarize_first.
Qed.

(** A pass that moved bytes moved no more than [toread]; a pass that did
    not made a single call, whose return is the result. *)
Lemma read_result_bounds (toread last ra tr : Z) :
  read_loop_post toread 0 last ra tr ->
  (0 < summarize tr ra last -> summarize tr ra last <= toread)
  /\ (summarize tr ra last <= 0 -> summarize tr ra last = last).
Proof.
  intros (T' & Ht & H0 & Hr & Ha & _).
  unfold summarize. destruct (Z.eqb_spec tr ra) as [E|E]; simpl.
  - split; intros; lia.
  - destruct (Z.leb_spec last 0); split; intros; lia.
Qed.

(** ** Classification of a read pass without bytes *)

Lemma min_as_if (a b : Z) : (if a <? b then a else b) = Z.min a b.
Proof. destruct (Z.ltb_spec a b); lia. Qed.

Lemma to_int_small (x : Z) : - 2 ^ 31 <= x < 2 ^ 31 -> to_int x = x.
Proof.
  intro H. unfold to_int.
  rewrite Z.mod_small by lia. lia.
Qed.

(** A pass that reaches the socket is the socket calls, the
    classification of their result, and the release of the lock. *)
Lemma read_pass_unfold (nh : NetHandlerRef) (thread : EThread) (vm : ProxyMutexRef)
    (m : MIOBuffer) (w : World) :
  read_pass_ready thread vm m (st w) ->
  toread_of (st w) m <> 0 ->
  exists w1,
    same_but_locks w w1
    /\ read_from_net nh thread w
       = (a <- (r <- read_data (toread_of (st w) m) m ;;
                if r <=? 0 then read_check_errors nh r
                else read_received nh (Some vm) r) ;;
          Mutex_unlock vm ;; ret a) w1.
Proof.
  intros (Hm & Hlock & Hc & He & Hop & Hn & Hw) Ht.
  unfold read_from_net. unfold bind at 1. unfold gets at 1. rewrite Hm.
  match goal with
  | |- context [MUTEX_TRY_LOCK (Some vm) thread ?b w] =>
      destruct (MUTEX_TRY_LOCK_ok vm thread b w Hlock) as (w1 & Hs & Heq)
  end.
  exists w1. split; [exact Hs|]. rewrite Heq. clear Heq.
  destruct Hs as (Hvc & _).
  unfold bind at 1. unfold bind at 1. unfold gets at 1.
  rewrite Hvc, Hc. simpl.
  apply Z.eqb_neq in He. rewrite He, Hop. simpl.
  apply Z.leb_gt in Hn. rewrite Hn, Hw.
  rewrite min_as_if. fold (toread_of (st w) m).
  rewrite (nonzero_true _ Ht). reflexivity.
Qed.

Lemma read_clear_triggered (nh : NetHandlerRef) (w : World) :
  exists w3,
    (modify (upd_read (with_triggered 0)) ;; ready_list_update nh ReadVIO remove) w
    = Some (tt, w3)
    /\ triggered (read (vc (st w3))) = 0
    /\ on_ready_list ReadVIO nh w3 = false
    /\ log w3 = log w
    /\ vio (read (vc (st w3))) = vio (read (vc (st w)))
    /\ enabled (read (vc (st w3))) = enabled (read (vc (st w)))
    /\ write (vc (st w3)) = write (vc (st w))
    /\ mutexes (st w3) = mutexes (st w)
    /\ kernel (st w3) = kernel (st w).
Proof.
  destruct w as [s l]. unfold ready_list_update. run.
  eexists. split; [reflexivity|]. unfold on_ready_list. simpl.
  rewrite Nat.eqb_refl. simpl. rewrite queue_in_remove. auto 10.
Qed.

Lemma bind_unit_ret {A} (m : Net A) (k : Net unit) (w : World) :
  (a <- (m ;; ret tt) ;; k ;; ret a) w = (m ;; k ;; ret tt) w.
Proof.
  unfold bind, ret. destruct (m w) as [[x w']|]; auto.
Qed.

(** Every signal leaves its entry in the log first. *)
Lemma call_handleEvent_log (k : Continuation) (event : Z) (v : VIORef) (w : World) :
  match call_handleEvent k event v w with
  | Some (_, w') => log w' = log w ++ [HandleEvent k event v]
  | None => True
  end.
Proof.
  unfold call_handleEvent, bind, emit. simpl.
  destruct (handleEvent k event v (st w)); simpl; auto.
Qed.

(** ** What signals leave in the log *)

Lemma close_actions_quiet (c : UnixNetVConnection) : Forall quiet_action (close_actions c).
Proof.
  unfold close_actions.
  destruct (oob_ptr c) as [o|]; [destruct (trigger o)|]; simpl;
    repeat constructor.
Qed.

Lemma signal_update_log (w : World) :
  match signal_update w with
  | Some (e, w') =>
      exists tail,
        log w' = log w ++ tail
        /\ Forall quiet_action tail
        /\ (e = EVENT_DONE \/
            (e = EVENT_CONT /\ tail = []
             /\ st w' = upd_vc (fun c => with_recursion (recursion c - 1) c) (st w)))
  | None => True
  end.
Proof.
  unfold signal_update. unfold bind at 1. unfold modify at 1.
  unfold bind at 1. unfold gets at 1. cbv beta match.
  match goal with |- context [if ?b then _ else _] => destruct b end.
  - unfold bind.
    match goal with
    | |- context [close_UnixNetVConnection ?t ?w0] =>
        pose proof (close_log t w0) as H;
        destruct (close_UnixNetVConnection t w0) as [[[] w']|]; auto
    end.
    destruct H as (Hl & _). simpl in Hl. unfold ret.
    eexists. split; [exact Hl|]. split; [apply close_actions_quiet|]. now left.
  - unfold ret. exists []. rewrite app_nil_r. simpl.
    split; [reflexivity|]. split; [constructor|]. right. auto.
Qed.

Lemma read_signal_deliver_log (event : Z) (w : World) :
  match read_signal_deliver event w with
  | Some (_, w') =>
      log w' = log w ++ [signal_entry (_cont (vio (read (vc (st w))))) event ReadVIO]
  | None => True
  end.
Proof.
  unfold read_signal_deliver. unfold bind at 1. unfold modify at 1.
  unfold bind at 1. unfold gets at 1. cbv beta match. simpl.
  destruct (_cont (vio (read (vc (st w))))) as [k|]; simpl.
  - match goal with
    | |- context [call_handleEvent k event ReadVIO ?w0] =>
        pose proof (call_handleEvent_log k event ReadVIO w0) as H;
        destruct (call_handleEvent k event ReadVIO w0) as [[[] w']|]; auto
    end.
  - destruct (closes_without_cont event); run; auto.
Qed.

Lemma write_signal_deliver_log (event : Z) (w : World) :
  match write_signal_deliver event w with
  | Some (_, w') =>
      log w' = log w ++ [signal_entry (_cont (vio (write (vc (st w))))) event WriteVIO]
  | None => True
  end.
Proof.
  unfold write_signal_deliver. unfold bind at 1. unfold modify at 1.
  unfold bind at 1. unfold gets at 1. cbv beta match. simpl.
  destruct (_cont (vio (write (vc (st w))))) as [k|]; simpl.
  - match goal with
    | |- context [call_handleEvent k event WriteVIO ?w0] =>
        pose proof (call_handleEvent_log k event WriteVIO w0) as H;
        destruct (call_handleEvent k event WriteVIO w0) as [[[] w']|]; auto
    end.
  - destruct (closes_without_cont event); run; auto.
Qed.

Lemma read_signal_and_update_log (event : Z) (w : World) :
  signal_logged ReadVIO (_cont (vio (read (vc (st w))))) event w
    (read_signal_and_update event w).
Proof.
  unfold signal_logged, read_signal_and_update. unfold bind at 1.
  pose proof (read_signal_deliver_log event w) as Hd.
  destruct (read_signal_deliver event w) as [[[] w1]|]; auto.
  pose proof (signal_update_log w1) as Hu.
  destruct (signal_update w1) as [[e w2]|]; auto.
  destruct Hu as (tail & Hl & Hq & He).
  exists tail. rewrite Hl, Hd, <- app_assoc. simpl.
  split; auto. split; auto. destruct He as [He|(He & Ht & _)]; auto.
Qed.

Lemma write_signal_and_update_log (event : Z) (w : World) :
  signal_logged WriteVIO (_cont (vio (write (vc (st w))))) event w
    (write_signal_and_update event w).
Proof.
  unfold signal_logged, write_signal_and_update. unfold bind at 1.
  pose proof (write_signal_deliver_log event w) as Hd.
  destruct (write_signal_deliver event w) as [[[] w1]|]; auto.
  pose proof (signal_update_log w1) as Hu.
  destruct (signal_update w1) as [[e w2]|]; auto.
  destruct Hu as (tail & Hl & Hq & He).
  exists tail. rewrite Hl, Hd, <- app_assoc. simpl.
  split; auto. split; auto. destruct He as [He|(He & Ht & _)]; auto.
Qed.

Lemma read_reschedule_log (nh : NetHandlerRef) (w : World) :
  exists w', read_reschedule nh w = Some (tt, w')
             /\ log w' = log w ++ [EpRefresh EVENTIO_READ]
             /\ vc (st w') = vc (st w).
Proof.
  destruct w as [s l]. unfold read_reschedule, ready_list_update. run.
  match goal with |- context [if ?b then _ else _] => destruct b end;
    eexists; split; reflexivity || (split; reflexivity).
Qed.

(** [read_signal_done] emits its event: the entry of the signal is the
    first thing it adds to the log, and the continuation (when there is
    one) is called with the read side already disabled. *)
Lemma read_signal_done_log (event : Z) (nh : NetHandlerRef) (w : World) :
  match read_signal_done event nh w with
  | Some (e, w') =>
      exists tail,
        log w' = log w ++ signal_entry (_cont (vio (read (vc (st w))))) event ReadVIO :: tail
        /\ Forall quiet_action tail
  | None => True
  end.
Proof.
  unfold read_signal_done. unfold bind at 1. unfold modify at 1.
  cbv beta match.
  match goal with
  | |- context [bind (read_signal_and_update event) _ ?w0] =>
      pose proof (read_signal_and_update_log event w0) as H;
      unfold bind at 1;
      destruct (read_signal_and_update event w0) as [[e w1]|]; auto
  end.
  simpl in H. destruct H as (tail & Hl & Hq & He).
  destruct (e =? EVENT_DONE).
  - unfold ret. exists tail. auto.
  - destruct (read_reschedule_log nh w1) as (w2 & Hr & Hl2 & _).
    unfold bind. rewrite Hr. unfold ret.
    exists (tail ++ [EpRefresh EVENTIO_READ]).
    rewrite Hl2, Hl, <- app_assoc. simpl. split; auto.
    apply Forall_app. split; auto. repeat constructor.
Qed.

Lemma bind_bind_some {A B C} (m : Net A) (k : A -> Net B) (u : B -> Net C)
    (w w' : World) (x : A) :
  m w = Some (x, w') ->
  (b <- (a <- m ;; k a) ;; u b) w = (b <- k x ;; u b) w'.
Proof. intro H. unfold bind. now rewrite H. Qed.

Lemma signal_done_then_unlock_log (event : Z) (nh : NetHandlerRef)
    (vm : ProxyMutexRef) (w3 w' : World) :
  (read_signal_done event nh ;; Mutex_unlock vm ;; ret tt) w3 = Some (tt, w') ->
  exists tail,
    log w' = log w3 ++ signal_entry (_cont (vio (read (vc (st w3))))) event ReadVIO :: tail
    /\ Forall quiet_action tail.
Proof.
  unfold bind at 1.
  pose proof (read_signal_done_log event nh w3) as H.
  destruct (read_signal_done event nh w3) as [[e w4]|]; [|discriminate].
  destruct (unlock_ok vm w4) as (w5 & Hu & (_ & _ & _ & _ & _ & Hl)).
  unfold bind, ret. rewrite Hu. intro E. inversion E. subst w'.
  destruct H as (tail & Ht & Hq). exists tail. rewrite Hl. auto.
Qed.

(** C2.  In a read pass that reaches the socket, let [r] be the
    summarized result of the socket calls and suppose it is not positive.
    - [r = -EAGAIN] or [r = -ENOTCONN]: the pass ends with [read.triggered]
      cleared and the connection off the read ready list, and logs nothing
      beyond the socket calls: no event.
    - [r = 0] or [r = -ECONNRESET]: [read.triggered] is cleared, the
      connection taken off the ready list, and [VC_EVENT_EOS] is signalled
      through [read_signal_done]; the signal is the next entry of the log.
    - any other negative [r] (a negated error number, which fits an
      [int]): [lerrno] is set to [-r] and [VC_EVENT_ERROR] is signalled
      through [read_signal_done]. *)
Theorem read_result_classified :
  forall (nh : NetHandlerRef) (thread : EThread) (vm : ProxyMutexRef)
         (m : MIOBuffer) (w : World),
    read_pass_ready thread vm m (st w) ->
    toread_of (st w) m <> 0 ->
    exists r w1 w2,
      same_but_locks w w1
      /\ read_data (toread_of (st w) m) m w1 = Some (r, w2)
      /\ socket_calls_only w1 w2
      /\ (r = - EAGAIN \/ r = - ENOTCONN ->
          exists w',
            read_from_net nh thread w = Some (tt, w')
            /\ triggered (read (vc (st w'))) = 0
            /\ on_ready_list ReadVIO nh w' = false
            /\ log w' = log w2)
      /\ (r = 0 \/ r = - ECONNRESET ->
          exists w3,
            triggered (read (vc (st w3))) = 0
            /\ on_ready_list ReadVIO nh w3 = false
            /\ log w3 = log w2
            /\ read_from_net nh thread w
               = (read_signal_done VC_EVENT_EOS nh ;; Mutex_unlock vm ;; ret tt) w3
            /\ forall w',
                 read_from_net nh thread w = Some (tt, w') ->
                 exists tail,
                   log w' = log w2
                            ++ signal_entry (_cont (vio (read (vc (st w)))))
                                 VC_EVENT_EOS ReadVIO :: tail
                   /\ Forall quiet_action tail)
      /\ (r < 0 -> r <> - EAGAIN -> r <> - ENOTCONN -> r <> - ECONNRESET ->
          - 2 ^ 31 < r ->
          exists w3,
            lerrno (vc (st w3)) = - r
            /\ triggered (read (vc (st w3))) = 0
            /\ log w3 = log w2
            /\ read_from_net nh thread w
               = (read_signal_done VC_EVENT_ERROR nh ;; Mutex_unlock vm ;; ret tt) w3
            /\ forall w',
                 read_from_net nh thread w = Some (tt, w') ->
                 exists tail,
                   log w' = log w2
                            ++ signal_entry (_cont (vio (read (vc (st w)))))
                                 VC_EVENT_ERROR ReadVIO :: tail
                   /\ Forall quiet_action tail).
Proof.
  intros nh thread vm m w Hready Ht.
  destruct (read_pass_unfold nh thread vm m w Hready Ht) as (w1 & Hs1 & Heq).
  destruct (read_data_spec (toread_of (st w) m) m w1)
    as (last & ra & tr & w2 & _ & Hd & _ & Hsock).
  exists (summarize tr ra last), w1, w2.
  set (r := summarize tr ra last) in Hd |- *.
  split; [exact Hs1|]. split; [exact Hd|]. split; [exact Hsock|].
  assert (Heq2 : read_from_net nh thread w
                 = (a <- (if r <=? 0 then read_check_errors nh r
                          else read_received nh (Some vm) r) ;;
                    Mutex_unlock vm ;; ret a) w2).
  { rewrite Heq. unfold bind. rewrite Hd. reflexivity. }
  rewrite Heq2. clear Heq Heq2.
  assert (Hcont : _cont (vio (read (vc (st w2)))) = _cont (vio (read (vc (st w))))).
  { destruct Hsock as (Hv & _). destruct Hs1 as (Hv1 & _). now rewrite Hv, Hv1. }
  split; [|split].
  - intro Hr.
    assert (Hle : (r <=? 0) = true) by (apply Z.leb_le; unfold EAGAIN, ENOTCONN in Hr; lia).
    rewrite Hle. unfold read_check_errors.
    assert (Hb : ((r =? - EAGAIN) || (r =? - ENOTCONN)) = true).
    { apply orb_true_iff. destruct Hr; [left|right]; now apply Z.eqb_eq. }
    rewrite Hb.
    destruct (read_clear_triggered nh w2) as (w3 & Hc & Htr & Hrl & Hl & _).
    rewrite (bind_some _ _ _ _ _ Hc).
    destruct (unlock_ok vm w3) as (w4 & Hu & (Hvc4 & Hh4 & _ & _ & _ & Hl4)).
    rewrite (bind_some _ _ _ _ _ Hu). unfold ret.
    exists w4. split; [reflexivity|].
    unfold on_ready_list in Hrl |- *. rewrite Hvc4, Hh4, Hl4. auto.
  - intro Hr.
    assert (Hle : (r <=? 0) = true) by (apply Z.leb_le; unfold ECONNRESET in Hr; lia).
    rewrite Hle. unfold read_check_errors.
    assert (Hb : ((r =? - EAGAIN) || (r =? - ENOTCONN)) = false).
    { apply orb_false_iff. unfold EAGAIN, ENOTCONN, ECONNRESET in Hr |- *.
      split; apply Z.eqb_neq; lia. }
    assert (Hb2 : ((r =? 0) || (r =? - ECONNRESET)) = true).
    { apply orb_true_iff. destruct Hr; [left|right]; now apply Z.eqb_eq. }
    rewrite Hb, Hb2.
    destruct (read_clear_triggered nh w2) as (w3 & Hc & Htr & Hrl & Hl & Hvio & _).
    assert (E : (a <- (modify (upd_read (with_triggered 0));;
                       ready_list_update nh ReadVIO remove;;
                       read_signal_done VC_EVENT_EOS nh;; ret tt) ;;
                 Mutex_unlock vm ;; ret a) w2
                = (read_signal_done VC_EVENT_EOS nh ;; Mutex_unlock vm ;; ret tt) w3).
    { clear - Hc. unfold ready_list_update, bind, modify, gets, ret in Hc |- *.
      simpl in Hc |- *. inversion Hc. subst w3. simpl.
      destruct (read_signal_done VC_EVENT_EOS nh _) as [[e wx]|]; auto. }
    exists w3. split; [exact Htr|]. split; [exact Hrl|]. split; [exact Hl|].
    split; [exact E|].
    intros w' Hw'. rewrite E in Hw'.
    apply signal_done_then_unlock_log in Hw'.
    destruct Hw' as (tail & Hlog & Hq). exists tail.
    rewrite Hlog, Hl, Hvio, Hcont. auto.
  - intros Hneg H1 H2 H3 Hrange.
    assert (Hle : (r <=? 0) = true) by (apply Z.leb_le; lia).
    rewrite Hle. unfold read_check_errors.
    assert (Hb : ((r =? - EAGAIN) || (r =? - ENOTCONN)) = false).
    { apply orb_false_iff. split; now apply Z.eqb_neq. }
    assert (Hb2 : ((r =? 0) || (r =? - ECONNRESET)) = false).
    { apply orb_false_iff. split; apply Z.eqb_neq; [lia|auto]. }
    rewrite Hb, Hb2. unfold read_signal_error.
    rewrite to_int_small by lia.
    exists (mkWorld (upd_vc (with_lerrno (- r)) (upd_read (with_triggered 0) (st w2)))
                    (log w2)).
    split; [reflexivity|]. split; [reflexivity|]. split; [reflexivity|].
    assert (E : forall w0,
                (a <- (modify (upd_read (with_triggered 0));;
                       (modify (upd_vc (with_lerrno (- r)));;
                        read_signal_done VC_EVENT_ERROR nh);; ret tt) ;;
                 Mutex_unlock vm ;; ret a) w0
                = (read_signal_done VC_EVENT_ERROR nh ;; Mutex_unlock vm ;; ret tt)
                    (mkWorld (upd_vc (with_lerrno (- r))
                                (upd_read (with_triggered 0) (st w0))) (log w0))).
    { intro w0. unfold bind, modify, ret. simpl.
      destruct (read_signal_done VC_EVENT_ERROR nh _) as [[e wx]|]; auto. }
    split; [apply E|].
    intros w' Hw'. rewrite E in Hw'.
    apply signal_done_then_unlock_log in Hw'.
    destruct Hw' as (tail & Hlog & Hq). exists tail.
    simpl in Hlog. rewrite Hlog, Hcont. auto.
Qed.

(** ** Timeout signalling in [mainEvent] *)

Lemma quiet_no_write_signal (l : list Action) :
  Forall quiet_action l -> ~ Exists is_write_signal l.
Proof.
  intros Hq He. apply Exists_exists in He. destruct He as (a & Hin & Ha).
  rewrite Forall_forall in Hq. specialize (Hq a Hin).
  destruct a; simpl in Ha, Hq |- *; auto.
Qed.

Lemma quiet_no_delivery (k : Continuation) (l : list Action) :
  Forall quiet_action l -> deliveries k l = 0%nat.
Proof.
  unfold deliveries. induction 1 as [|a l Ha Hl IH]; simpl; auto.
  destruct a; simpl in Ha |- *; auto. contradiction.
Qed.

Lemma deliveries_cons (k : Continuation) (a : Action) (l : list Action) :
  deliveries k (a :: l) = ((if delivered_to k a then 1 else 0) + deliveries k l)%nat.
Proof. unfold deliveries. simpl. destruct (delivered_to k a); reflexivity. Qed.

Lemma read_entry_not_write_signal (c : option Continuation) (event : Z) :
  ~ is_write_signal (signal_entry c event ReadVIO).
Proof. destruct c; simpl; auto. Qed.

Lemma delivered_distinct (k : Continuation) (c1 c2 : option Continuation)
    (e1 e2 : Z) (v1 v2 : VIORef) :
  c1 <> c2 ->
  ((if delivered_to k (signal_entry c1 e1 v1) then 1 else 0)
   + (if delivered_to k (signal_entry c2 e2 v2) then 1 else 0) <= 1)%nat.
Proof.
  intro H. destruct c1 as [k1|], c2 as [k2|]; simpl; try lia.
  - destruct (Nat.eqb_spec k k1), (Nat.eqb_spec k k2); try lia.
    subst. now elim H.
  - destruct (Nat.eqb k k1); lia.
  - destruct (Nat.eqb k k2); lia.
Qed.

Lemma delivered_le_1 (k : Continuation) (a : Action) :
  ((if delivered_to k a then 1 else 0) <= 1)%nat.
Proof. destruct (delivered_to k a); lia. Qed.

Lemma write_side_due_spec (d : Deadline) (rc wc : option Continuation)
    (c : UnixNetVConnection) :
  write_side_due d rc wc c = true ->
  deadline d c = 0 /\ closed c = 0
  /\ op (vio (write c)) = VIO_WRITE
  /\ Z.land (f_shutdown c) NET_VC_SHUTDOWN_WRITE = 0
  /\ _cont (vio (write c)) <> rc
  /\ _cont (vio (write c)) = wc.
Proof.
  unfold write_side_due. rewrite !andb_true_iff, !Z.eqb_eq, negb_true_iff.
  intros (((((H1 & H2) & H3) & H4) & H5) & H6).
  repeat split; auto.
  - destruct (op (vio (write c))); simpl in H3; auto; discriminate.
  - intro E. rewrite E, opt_nat_eqb_refl in H5. discriminate.
  - apply opt_nat_eqb_eq in H6. auto.
Qed.

Lemma disarm_fields (d : Deadline) (s : State) :
  let c := vc s in
  let c' := vc (disarm d s) in
  closed c' = closed c /\ read c' = read c /\ write c' = write c
  /\ f_shutdown c' = f_shutdown c /\ thread c' = thread c.
Proof. destruct d; simpl; auto. Qed.

(** The log of the signalling part of [mainEvent]. *)
Lemma mainEvent_signal_log :
  forall (signal_event : Z) (d : Deadline) (w : World) (res : Z) (w' : World),
    mainEvent_signal signal_event d w = Some (res, w') ->
    exists l,
      log w' = log w ++ l
      /\ (op (vio (read (vc (st w)))) = VIO_READ ->
          Z.land (f_shutdown (vc (st w))) NET_VC_SHUTDOWN_READ = 0 ->
          Exists is_write_signal l ->
          exists w1,
            read_signal_and_update signal_event (mkWorld (disarm d (st w)) (log w))
            = Some (EVENT_CONT, w1)
            /\ log w1 = log w ++ [signal_entry (_cont (vio (read (vc (st w)))))
                                    signal_event ReadVIO]
            /\ deadline d (vc (st w1)) = 0
            /\ closed (vc (st w1)) = 0
            /\ op (vio (write (vc (st w1)))) = VIO_WRITE
            /\ Z.land (f_shutdown (vc (st w1))) NET_VC_SHUTDOWN_WRITE = 0
            /\ _cont (vio (write (vc (st w1)))) <> _cont (vio (read (vc (st w))))
            /\ _cont (vio (write (vc (st w1)))) = _cont (vio (write (vc (st w))))
            /\ exists tail,
                 l = signal_entry (_cont (vio (read (vc (st w)))))
                       signal_event ReadVIO
                     :: signal_entry (_cont (vio (write (vc (st w1)))))
                          signal_event WriteVIO
                     :: tail
                 /\ Forall quiet_action tail)
      /\ (forall k, (deliveries k l <= 1)%nat).
Proof.
  intros ev d w res w' H.
  unfold mainEvent_signal in H.
  unfold bind at 1 in H. unfold modify at 1 in H. cbv beta match in H.
  unfold bind at 1 in H. unfold gets at 1 in H. cbv beta match in H.
  set (w0 := mkWorld (disarm d (st w)) (log w)) in H |- *.
  assert (D : closed (vc (st w0)) = closed (vc (st w))
              /\ read (vc (st w0)) = read (vc (st w))
              /\ write (vc (st w0)) = write (vc (st w))
              /\ f_shutdown (vc (st w0)) = f_shutdown (vc (st w))
              /\ thread (vc (st w0)) = thread (vc (st w)))
    by (subst w0; simpl; apply disarm_fields).
  destruct D as (Dc & Dr & Dw & Df & Dt).
  rewrite Dc, Dr, Dw, Df, Dt in H.
  destruct (nonzero (closed (vc (st w)))) eqn:Hclosed.
  { (* already closed: the connection is closed, nobody is signalled *)
    unfold bind in H.
    pose proof (close_log (thread (vc (st w))) w0) as Hl.
    destruct (close_UnixNetVConnection (thread (vc (st w))) w0) as [[[] wc]|];
      [|discriminate].
    unfold ret in H. inversion H. subst. destruct Hl as (Hl & _).
    exists (close_actions (vc (st w0))). split; [exact Hl|].
    pose proof (close_actions_quiet (vc (st w0))) as Hq.
    split.
    - intros _ _ He. now apply quiet_no_write_signal in He.
    - intro k. rewrite quiet_no_delivery; auto. }
  destruct (VIOop_eqb (op (vio (read (vc (st w))))) VIO_READ
            && (Z.land (f_shutdown (vc (st w))) NET_VC_SHUTDOWN_READ =? 0)) eqn:Hrc.
  - (* the read side is signalled *)
    unfold bind at 1 in H. unfold bind at 1 in H.
    pose proof (read_signal_and_update_log ev w0) as Hr.
    destruct (read_signal_and_update ev w0) as [[e w1]|] eqn:Hsig; [|discriminate].
    unfold ret at 1 in H. cbv beta match in H.
    unfold signal_logged in Hr. rewrite Dr in Hr.
    destruct Hr as (tail & Hl1 & Hq1 & [He|(He & Htail)]); subst e;
      change (log w0) with (log w) in Hl1.
    + (* it closed the connection *)
      simpl in H. unfold ret in H. inversion H. subst.
      eexists. split; [exact Hl1|]. split.
      * intros _ _ Hx. inversion Hx as [? ? Hy|? ? Hy]; subst.
        -- now apply read_entry_not_write_signal in Hy.
        -- now apply quiet_no_write_signal in Hy.
      * intro k. rewrite deliveries_cons, quiet_no_delivery by auto.
        pose proof (delivered_le_1 k
          (signal_entry (_cont (vio (read (vc (st w))))) ev ReadVIO)). lia.
    + subst tail. simpl in H.
      unfold bind at 1 in H. unfold gets at 1 in H. cbv beta match in H.
      destruct (write_side_due d (_cont (vio (read (vc (st w)))))
                  (_cont (vio (write (vc (st w))))) (vc (st w1))) eqn:Hdue.
      * (* and then the write side *)
        apply write_side_due_spec in Hdue.
        destruct Hdue as (H1 & H2 & H3 & H4 & H5 & H6).
        unfold bind in H.
        pose proof (write_signal_and_update_log ev w1) as Hw.
        destruct (write_signal_and_update ev w1) as [[e2 w2]|]; [|discriminate].
        unfold ret in H. inversion H. subst.
        destruct Hw as (tail2 & Hl2 & Hq2 & _).
        exists (signal_entry (_cont (vio (read (vc (st w))))) ev ReadVIO
                :: signal_entry (_cont (vio (write (vc (st w1))))) ev WriteVIO
                :: tail2).
        split; [rewrite Hl2, Hl1, <- app_assoc; reflexivity|]. split.
        -- intros _ _ _. exists w1.
           split; [reflexivity|]. split; [exact Hl1|]. split; [exact H1|].
           split; [exact H2|]. split; [exact H3|]. split; [exact H4|].
           split; [exact H5|]. split; [exact H6|].
           exists tail2. split; [reflexivity|exact Hq2].
        -- intro k. rewrite !deliveries_cons, quiet_no_delivery by auto.
           pose proof (delivered_distinct k
                         (_cont (vio (read (vc (st w)))))
                         (_cont (vio (write (vc (st w1)))))
                         ev ev ReadVIO WriteVIO) as Hd.
           assert (_cont (vio (read (vc (st w)))) <> _cont (vio (write (vc (st w1)))))
             by congruence.
           specialize (Hd H0). lia.
      * unfold ret in H. inversion H. subst.
        eexists. split; [exact Hl1|]. split.
        -- intros _ _ Hx. inversion Hx as [? ? Hy|? ? Hy]; subst.
           ++ now apply read_entry_not_write_signal in Hy.
           ++ inversion Hy.
        -- intro k. rewrite deliveries_cons.
           pose proof (delivered_le_1 k
             (signal_entry (_cont (vio (read (vc (st w))))) ev ReadVIO)).
           unfold deliveries. simpl. lia.
  - (* the read side is not signalled *)
    unfold bind at 1 in H. unfold ret at 1 in H. cbv beta match in H.
    assert (Hnot : ~ (op (vio (read (vc (st w)))) = VIO_READ
                      /\ Z.land (f_shutdown (vc (st w))) NET_VC_SHUTDOWN_READ = 0)).
    { intros (Ha & Hb). rewrite Ha, Hb in Hrc. discriminate. }
    unfold bind at 1 in H. unfold gets at 1 in H. cbv beta match in H.
    destruct (write_side_due d None (_cont (vio (write (vc (st w))))) (vc (st w0))).
    + unfold bind in H.
      pose proof (write_signal_and_update_log ev w0) as Hw.
      destruct (write_signal_and_update ev w0) as [[e2 w2]|]; [|discriminate].
      unfold ret in H. inversion H. subst.
      destruct Hw as (tail2 & Hl2 & Hq2 & _).
      change (log w0) with (log w) in Hl2.
      eexists. split; [exact Hl2|]. split.
      * intros Ha Hb _. elim Hnot. auto.
      * intro k. rewrite deliveries_cons, quiet_no_delivery by auto.
        pose proof (delivered_le_1 k
          (signal_entry (_cont (vio (write (vc (st w0))))) ev WriteVIO)). lia.
    + unfold ret in H. inversion H. subst.
      exists []. split; [now rewrite app_nil_r|]. split.
      * intros Ha Hb _. elim Hnot. auto.
      * intro k. unfold deliveries. simpl. lia.
Qed.

(** C7.  In the signalling part of [mainEvent], let the read side be
    signalled (its operation is READ and the READ half is not shut down).
    If the write side is signalled too, then the read-side signal returned
    [EVENT_CONT], the write side is signalled with the same event right
    after it and, in the state the read-side signal left, the deadline was
    not re-armed, the connection is not closed, [write.vio.op] is WRITE,
    the WRITE half is not shut down, and the write continuation differs
    from the read continuation that was signalled and equals the write
    continuation saved before the read-side signal.  Whatever the state,
    no continuation is called more than once by one timeout. *)
Theorem timeout_write_side_signal :
  forall (signal_event : Z) (d : Deadline) (w : World) (res : Z) (w' : World),
    mainEvent_signal signal_event d w = Some (res, w') ->
    exists l,
      log w' = log w ++ l
      /\ (op (vio (read (vc (st w)))) = VIO_READ ->
          Z.land (f_shutdown (vc (st w))) NET_VC_SHUTDOWN_READ = 0 ->
          Exists is_write_signal l ->
          exists w1,
            read_signal_and_update signal_event (mkWorld (disarm d (st w)) (log w))
            = Some (EVENT_CONT, w1)
            /\ log w1 = log w ++ [signal_entry (_cont (vio (read (vc (st w)))))
                                    signal_event ReadVIO]
            /\ deadline d (vc (st w1)) = 0
            /\ closed (vc (st w1)) = 0
            /\ op (vio (write (vc (st w1)))) = VIO_WRITE
            /\ Z.land (f_shutdown (vc (st w1))) NET_VC_SHUTDOWN_WRITE = 0
            /\ _cont (vio (write (vc (st w1)))) <> _cont (vio (read (vc (st w))))
            /\ _cont (vio (write (vc (st w1)))) = _cont (vio (write (vc (st w))))
            /\ exists tail,
                 l = signal_entry (_cont (vio (read (vc (st w)))))
                       signal_event ReadVIO
                     :: signal_entry (_cont (vio (write (vc (st w1)))))
                          signal_event WriteVIO
                     :: tail
                 /\ Forall quiet_action tail)
      /\ (forall k, (deliveries k l <= 1)%nat).
Proof. exact mainEvent_signal_log. Qed.


Lemma trylock_log (m : ProxyMutexRef) (t : EThread) (w : World) :
  exists b w1, Mutex_trylock m t w = Some (b, w1) /\ log w1 = log w.
Proof.
  unfold Mutex_trylock. run.
  destruct (thread_holding (mutexes (st w) m)) as [t'|]; simpl.
  - destruct (Nat.eqb t' t); simpl; do 2 eexists; split; reflexivity.
  - do 2 eexists; split; reflexivity.
Qed.

Lemma MUTEX_TRY_LOCK_logs {A} (P : list Action -> Prop) (m : option ProxyMutexRef)
    (t : EThread) (body : option ProxyMutexRef -> Net A) :
  (forall lock, logs P (body lock)) -> logs P (MUTEX_TRY_LOCK m t body).
Proof.
  intros Hb w a w'. unfold MUTEX_TRY_LOCK.
  destruct m as [mr|]; [|discriminate].
  destruct (trylock_log mr t w) as (b & w1 & Hl & Hlog).
  rewrite (bind_some _ _ _ _ _ Hl). destruct b.
  - unfold bind at 1. destruct (body (Some mr) w1) as [[x w2]|] eqn:E; [|discriminate].
    destruct (unlock_ok mr w2) as (w3 & Hu & (_ & _ & _ & _ & _ & Hl3)).
    rewrite (bind_some _ _ _ _ _ Hu). unfold ret. intro H. inversion H. subst.
    destruct (Hb _ _ _ _ E) as (l & Hl2 & Hp).
    exists l. split; auto. congruence.
  - intro E. destruct (Hb _ _ _ _ E) as (l & Hl2 & Hp).
    exists l. split; auto. congruence.
Qed.

(** One run of [mainEvent] calls no continuation twice. *)
Lemma mainEvent_delivers_once (event : Z) (e : Event) :
  logs (fun l => forall k, (deliveries k l <= 1)%nat) (mainEvent event e).
Proof.
  unfold mainEvent. intros w a w'.
  unfold bind at 1. unfold gets at 1. cbv beta match.
  destruct (thread (vc (st w))); [|discriminate].
  unfold bind at 1. unfold gets at 1. cbv beta match.
  apply (MUTEX_TRY_LOCK_logs (fun l => forall k, (deliveries k l <= 1)%nat)).
  intro hlock.
  apply (MUTEX_TRY_LOCK_logs (fun l => forall k, (deliveries k l <= 1)%nat)).
  intro rlock.
  apply (MUTEX_TRY_LOCK_logs (fun l => forall k, (deliveries k l <= 1)%nat)).
  intro wlock.
  clear w a w'. intros w a w'.
  unfold bind at 1. unfold gets at 1. cbv beta match.
  assert (Hnil : forall x, Some (x, w) = Some (a, w') ->
                 exists l, log w' = log w ++ l
                           /\ forall k, (deliveries k l <= 1)%nat).
  { intros x H. inversion H. subst. exists []. rewrite app_nil_r.
    split; [reflexivity|]. intro k. unfold deliveries. simpl. lia. }
  assert (Hsig : forall ev d, mainEvent_signal ev d w = Some (a, w') ->
                 exists l, log w' = log w ++ l
                           /\ forall k, (deliveries k l <= 1)%nat).
  { intros ev d H. destruct (mainEvent_signal_log ev d w a w' H)
      as (l & Hl & _ & Hd). exists l. auto. }
  destruct (_ || _ || _ || _ || _).
  { unfold bind, emit, ret. simpl. intro H. inversion H. subst.
    exists [ScheduleRetry]. split; [reflexivity|].
    intro k. unfold deliveries. simpl. lia. }
  destruct (cancelled e); [apply Hnil|].
  destruct (event =? EVENT_IMMEDIATE); [|apply Hsig].
  unfold bind at 1. unfold gets at 1. cbv beta match.
  destruct (_ || _); [apply Hnil|apply Hsig].
Qed.
(** ** The VIO invariant *)

Lemma keeps_ret {A} (I : World -> Prop) (a : A) : keeps I (ret a).
Proof. intros w H. exact H. Qed.

Lemma keeps_abort {A} (I : World -> Prop) : keeps I (@abort A).
Proof. intros w H. exact Logic.I. Qed.

Lemma keeps_gets {A} (I : World -> Prop) (f : State -> A) : keeps I (gets f).
Proof. intros w H. exact H. Qed.

Lemma keeps_bind {A B} (I : World -> Prop) (m : Net A) (k : A -> Net B) :
  keeps I m -> (forall a, keeps I (k a)) -> keeps I (bind m k).
Proof.
  intros Hm Hk w H. unfold bind. specialize (Hm w H).
  destruct (m w) as [[a w1]|]; auto. apply (Hk a w1 Hm).
Qed.

Lemma inv_emit (a : Action) : keeps inv (emit a).
Proof. intros w H. exact H. Qed.

Lemma inv_modify (f : State -> State) :
  (forall s, vio_invariant s -> vio_invariant (f s)) -> keeps inv (modify f).
Proof. intros Hf w H. apply Hf. exact H. Qed.

Lemma inv_socket_calls (w w' : World) : socket_calls_only w w' -> inv w -> inv w'.
Proof.
  intros (Hvc & _) H. unfold inv, vio_invariant in H |- *. now rewrite Hvc.
Qed.

Lemma inv_same_but_locks (w w' : World) : same_but_locks w w' -> inv w -> inv w'.
Proof.
  intros (Hvc & _) H. unfold inv, vio_invariant in H |- *. now rewrite Hvc.
Qed.

(** Steps that do not write [nbytes] or [ndone]. *)
Ltac inv_step :=
  match goal with
  | |- keeps _ (ret _) => apply keeps_ret
  | |- keeps _ abort => apply keeps_abort
  | |- keeps _ (gets _) => apply keeps_gets
  | |- keeps _ (emit _) => apply inv_emit
  | |- keeps _ (modify _) =>
      apply inv_modify;
      solve [ let s := fresh "s" in let H := fresh "H" in
              intros s H; unfold vio_invariant in H |- *; simpl; exact H ]
  | |- keeps _ (bind _ _) => apply keeps_bind; [|intro]
  | |- keeps _ (if ?b then _ else _) => destruct b
  | |- keeps _ (match ?x with Some _ => _ | None => _ end) => destruct x
  end.

Ltac inv_steps := repeat inv_step.

Lemma inv_ready_list_update (nh : NetHandlerRef) (v : VIORef)
    (f : nat -> list nat -> list nat) : keeps inv (ready_list_update nh v f).
Proof. unfold ready_list_update. destruct v; inv_steps. Qed.

Lemma inv_read_reschedule (nh : NetHandlerRef) : keeps inv (read_reschedule nh).
Proof. unfold read_reschedule. inv_steps; apply inv_ready_list_update. Qed.

Lemma inv_write_reschedule (nh : NetHandlerRef) : keeps inv (write_reschedule nh).
Proof. unfold write_reschedule. inv_steps; apply inv_ready_list_update. Qed.

Lemma inv_read_disable (nh : NetHandlerRef) : keeps inv (read_disable nh).
Proof. unfold read_disable. inv_steps; apply inv_ready_list_update. Qed.

Lemma inv_write_disable (nh : NetHandlerRef) : keeps inv (write_disable nh).
Proof. unfold write_disable. inv_steps; apply inv_ready_list_update. Qed.

Lemma inv_net_activity : keeps inv net_activity.
Proof. unfold net_activity. inv_steps. Qed.

Lemma inv_cancel_OOB : keeps inv cancel_OOB.
Proof. unfold cancel_OOB. inv_steps. Qed.

Lemma inv_free (t : option EThread) : keeps inv (free t).
Proof. unfold free. inv_steps. Qed.

Lemma inv_close (t : option EThread) : keeps inv (close_UnixNetVConnection t).
Proof.
  intros w H. pose proof (close_log t w) as Hc.
  destruct (close_UnixNetVConnection t w) as [[[] w']|]; auto.
  destruct Hc as (_ & _ & _ & _ & _ & _ & He). unfold inv. now rewrite <- He.
Qed.

Lemma inv_signal_update : keeps inv signal_update.
Proof. unfold signal_update. inv_steps; try apply inv_close. Qed.

Lemma inv_trylock (m : ProxyMutexRef) (t : EThread) : keeps inv (Mutex_trylock m t).
Proof. unfold Mutex_trylock. inv_steps. Qed.

Lemma inv_unlock (m : ProxyMutexRef) : keeps inv (Mutex_unlock m).
Proof. unfold Mutex_unlock. inv_steps. Qed.

Lemma inv_MUTEX_TRY_LOCK {A} (m : option ProxyMutexRef) (t : EThread)
    (body : option ProxyMutexRef -> Net A) :
  (forall lock, keeps inv (body lock)) -> keeps inv (MUTEX_TRY_LOCK m t body).
Proof.
  intro Hb. unfold MUTEX_TRY_LOCK. destruct m as [mr|]; [|apply keeps_abort].
  apply keeps_bind; [apply inv_trylock|]. intros [|]; [|apply Hb].
  apply keeps_bind; [apply Hb|]. intro a.
  apply keeps_bind; [apply inv_unlock|]. intro. apply keeps_ret.
Qed.

Section Invariant.

(** The code outside this file keeps the invariant: the handlers of the
    continuations and the handshake hook. *)
Hypothesis handler_keeps :
  forall k event v s s',
    vio_invariant s -> handleEvent k event v s = Some s' -> vio_invariant s'.
Hypothesis handshake_keeps :
  forall mode s, vio_invariant s -> vio_invariant (snd (sslStartHandShake mode s)).

Lemma inv_call_handleEvent (k : Continuation) (event : Z) (v : VIORef) :
  keeps inv (call_handleEvent k event v).
Proof.
  intros w H. unfold call_handleEvent, bind, emit. simpl.
  destruct (handleEvent k event v (st w)) as [s'|] eqn:E; auto.
  unfold inv in H |- *. simpl. eapply handler_keeps; eauto.
Qed.

Lemma inv_read_signal_and_update (event : Z) : keeps inv (read_signal_and_update event).
Proof.
  unfold read_signal_and_update, read_signal_deliver.
  inv_steps; auto using inv_call_handleEvent, inv_signal_update.
Qed.

Lemma inv_write_signal_and_update (event : Z) : keeps inv (write_signal_and_update event).
Proof.
  unfold write_signal_and_update, write_signal_deliver.
  inv_steps; auto using inv_call_handleEvent, inv_signal_update.
Qed.

Lemma inv_read_signal_done (event : Z) (nh : NetHandlerRef) :
  keeps inv (read_signal_done event nh).
Proof.
  unfold read_signal_done.
  inv_steps; auto using inv_read_signal_and_update, inv_read_reschedule.
Qed.

Lemma inv_write_signal_done (event : Z) (nh : NetHandlerRef) :
  keeps inv (write_signal_done event nh).
Proof.
  unfold write_signal_done.
  inv_steps; auto using inv_write_signal_and_update, inv_write_reschedule.
Qed.

Lemma inv_read_signal_error (nh : NetHandlerRef) (err : Z) :
  keeps inv (read_signal_error nh err).
Proof. unfold read_signal_error. inv_steps; try apply inv_read_signal_done. Qed.

Lemma inv_write_signal_error (nh : NetHandlerRef) (err : Z) :
  keeps inv (write_signal_error nh err).
Proof. unfold write_signal_error. inv_steps; try apply inv_write_signal_done. Qed.

Lemma inv_read_check_errors (nh : NetHandlerRef) (r : Z) :
  keeps inv (read_check_errors nh r).
Proof.
  unfold read_check_errors.
  inv_steps; auto using inv_ready_list_update, inv_read_signal_done,
               inv_read_signal_error.
Qed.

Lemma inv_read_finish (nh : NetHandlerRef) : keeps inv (read_finish nh).
Proof.
  unfold read_finish.
  inv_steps; auto using inv_read_disable, inv_read_reschedule.
Qed.

Lemma inv_read_signal_ready (nh : NetHandlerRef) (lock : option ProxyMutexRef) (r : Z) :
  keeps inv (read_signal_ready nh lock r).
Proof.
  unfold read_signal_ready.
  inv_steps; auto using inv_read_signal_done, inv_read_signal_and_update,
               inv_read_reschedule, inv_read_finish.
Qed.

Lemma ntodo_positive (v : VIO) : 0 < ntodo v -> ntodo v = nbytes v - ndone v.
Proof. unfold ntodo. destruct (op v); intro H; auto. lia. Qed.

(** Accounting for [r] received bytes keeps the invariant when [r] is
    within what the VIO still wants. *)
Lemma inv_read_received (nh : NetHandlerRef) (lock : option ProxyMutexRef)
    (r : Z) (w : World) :
  inv w ->
  ndone (vio (read (vc (st w)))) + r <= nbytes (vio (read (vc (st w)))) ->
  match read_received nh lock r w with
  | Some (_, w') => inv w'
  | None => True
  end.
Proof.
  intros Hi Hr. unfold read_received.
  unfold bind at 1. unfold modify at 1. cbv beta match.
  unfold bind at 1. unfold modify at 1. cbv beta match.
  assert (K : keeps inv (net_activity ;; read_signal_ready nh lock r)).
  { apply keeps_bind; [apply inv_net_activity|]. intro.
    apply inv_read_signal_ready. }
  apply K. destruct Hi as (_ & Hw).
  unfold inv, vio_invariant, vio_inv. simpl. split; [left; exact Hr|exact Hw].
Qed.

Lemma inv_read_from_net (nh : NetHandlerRef) (thread : EThread) :
  keeps inv (read_from_net nh thread).
Proof.
  unfold read_from_net.
  apply keeps_bind; [apply keeps_gets|]. intro c0.
  apply inv_MUTEX_TRY_LOCK. intros [vm|]; [|apply inv_read_reschedule].
  intros w Hi. unfold bind at 1. unfold gets at 1. cbv beta match.
  destruct (nonzero (closed (vc (st w)))); [exact (inv_close _ w Hi)|].
  destruct ((enabled (read (vc (st w))) =? 0)
            || negb (VIOop_eqb (op (vio (read (vc (st w))))) VIO_READ));
    [exact (inv_read_disable _ w Hi)|].
  destruct (Z.leb_spec (ntodo (vio (read (vc (st w))))) 0) as [Hn|Hn];
    [exact (inv_read_disable _ w Hi)|].
  destruct (writer (buffer (vio (read (vc (st w)))))) as [m|]; [|exact I].
  rewrite min_as_if.
  set (toread := Z.min (ntodo (vio (read (vc (st w))))) (write_avail m)).
  destruct (nonzero toread); [|exact (inv_read_signal_ready _ _ _ w Hi)].
  destruct (read_data_spec toread m w) as (last & ra & tr & w2 & _ & Hd & Hp & Hs).
  unfold bind. rewrite Hd.
  destruct (read_result_bounds toread last ra tr Hp) as (Hb & _).
  pose proof (inv_socket_calls w w2 Hs Hi) as Hi2.
  destruct (Z.leb_spec (summarize tr ra last) 0) as [Hr|Hr].
  - exact (inv_read_check_errors _ _ w2 Hi2).
  - apply inv_read_received; auto.
    destruct Hs as (Hvc & _). rewrite Hvc.
    specialize (Hb Hr). pose proof (ntodo_positive _ Hn) as E.
    subst toread. lia.
Qed.

(** ** The write loop *)

Lemma fill_wiovec_spec (towrite : Z) (b : list IOBufferBlock) :
  forall (niov : nat) (iov : list IOVec) (offset tw : Z),
    tw <= towrite ->
    match fill_wiovec towrite b niov iov offset tw with
    | (b', offset', iov', tw') =>
        iov_total iov' = iov_total iov + (tw' - tw)
        /\ tw <= tw' <= towrite
    end.
Proof.
  induction b as [|blk next IH]; intros niov iov offset tw Htw; simpl.
  - split; lia.
  - destruct (niov <? NET_MAX_IOV)%nat; [|split; lia].
    destruct (Z.leb_spec (block_read_avail blk - offset) 0) as [Hl|Hl].
    { apply IH. exact Htw. }
    set (l := if towrite - tw <? block_read_avail blk - offset
              then towrite - tw else block_read_avail blk - offset).
    assert (Hlr : 0 <= l <= towrite - tw).
    { subst l. destruct (Z.ltb_spec (towrite - tw) (block_read_avail blk - offset)); lia. }
    destruct (Z.eqb_spec l 0) as [Hz|Hz]; [split; lia|].
    specialize (IH (S niov) (iov ++ [mkIOVec (_start blk + offset) l]) 0 (tw + l)).
    destruct (fill_wiovec towrite next (S niov) _ 0 (tw + l)) as [[[b' o'] iov'] tw'].
    rewrite iov_total_app in IH. simpl in IH.
    destruct IH as (H1 & H2); [lia|]. split; lia.
Qed.

(** The write loop ends, whatever the kernel answers, within [towrite]. *)
Lemma write_loop_spec (fd towrite : Z) :
  forall (fuel : nat) (b : list IOBufferBlock) (offset T : Z) (w : World),
    T <= towrite ->
    (length (kernel (st w)) < fuel)%nat ->
    exists r wa tw w',
      write_loop fuel fd towrite b offset T w = Some (Some (r, wa, tw), w')
      /\ write_loop_post towrite T r wa tw
      /\ socket_calls_only w w'.
Proof.
  induction fuel as [|fuel IH]; intros b offset T w HT Hf; [lia|].
  simpl.
  pose proof (fill_wiovec_spec towrite b 0 [] offset T HT) as Hfill.
  destruct (fill_wiovec towrite b 0 [] offset T) as [[[b' offset'] iov] tw].
  simpl in Hfill. destruct Hfill as (Hiov & Htw).
  destruct (write_or_writev_spec fd iov w)
    as (r & w1 & a & Hs & Hr & Hk & Hk' & Hvc & Hh & Hm & Ht & He & Hl & Ha).
  unfold bind at 1. rewrite Hs.
  destruct ((r =? tw - T) && (tw <? towrite)) eqn:Hcont.
  - apply andb_true_iff in Hcont. destruct Hcont as (Hc1 & Hc2).
    apply Z.eqb_eq in Hc1. apply Z.ltb_lt in Hc2.
    destruct (IH b' offset' tw w1) as (r2 & wa2 & tw2 & w2 & Hloop & Hpost & Hsock).
    { lia. }
    { assert (0 <= r) by lia. specialize (Hk H). lia. }
    exists r2, wa2, tw2, w2. split; [exact Hloop|]. split.
    + destruct Hpost as (H1 & H2 & H3 & H4). unfold write_loop_post. lia.
    + eapply socket_calls_only_step; eauto.
  - exists r, (tw - T), tw, w1. split; [reflexivity|]. split.
    + unfold write_loop_post. lia.
    + eapply socket_calls_only_step; eauto using socket_calls_only_refl.
Qed.

Lemma write_result_bound (towrite r wa tw : Z) :
  write_loop_post towrite 0 r wa tw -> summarize tw wa r <= towrite.
Proof.
  intros (H1 & H2 & H3 & H4). unfold summarize.
  destruct (Z.eqb_spec tw wa); simpl; [lia|].
  destruct (Z.leb_spec r 0); lia.
Qed.

Lemma load_buffer_and_write_spec (towrite : Z) (w : World) :
  0 <= towrite ->
  match load_buffer_and_write towrite 0 0 0 w with
  | Some ((r, wa, tw, needs), w') =>
      write_loop_post towrite 0 r wa tw /\ socket_calls_only w w'
  | None => True
  end.
Proof.
  intro Ht. unfold load_buffer_and_write.
  unfold bind at 1. unfold gets at 1. cbv beta match.
  destruct (reader (buffer (vio (write (vc (st w)))))) as [rd|]; [|exact I].
  unfold loop_fuel, bind, gets, ret. cbv beta match.
  destruct (write_loop_spec (con_fd (vc (st w))) towrite
              (S (length (kernel (st w)))) (block rd) (start_offset rd) 0 w)
    as (r & wa & tw & w' & Hl & Hp & Hs); [lia|lia|].
  rewrite Hl. split; auto.
Qed.

(** ** The write pass keeps the invariant *)

Lemma inv_write_check_errors (nh : NetHandlerRef) (needs r : Z) :
  keeps inv (write_check_errors nh needs r).
Proof.
  unfold write_check_errors.
  inv_steps; auto using inv_ready_list_update, inv_write_reschedule,
               inv_read_reschedule, inv_write_signal_done, inv_write_signal_error.
Qed.

Lemma inv_write_finish (nh : NetHandlerRef) (needs : Z) :
  keeps inv (write_finish nh needs).
Proof.
  unfold write_finish.
  inv_steps; auto using inv_write_disable, inv_write_reschedule, inv_read_reschedule.
Qed.

(** Accounting for [r] written bytes keeps the invariant when [r] is
    within what the VIO still wants. *)
Lemma inv_write_done (nh : NetHandlerRef) (lock : option ProxyMutexRef)
    (signalled : bool) (needs r : Z) (w : World) :
  inv w ->
  ndone (vio (write (vc (st w)))) + r <= nbytes (vio (write (vc (st w)))) ->
  match write_done nh lock signalled needs r w with
  | Some (_, w') => inv w'
  | None => True
  end.
Proof.
  intros Hi Hr. unfold write_done.
  unfold bind at 1. unfold gets at 1. cbv beta match.
  destruct (reader (buffer (vio (write (vc (st w)))))) as [rd|]; [|exact I].
  unfold bind at 1. unfold modify at 1. cbv beta match.
  unfold bind at 1. unfold modify at 1. cbv beta match.
  match goal with
  | |- match bind _ ?k ?w0 with _ => _ end =>
      assert (K : keeps inv (bind (if negb (is_read_avail_more_than 0 (consume r rd))
                                   then modify (upd_vc (with_write_buffer_empty_event 0))
                                   else ret tt) k))
  end.
  { inv_steps; auto using inv_net_activity, inv_write_signal_done,
                 inv_write_signal_and_update, inv_write_finish, inv_write_reschedule. }
  apply K. destruct Hi as (Hrd & _).
  unfold inv, vio_invariant, vio_inv. simpl. split; [exact Hrd|left; exact Hr].
Qed.

Lemma inv_write_data (nh : NetHandlerRef) (lock : option ProxyMutexRef)
    (signalled : bool) (towrite : Z) (w : World) :
  inv w ->
  towrite <= nbytes (vio (write (vc (st w)))) - ndone (vio (write (vc (st w)))) ->
  match write_data nh lock signalled towrite w with
  | Some (_, w') => inv w'
  | None => True
  end.
Proof.
  intros Hi Ht. unfold write_data.
  destruct (Z.leb_spec towrite 0) as [Hz|Hz]; [exact (inv_write_disable _ w Hi)|].
  unfold bind at 1.
  pose proof (load_buffer_and_write_spec towrite w) as Hl.
  destruct (load_buffer_and_write towrite 0 0 0 w) as [[[[[r wa] tw] needs] w1]|];
    [|exact I].
  destruct Hl as (Hp & Hs); [lia|].
  pose proof (write_result_bound towrite r wa tw Hp) as Hb.
  pose proof (inv_socket_calls w w1 Hs Hi) as Hi1.
  destruct (Z.leb_spec (summarize tw wa r) 0) as [Hr|Hr].
  - exact (inv_write_check_errors _ _ _ w1 Hi1).
  - apply inv_write_done; auto.
    destruct Hs as (Hvc & _). rewrite Hvc. lia.
Qed.

Lemma inv_write_handshake (nh : NetHandlerRef) : keeps inv (write_handshake nh).
Proof.
  unfold write_handshake.
  apply keeps_bind; [apply keeps_gets|]. intro client.
  intros w Hi. unfold bind at 1. unfold gets at 1. cbv beta match.
  pose proof (handshake_keeps (if client then SSL_EVENT_CLIENT else SSL_EVENT_SERVER)
                (st w) Hi) as Hk.
  destruct (sslStartHandShake _ (st w)) as [[res err] s'].
  simpl in Hk.
  unfold bind at 1. unfold modify at 1. cbv beta match.
  match goal with
  | |- match ?m ?w0 with _ => _ end =>
      assert (Hi0 : inv w0) by exact Hk;
      assert (Km : keeps inv m)
  end.
  { inv_steps; auto using inv_write_signal_error, inv_ready_list_update,
                 inv_read_reschedule, inv_write_reschedule. }
  exact (Km _ Hi0).
Qed.

Lemma inv_write_to_net_io (nh : NetHandlerRef) (thread : EThread) :
  keeps inv (write_to_net_io nh thread).
Proof.
  unfold write_to_net_io.
  apply keeps_bind; [apply keeps_gets|]. intro c0.
  apply inv_MUTEX_TRY_LOCK. intros lock.
  intros w Hi. unfold bind at 1. unfold gets at 1. cbv beta match.
  destruct lock as [vm|]; [|exact (inv_write_reschedule _ w Hi)].
  destruct (negb (opt_nat_eqb (Some vm) (vio_mutex (vio (write (vc (st w)))))));
    [exact (inv_write_reschedule _ w Hi)|].
  unfold bind at 1. unfold gets at 1. cbv beta match.
  destruct (negb (getSSLHandShakeComplete (st w)));
    [exact (inv_write_handshake _ w Hi)|].
  destruct ((enabled (write (vc (st w))) =? 0)
            || negb (VIOop_eqb (op (vio (write (vc (st w))))) VIO_WRITE));
    [exact (inv_write_disable _ w Hi)|].
  destruct (Z.leb_spec (ntodo (vio (write (vc (st w))))) 0) as [Hn|Hn];
    [exact (inv_write_disable _ w Hi)|].
  destruct (reader (buffer (vio (write (vc (st w)))))) as [rd|]; [|exact I].
  rewrite min_as_if.
  pose proof (ntodo_positive _ Hn) as En.
  assert (Hdirect : forall s,
             match write_data nh (Some vm) s
                     (Z.min (ntodo (vio (write (vc (st w))))) (read_avail rd)) w with
             | Some (_, w') => inv w'
             | None => True
             end).
  { intro s. apply inv_write_data; auto. lia. }
  destruct (negb (Z.min (ntodo (vio (write (vc (st w))))) (read_avail rd)
                  =? ntodo (vio (write (vc (st w)))))); [|apply Hdirect].
  destruct (writer (buffer (vio (write (vc (st w)))))) as [m|]; [|exact I].
  destruct (nonzero (write_avail m)); [|apply Hdirect].
  unfold bind at 1.
  pose proof (inv_write_signal_and_update VC_EVENT_WRITE_READY w Hi) as Hsig.
  destruct (write_signal_and_update VC_EVENT_WRITE_READY w) as [[e w1]|]; [|exact I].
  destruct (negb (e =? EVENT_CONT)); [exact Hsig|].
  unfold bind at 1. unfold gets at 1. cbv beta match.
  destruct (Z.leb_spec (ntodo (vio (write (vc (st w1))))) 0) as [Hn1|Hn1];
    [exact (inv_write_disable _ w1 Hsig)|].
  destruct (reader (buffer (vio (write (vc (st w1)))))) as [rd1|]; [|exact I].
  rewrite min_as_if. pose proof (ntodo_positive _ Hn1) as En1.
  apply inv_write_data; auto. lia.
Qed.

(** ** The other entry points and the invariant *)

Lemma inv_set_enabled (v : VIORef) : keeps inv (set_enabled v).
Proof. unfold set_enabled. destruct v; inv_steps. Qed.

Lemma inv_reenable_install (v : VIORef) (h : NetHandlerRef) :
  keeps inv (reenable_install v h).
Proof.
  unfold reenable_install. destruct v; inv_steps; apply inv_ready_list_update.
Qed.

Lemma inv_reenable_defer (v : VIORef) (h : NetHandlerRef) :
  keeps inv (reenable_defer v h).
Proof. unfold reenable_defer. destruct v; inv_steps. Qed.

Lemma inv_reenable (v : VIORef) : keeps inv (reenable v).
Proof.
  unfold reenable.
  inv_steps; auto using inv_set_enabled, inv_reenable_install, inv_reenable_defer.
  apply inv_MUTEX_TRY_LOCK. intros [m|];
    auto using inv_reenable_install, inv_reenable_defer.
Qed.

(** [do_io_read] with a byte count that is not negative keeps the
    invariant: it starts the read VIO at [ndone = 0]. *)
Lemma inv_do_io_read (c : option Continuation) (n : Z) (buf : option MIOBuffer) :
  0 <= n -> keeps inv (do_io_read c n buf).
Proof.
  intros Hn w Hi. unfold do_io_read.
  unfold bind at 1. unfold gets at 1. cbv beta match.
  destruct (nonzero (closed (vc (st w)))); [exact Hi|].
  unfold bind at 1. unfold modify at 1. cbv beta match.
  unfold bind at 1. unfold gets at 1. cbv beta match.
  do 5 (unfold bind at 1; unfold modify at 1; cbv beta match).
  match goal with
  | |- match bind ?m ?k ?w0 with _ => _ end => assert (K : keeps inv (bind m k))
  end.
  { inv_steps; auto using inv_reenable. }
  apply K. destruct Hi as (_ & Hw).
  unfold inv, vio_invariant, vio_inv. simpl. split; [left; exact Hn|exact Hw].
Qed.

Lemma inv_do_io_write (c : option Continuation) (n : Z) (rd : option IOBufferReader)
    (owner : bool) :
  0 <= n -> keeps inv (do_io_write c n rd owner).
Proof.
  intros Hn w Hi. unfold do_io_write.
  unfold bind at 1. unfold gets at 1. cbv beta match.
  destruct (nonzero (closed (vc (st w)))); [exact Hi|].
  unfold bind at 1. unfold modify at 1. cbv beta match.
  unfold bind at 1. unfold gets at 1. cbv beta match.
  do 5 (unfold bind at 1; unfold modify at 1; cbv beta match).
  match goal with
  | |- match bind ?m ?k ?w0 with _ => _ end => assert (K : keeps inv (bind m k))
  end.
  { inv_steps; auto using inv_reenable. }
  apply K. destruct Hi as (Hr & _).
  unfold inv, vio_invariant, vio_inv. simpl. split; [exact Hr|left; exact Hn].
Qed.

(** [do_io_close] establishes it: both byte counts are reset to 0. *)
Lemma inv_do_io_close (alerrno : Z) (w : World) :
  match do_io_close alerrno w with
  | Some (_, w') => inv w'
  | None => True
  end.
Proof.
  rewrite do_io_close_unfold.
  assert (Hi : inv (mkWorld (do_io_close_recorded alerrno (st w)) (log w))).
  { unfold inv, vio_invariant, vio_inv. simpl. split; right; reflexivity. }
  destruct (close_inline_b (st w)); [|exact Hi].
  exact (inv_close _ _ Hi).
Qed.

Lemma inv_do_io_shutdown (howto : ShutdownHowTo_t) : keeps inv (do_io_shutdown howto).
Proof.
  intros w (Hr & Hw). destruct howto; unfold do_io_shutdown; run;
    unfold inv, vio_invariant, vio_inv; simpl; split; auto.
Qed.

Lemma inv_mainEvent_signal (event : Z) (d : Deadline) :
  keeps inv (mainEvent_signal event d).
Proof.
  unfold mainEvent_signal.
  apply keeps_bind.
  { apply inv_modify. intros s H. destruct d; exact H. }
  intros _. apply keeps_bind; [apply keeps_gets|]. intro c.
  destruct (nonzero (closed c)).
  { apply keeps_bind; [apply inv_close|]. intro. apply keeps_ret. }
  apply keeps_bind.
  { inv_steps. apply inv_read_signal_and_update. }
  intros [rc done]. destruct done; [apply keeps_ret|].
  inv_steps. apply inv_write_signal_and_update.
Qed.

Lemma inv_mainEvent (event : Z) (e : Event) : keeps inv (mainEvent event e).
Proof.
  unfold mainEvent.
  apply keeps_bind; [apply keeps_gets|]. intro c0.
  destruct (thread c0); [|apply keeps_abort].
  apply keeps_bind; [apply keeps_gets|]. intro hm.
  apply inv_MUTEX_TRY_LOCK. intro hlock.
  apply inv_MUTEX_TRY_LOCK. intro rlock.
  apply inv_MUTEX_TRY_LOCK. intro wlock.
  inv_steps; apply inv_mainEvent_signal.
Qed.

(** C3.  Provided the continuations' handlers and the handshake hook
    keep it, the invariant "ndone <= nbytes or nbytes = 0" of the read VIO
    and of the write VIO is kept by every read pass and every write pass.
    The reason is the one the claim gives: a pass that moves bytes adds to
    [ndone] a result [r] with [r <= toread <= ntodo = nbytes - ndone]
    (respectively [r <= towrite <= ntodo]); a pass that moves none does not
    write [ndone] or [nbytes].  The other operations on the connection keep
    it as well: [mainEvent], [reenable], [do_io_shutdown], [do_io_close]
    (which resets both byte counts) and [do_io_read] / [do_io_write] when
    given a byte count that is not negative. *)
Theorem vio_invariant_preserved :
  forall (nh : NetHandlerRef) (thread : EThread) (w : World),
    vio_invariant (st w) ->
    (forall w', read_from_net nh thread w = Some (tt, w') -> vio_invariant (st w'))
    /\ (forall w', write_to_net_io nh thread w = Some (tt, w') ->
                   vio_invariant (st w'))
    /\ (forall event e res w',
           mainEvent event e w = Some (res, w') -> vio_invariant (st w'))
    /\ (forall v w', reenable v w = Some (tt, w') -> vio_invariant (st w'))
    /\ (forall howto w',
           do_io_shutdown howto w = Some (tt, w') -> vio_invariant (st w'))
    /\ (forall alerrno w',
           do_io_close alerrno w = Some (tt, w') -> vio_invariant (st w'))
    /\ (forall c n buf res w',
           0 <= n -> do_io_read c n buf w = Some (res, w') -> vio_invariant (st w'))
    /\ (forall c n rd owner res w',
           0 <= n -> do_io_write c n rd owner w = Some (res, w') ->
           vio_invariant (st w'))
    /\ (forall toread m r w',
           read_data toread m w = Some (r, w') -> 0 < r -> r <= toread)
    /\ (forall towrite r wattempted total_written needs w',
           0 <= towrite ->
           load_buffer_and_write towrite 0 0 0 w
           = Some ((r, wattempted, total_written, needs), w') ->
           summarize total_written wattempted r <= towrite).
Proof.
  intros nh thread w Hi. repeat apply conj.
  - intros w' H. pose proof (inv_read_from_net nh thread w Hi) as K.
    rewrite H in K. exact K.
  - intros w' H. pose proof (inv_write_to_net_io nh thread w Hi) as K.
    rewrite H in K. exact K.
  - intros event e res w' H. pose proof (inv_mainEvent event e w Hi) as K.
    rewrite H in K. exact K.
  - intros v w' H. pose proof (inv_reenable v w Hi) as K.
    rewrite H in K. exact K.
  - intros howto w' H. pose proof (inv_do_io_shutdown howto w Hi) as K.
    rewrite H in K. exact K.
  - intros alerrno w' H. pose proof (inv_do_io_close alerrno w) as K.
    rewrite H in K. exact K.
  - intros c n buf res w' Hn H. pose proof (inv_do_io_read c n buf Hn w Hi) as K.
    rewrite H in K. exact K.
  - intros c n rd owner res w' Hn H.
    pose proof (inv_do_io_write c n rd owner Hn w Hi) as K.
    rewrite H in K. exact K.
  - intros toread m r w' H Hr.
    destruct (read_data_spec toread m w) as (last & ra & tr & w2 & _ & Hd & Hp & _).
    rewrite Hd in H. inversion H. subst.
    now apply (read_result_bounds toread last ra tr Hp).
  - intros towrite r wa tw needs w' Ht H.
    pose proof (load_buffer_and_write_spec towrite w Ht) as K.
    rewrite H in K. destruct K as (Hp & _).
    now apply write_result_bound.
Qed.

End Invariant.

(** * Further properties of the code *)

(** ** The I/O vectors *)

Lemma fill_tiovec_bounds (toread T : Z) (b : list IOBufferBlock) :
  forall (niov : nat) (iov : list IOVec) (ra : Z),
    length iov = niov ->
    0 <= ra < toread - T ->
    Forall positive_len iov ->
    match fill_tiovec toread T b niov iov ra with
    | (b', iov', ra') =>
        (length iov' <= Nat.max niov NET_MAX_IOV)%nat
        /\ Forall positive_len iov'
        /\ 0 <= ra' <= toread - T
        /\ exists skipped, b = skipped ++ b'
    end.
Proof.
  induction b as [|blk next IH]; intros niov iov ra Hlen Hra Hpos; simpl.
  - split; [lia|]. split; [exact Hpos|]. split; [lia|]. exists []. reflexivity.
  - destruct (Nat.ltb_spec niov NET_MAX_IOV) as [Hn|Hn].
    2:{ split; [lia|]. split; [exact Hpos|]. split; [lia|]. exists []. reflexivity. }
    destruct (Z.ltb_spec 0 (block_write_avail blk)) as [Ha|Ha].
    2:{ specialize (IH niov iov ra Hlen Hra Hpos).
        destruct (fill_tiovec toread T next niov iov ra) as [[b' iov'] ra'].
        destruct IH as (H1 & H2 & H3 & (sk & H4)).
        split; [exact H1|]. split; [exact H2|]. split; [exact H3|].
        exists (blk :: sk). simpl. now rewrite H4. }
    set (togo := toread - T - ra).
    destruct (Z.ltb_spec togo (block_write_avail blk)) as [Hlt|Hge].
    + rewrite Z.leb_refl. rewrite length_app. simpl.
      split; [lia|]. split.
      * apply Forall_app. split; [exact Hpos|]. constructor; [|constructor].
        unfold positive_len. simpl. subst togo. lia.
      * split; [subst togo; lia|]. exists []. reflexivity.
    + destruct (Z.leb_spec togo (block_write_avail blk)) as [Hle|Hgt].
      * rewrite length_app. simpl. split; [lia|]. split.
        -- apply Forall_app. split; [exact Hpos|]. constructor; [|constructor].
           unfold positive_len. simpl. exact Ha.
        -- split; [subst togo; lia|]. exists []. reflexivity.
      * specialize (IH (S niov)
                       (iov ++ [mkIOVec (_end blk) (block_write_avail blk)])
                       (ra + block_write_avail blk)).
        destruct (fill_tiovec toread T next (S niov) _ _) as [[b' iov'] ra'].
        destruct IH as (H1 & H2 & H3 & (sk & H4)).
        { rewrite length_app. simpl. lia. }
        { subst togo. lia. }
        { apply Forall_app. split; [exact Hpos|]. constructor; [|constructor].
          unfold positive_len. simpl. exact Ha. }
        split; [lia|]. split; [exact H2|]. split; [lia|].
        exists (blk :: sk). simpl. now rewrite H4.
Qed.

Lemma fill_wiovec_bounds (towrite : Z) (b : list IOBufferBlock) :
  forall (niov : nat) (iov : list IOVec) (offset tw : Z),
    length iov = niov ->
    tw <= towrite ->
    Forall positive_len iov ->
    match fill_wiovec towrite b niov iov offset tw with
    | (b', offset', iov', tw') =>
        (length iov' <= Nat.max niov NET_MAX_IOV)%nat
        /\ Forall positive_len iov'
        /\ exists skipped, b = skipped ++ b'
    end.
Proof.
  induction b as [|blk next IH]; intros niov iov offset tw Hlen Htw Hpos; simpl.
  - split; [lia|]. split; [exact Hpos|]. exists []. reflexivity.
  - destruct (Nat.ltb_spec niov NET_MAX_IOV) as [Hn|Hn].
    2:{ split; [lia|]. split; [exact Hpos|]. exists []. reflexivity. }
    destruct (Z.leb_spec (block_read_avail blk - offset) 0) as [Hl|Hl].
    { specialize (IH niov iov (- (block_read_avail blk - offset)) tw Hlen Htw Hpos).
      destruct (fill_wiovec towrite next niov iov _ tw) as [[[b' o'] iov'] tw'].
      destruct IH as (H1 & H2 & (sk & H3)).
      split; [exact H1|]. split; [exact H2|].
      exists (blk :: sk). simpl. now rewrite H3. }
    set (l := if towrite - tw <? block_read_avail blk - offset
              then towrite - tw else block_read_avail blk - offset).
    assert (Hlr : 0 <= l <= towrite - tw).
    { subst l. destruct (Z.ltb_spec (towrite - tw) (block_read_avail blk - offset)); lia. }
    destruct (Z.eqb_spec l 0) as [Hz|Hz].
    { split; [lia|]. split; [exact Hpos|]. exists []. reflexivity. }
    specialize (IH (S niov) (iov ++ [mkIOVec (_start blk + offset) l]) 0 (tw + l)).
    destruct (fill_wiovec towrite next (S niov) _ 0 (tw + l)) as [[[b' o'] iov'] tw'].
    destruct IH as (H1 & H2 & (sk & H3)).
    { rewrite length_app. simpl. lia. }
    { lia. }
    { apply Forall_app. split; [exact Hpos|]. constructor; [|constructor].
      unfold positive_len. simpl. lia. }
    split; [lia|]. split; [exact H2|].
    exists (blk :: sk). simpl. now rewrite H3.
Qed.

(** X1.  The I/O vector a round of the read loop or of the write loop
    builds never has more than [NET_MAX_IOV] entries, every entry asks for a
    positive number of bytes, the entries add up to what the round attempts
    -- within what is still wanted -- and the walk stops at a later block of
    the same chain. *)
Theorem iovec_within_bounds :
  forall (want done : Z) (b : list IOBufferBlock) (offset : Z),
    done < want ->
    (match fill_tiovec want done b 0 [] 0 with
     | (b', tiovec, rattempted) =>
         (length tiovec <= NET_MAX_IOV)%nat
         /\ Forall positive_len tiovec
         /\ iov_total tiovec = rattempted
         /\ 0 <= rattempted <= want - done
         /\ exists skipped, b = skipped ++ b'
     end)
    /\ (match fill_wiovec want b 0 [] offset done with
        | (b', offset', tiovec, total_written) =>
            (length tiovec <= NET_MAX_IOV)%nat
            /\ Forall positive_len tiovec
            /\ iov_total tiovec = total_written - done
            /\ done <= total_written <= want
            /\ exists skipped, b = skipped ++ b'
        end).
Proof.
  intros want done b offset Hlt. split.
  - pose proof (fill_tiovec_bounds want done b 0 [] 0 eq_refl) as Hb.
    pose proof (fill_tiovec_spec want done b 0 [] 0) as Hs.
    destruct (fill_tiovec want done b 0 [] 0) as [[b' iov] ra].
    destruct Hb as (H1 & H2 & H3 & H4); [lia|constructor|].
    destruct Hs as (H5 & _). simpl in H5.
    split; [lia|]. split; [exact H2|]. split; [lia|]. split; [exact H3|exact H4].
  - pose proof (fill_wiovec_bounds want b 0 [] offset done eq_refl) as Hb.
    pose proof (fill_wiovec_spec want b 0 [] offset done) as Hs.
    destruct (fill_wiovec want b 0 [] offset done) as [[[b' o'] iov] tw].
    destruct Hb as (H1 & H2 & H3); [lia|constructor|].
    destruct Hs as (H5 & H6); [lia|]. simpl in H5.
    split; [lia|]. split; [exact H2|]. split; [lia|]. split; [exact H6|exact H3].
Qed.

(** ** Bytes moved by the socket loops *)

Lemma socket_reply_exact (n : Z) (w : World) :
  socket_reply n w
  = Some (match kernel (st w) with
          | [] => - EAGAIN
          | k :: _ => reply_value n k
          end,
          mkWorld (with_kernel (tl (kernel (st w))) (st w)) (log w)).
Proof.
  unfold socket_reply. destruct w as [s l]. simpl.
  destruct s as [c hs ms cm k now me]. simpl. destruct k; reflexivity.
Qed.

Lemma read_or_readv_exact (fd : Z) (iov : list IOVec) (w : World) :
  exists a r,
    read_or_readv fd iov w
    = Some (r, mkWorld (with_kernel (tl (kernel (st w))) (st w)) (log w ++ [a]))
    /\ r = match kernel (st w) with
           | [] => - EAGAIN
           | k :: _ => reply_value (iov_total iov) k
           end
    /\ is_socket_call a /\ attempted a = iov_total iov.
Proof.
  unfold read_or_readv, socketManager_read, socketManager_readv.
  destruct iov as [|v [|v' rest]]; unfold bind, emit;
    rewrite socket_reply_exact; simpl.
  - eexists. eexists. split; [reflexivity|]. split; [reflexivity|].
    split; [exact I|reflexivity].
  - eexists. eexists. split; [reflexivity|].
    split; [destruct (kernel (st w)); [reflexivity|f_equal; lia]|].
    split; [exact I|simpl; lia].
  - eexists. eexists. split; [reflexivity|]. split; [reflexivity|].
    split; [exact I|reflexivity].
Qed.


(** A round that goes on has moved on in the block chain. *)
Lemma fill_tiovec_advances (toread T : Z) (b : list IOBufferBlock) :
  forall (niov : nat) (iov : list IOVec) (ra : Z),
    match fill_tiovec toread T b niov iov ra with
    | (b', iov', ra') =>
        (length b' <= length b)%nat
        /\ (ra' = toread - T \/ ra' = ra \/ (length b' < length b)%nat)
    end.
Proof.
  induction b as [|blk next IH]; intros niov iov ra; simpl.
  - split; [lia|]. right. left. reflexivity.
  - destruct (niov <? NET_MAX_IOV)%nat; [|split; [simpl; lia|right; left; reflexivity]].
    destruct (Z.ltb_spec 0 (block_write_avail blk)) as [Ha|Ha].
    2:{ specialize (IH niov iov ra).
        destruct (fill_tiovec toread T next niov iov ra) as [[b' iov'] ra'].
        destruct IH as (H1 & H2). split; [simpl; lia|].
        destruct H2 as [H2|[H2|H2]];
          [left; exact H2|right; left; exact H2|right; right; simpl; lia]. }
    set (togo := toread - T - ra).
    destruct (Z.ltb_spec togo (block_write_avail blk)) as [Hlt|Hge].
    + rewrite Z.leb_refl. split; [simpl; lia|]. left. subst togo. lia.
    + destruct (Z.leb_spec togo (block_write_avail blk)) as [Hle|Hgt].
      * split; [simpl; lia|]. left. subst togo. lia.
      * specialize (IH (S niov)
                       (iov ++ [mkIOVec (_end blk) (block_write_avail blk)])
                       (ra + block_write_avail blk)).
        destruct (fill_tiovec toread T next (S niov) _ _) as [[b' iov'] ra'].
        destruct IH as (H1 & H2). split; [simpl; lia|].
        destruct H2 as [H2|[H2|H2]];
          [left; exact H2|right; right; simpl; lia|right; right; simpl; lia].
Qed.

Lemma read_loop_moved (fd toread : Z) :
  forall (fuel : nat) (b : list IOBufferBlock) (T : Z) (w : World)
         (r ra tr : Z) (w' : World),
    read_loop fuel fd toread b T w = Some (Some (r, ra, tr), w') ->
    exists l,
      log w' = log w ++ l
      /\ Forall is_socket_call l
      /\ (tr - ra - T) + Z.max 0 r = moved l (kernel (st w))
      /\ kernel (st w') = skipn (length l) (kernel (st w))
      /\ (1 <= length l <= S (length b))%nat.
Proof.
  induction fuel as [|fuel IH]; intros b T w r ra tr w' H; [discriminate|].
  simpl in H.
  pose proof (fill_tiovec_spec toread T b 0 [] 0) as Hfill.
  pose proof (fill_tiovec_advances toread T b 0 [] 0) as Hadv.
  destruct (fill_tiovec toread T b 0 [] 0) as [[b' iov] ra1].
  simpl in Hfill. destruct Hfill as (Hiov & Hra). destruct Hadv as (Hle & Hadv).
  destruct (read_or_readv_exact fd iov w) as (a & r1 & Hs & Hr1 & Ha & Hatt).
  unfold bind at 1 in H. rewrite Hs in H. clear Hs.
  remember (mkWorld (with_kernel (tl (kernel (st w))) (st w)) (log w ++ [a]))
    as w1 eqn:Ew1.
  assert (Hiov' : iov_total iov = ra1) by lia.
  rewrite Hiov' in Hr1, Hatt. clear Hiov Hiov'.
  destruct (nonzero ra1 && (r1 =? ra1) && (T + ra1 <? toread)) eqn:Hcont.
  - apply andb_true_iff in Hcont. destruct Hcont as (Hc1 & Hc3).
    apply andb_true_iff in Hc1. destruct Hc1 as (Hc1 & Hc2).
    apply Z.eqb_eq in Hc2. apply Z.ltb_lt in Hc3.
    assert (Hpos : 0 < ra1).
    { unfold nonzero in Hc1. apply negb_true_iff in Hc1.
      apply Z.eqb_neq in Hc1. lia. }
    destruct (IH b' (T + ra1) w1 r ra tr w' H) as (l & Hl & Hf & Hm & Hk & Hn).
    assert (Hb : (length b' < length b)%nat) by (destruct Hadv as [E|[E|E]]; lia).
    exists (a :: l). rewrite Ew1 in Hl, Hm, Hk. simpl in Hl, Hm, Hk.
    split; [rewrite Hl; rewrite <- app_assoc; reflexivity|].
    split; [constructor; [exact Ha|exact Hf]|].
    destruct (kernel (st w)) as [|k ks] eqn:Ek.
    + unfold EAGAIN in Hr1. lia.
    + simpl in Hm, Hk. simpl. rewrite Hatt, <- Hr1.
      split; [lia|]. split; [exact Hk|lia].
  - unfold ret in H. inversion H. subst r ra tr w'.
    exists [a]. rewrite Ew1. simpl.
    split; [reflexivity|]. split; [constructor; [exact Ha|constructor]|].
    destruct (kernel (st w)) as [|k ks] eqn:Ek; simpl.
    + unfold EAGAIN in Hr1. split; [lia|]. split; [reflexivity|lia].
    + rewrite Hatt, <- Hr1. split; [lia|]. split; [reflexivity|lia].
Qed.

(** X2.  The socket calls of a read pass always return, after at least
    one call and at most one call more than the buffer has blocks; each
    call consumes one pending reply of the kernel; and the result the pass
    goes on with, when positive, is exactly the number of bytes the kernel
    handed over in these calls.  A result that is not positive means that
    no byte was handed over. *)
Theorem read_data_moves_bytes :
  forall (toread : Z) (m : MIOBuffer) (w : World),
    exists r w' l,
      read_data toread m w = Some (r, w')
      /\ log w' = log w ++ l
      /\ Forall is_socket_call l
      /\ Z.max 0 r = moved l (kernel (st w))
      /\ kernel (st w') = skipn (length l) (kernel (st w))
      /\ (1 <= length l <= S (length (first_write_block m)))%nat.
Proof.
  intros toread m w.
  destruct (read_data_spec toread m w) as (last & ra & tr & w' & Hl & Hd & Hp & _).
  destruct (read_loop_moved _ _ _ _ _ _ _ _ _ _ Hl) as (l & H1 & H2 & H3 & H4 & H5).
  exists (summarize tr ra last), w', l.
  split; [exact Hd|]. split; [exact H1|]. split; [exact H2|].
  split; [|split; [exact H4|exact H5]].
  rewrite <- H3. destruct Hp as (T' & Ht & H0 & _).
  unfold summarize. destruct (Z.eqb_spec tr ra); simpl;
    [|destruct (Z.leb_spec last 0)]; lia.
Qed.



(** ** Closing *)

Lemma queue_in_remove_other (v x : nat) (q : list nat) :
  x <> v -> queue_in x (remove v q) = queue_in x q.
Proof.
  intro Hx. unfold queue_in, remove. induction q as [|y q IH]; simpl; [reflexivity|].
  destruct (Nat.eqb v y) eqn:E; simpl.
  - apply Nat.eqb_eq in E. subst y.
    destruct (Nat.eqb x v) eqn:E2; [apply Nat.eqb_eq in E2; contradiction|].
    simpl. exact IH.
  - rewrite IH. reflexivity.
Qed.

(** The state [close_UnixNetVConnection] ends in, when it goes through. *)
Lemma close_state (w : World) (h : NetHandlerRef) :
  match close_UnixNetVConnection (thread (vc (st w))) w with
  | Some (_, w') =>
      kernel (st w') = kernel (st w)
      /\ (nh (vc (st w)) = Some h ->
      on_no_list (addr (vc (st w))) (handlers (st w') h)
      /\ queue_in (addr (vc (st w))) (read_enable_list (handlers (st w') h))
         = queue_in (addr (vc (st w))) (read_enable_list (handlers (st w) h))
           && negb (nonzero (in_enabled_list (read (vc (st w)))))
      /\ queue_in (addr (vc (st w))) (write_enable_list (handlers (st w') h))
         = queue_in (addr (vc (st w))) (write_enable_list (handlers (st w) h))
           && negb (nonzero (in_enabled_list (write (vc (st w)))))
      /\ released (vc (st w'))
      /\ (forall h2, h2 <> h -> handlers (st w') h2 = handlers (st w) h2)
      /\ mutexes (st w') = mutexes (st w))
  | None => True
  end.
Proof.
  destruct w as [s l]. destruct s as [c hs ms cm k now me].
  unfold close_UnixNetVConnection, cancel_OOB, free. run.
  destruct (opt_nat_eqb (thread c) (thread c)) eqn:Et.
  2:{ destruct (oob_ptr c) as [o|]; [destruct (trigger o)|]; simpl;
        rewrite ?Et; simpl; auto. }
  destruct (opt_nat_eqb (thread c) (Some me)) eqn:Em.
  2:{ destruct (oob_ptr c) as [o|]; [destruct (trigger o)|]; simpl;
        rewrite ?Et; simpl;
        destruct (nh c); simpl;
        destruct (nonzero (in_enabled_list (read c)));
        destruct (nonzero (in_enabled_list (write c))); simpl;
        rewrite ?Em; simpl; auto. }
  destruct (oob_ptr c) as [o|] eqn:Eo; [destruct (trigger o)|]; simpl;
    rewrite ?Et; simpl;
    destruct (nh c) as [h0|] eqn:Enh; simpl;
    destruct (nonzero (in_enabled_list (read c))) eqn:Er;
    destruct (nonzero (in_enabled_list (write c))) eqn:Ew; simpl;
    rewrite ?Em; simpl; (split; [reflexivity|]); intro Hh; try discriminate Hh;
    inversion Hh; subst h0;
    rewrite ?Nat.eqb_refl; unfold on_no_list, released, detach, leave_queues; simpl;
    rewrite ?Eo;
    rewrite ?queue_in_remove, ?andb_true_r, ?andb_false_r;
    (split; [split; [reflexivity|split; [reflexivity|split; [reflexivity|
             split; [reflexivity|split; [reflexivity|reflexivity]]]]]|]);
    (split; [reflexivity|]); (split; [reflexivity|]);
    (split; [|split; [intros h2 Hne; apply Nat.eqb_neq in Hne; rewrite ?Hne;
                      reflexivity|reflexivity]]);
    unfold nonzero in Er, Ew;
    try (apply negb_false_iff in Er; apply Z.eqb_eq in Er);
    try (apply negb_false_iff in Ew; apply Z.eqb_eq in Ew);
    repeat (split; [first [reflexivity|assumption]|]);
    first [reflexivity|assumption].
Qed.

(** X4.  On its owning thread, [close_UnixNetVConnection] of a connection
    attached to handler [h] goes through and leaves the connection on none
    of the handler's open, cop, ready, keep-alive and active lists; it is
    taken off an enable list exactly when its [in_enabled_list] flag was
    set.  The descriptor, the handler pointer, the timeouts, the flags of
    both directions, the continuations and the mutex pointers of the
    object are reset.  Other handlers are not touched, and no mutex is
    released by the close. *)
Theorem close_detaches_everywhere :
  forall (w : World) (h : NetHandlerRef),
    nh (vc (st w)) = Some h ->
    thread (vc (st w)) = Some (this_ethread (st w)) ->
    exists w',
      close_UnixNetVConnection (thread (vc (st w))) w = Some (tt, w')
      /\ on_no_list (addr (vc (st w))) (handlers (st w') h)
      /\ queue_in (addr (vc (st w))) (read_enable_list (handlers (st w') h))
         = queue_in (addr (vc (st w))) (read_enable_list (handlers (st w) h))
           && negb (nonzero (in_enabled_list (read (vc (st w)))))
      /\ queue_in (addr (vc (st w))) (write_enable_list (handlers (st w') h))
         = queue_in (addr (vc (st w))) (write_enable_list (handlers (st w) h))
           && negb (nonzero (in_enabled_list (write (vc (st w)))))
      /\ released (vc (st w'))
      /\ (forall h2, h2 <> h -> handlers (st w') h2 = handlers (st w) h2)
      /\ mutexes (st w') = mutexes (st w).
Proof.
  intros w h Hnh Hth.
  pose proof (close_state w h) as Hs.
  destruct (close_on_owner w Hth) as (w' & Hc & _).
  rewrite Hc in Hs. exists w'. split; [exact Hc|exact (proj2 Hs Hnh)].
Qed.

(** ** Re-enabling from another thread *)

Lemma trylock_fails (m : ProxyMutexRef) (t t2 : EThread) (w : World) :
  thread_holding (mutexes (st w) m) = Some t2 ->
  t2 <> t ->
  Mutex_trylock m t w = Some (false, w).
Proof.
  intros Hh Hne. unfold Mutex_trylock, bind, gets. rewrite Hh.
  destruct (Nat.eqb t2 t) eqn:E; [apply Nat.eqb_eq in E; contradiction|].
  reflexivity.
Qed.

Lemma set_enabled_effect (v : VIORef) (w : World) :
  exists w',
    set_enabled v w = Some (tt, w')
    /\ log w' = log w
    /\ enabled (STATE_FROM_VIO v (vc (st w'))) = 1
    /\ in_enabled_list (STATE_FROM_VIO v (vc (st w')))
       = in_enabled_list (STATE_FROM_VIO v (vc (st w)))
    /\ vio (STATE_FROM_VIO v (vc (st w'))) = vio (STATE_FROM_VIO v (vc (st w)))
    /\ thread (vc (st w')) = thread (vc (st w))
    /\ nh (vc (st w')) = nh (vc (st w))
    /\ addr (vc (st w')) = addr (vc (st w))
    /\ handlers (st w') = handlers (st w)
    /\ mutexes (st w') = mutexes (st w).
Proof.
  destruct w as [s l]. unfold set_enabled. run.
  destruct v; simpl;
    match goal with |- context [if ?b then _ else _] => destruct b end;
    simpl; eexists; (split; [reflexivity|]); simpl; repeat split; reflexivity.
Qed.

Lemma reenable_defer_spec (v : VIORef) (h : NetHandlerRef) (w : World) :
  exists w',
    reenable_defer v h w = Some (tt, w')
    /\ enabled (STATE_FROM_VIO v (vc (st w'))) = enabled (STATE_FROM_VIO v (vc (st w)))
    /\ in_enabled_list (STATE_FROM_VIO v (vc (st w'))) <> 0
    /\ enable_list v (handlers (st w') h)
       = (if in_enabled_list (STATE_FROM_VIO v (vc (st w))) =? 0
          then push (addr (vc (st w))) (enable_list v (handlers (st w) h))
          else enable_list v (handlers (st w) h))
    /\ read_ready_list (handlers (st w') h) = read_ready_list (handlers (st w) h)
    /\ write_ready_list (handlers (st w') h) = write_ready_list (handlers (st w) h)
    /\ mutexes (st w') = mutexes (st w)
    /\ log w' = log w ++ wake_up (handlers (st w) h).
Proof.
  destruct w as [s l]. destruct s as [c hs ms cm k now me].
  unfold reenable_defer, wake_up. run.
  destruct v; simpl;
    match goal with |- context [?x =? 0] => destruct (Z.eqb_spec x 0) as [E|E] end;
    simpl; rewrite ?Nat.eqb_refl; simpl;
    destruct (trigger_event (hs h)) as [ev|] eqn:Et;
    try destruct (signal_hook ev) eqn:Es;
    simpl; rewrite ?Et; simpl; rewrite ?Es; simpl; eexists; (split; [reflexivity|]); simpl; rewrite ?Nat.eqb_refl; simpl;
    rewrite ?app_nil_r;
    (split; [reflexivity|]); (split; [first [discriminate|exact E]|]);
    (split; [reflexivity|]); (split; [reflexivity|]); (split; [reflexivity|]);
    split; reflexivity.
Qed.

(** X5.  [reenable] on a disabled direction, called by the thread that
    holds the VIO's mutex while another thread holds the NetHandler's
    mutex: the direction is enabled, but no polling interest is installed
    and the ready lists stay as they are.  The connection is handed to the
    handler's thread instead: it is pushed on the enable list of the
    direction unless [in_enabled_list] says it is there already, the flag
    is set, and the handler's thread is woken through its signal hook if it
    has one.  No lock changes hands. *)
Theorem reenable_deferred_to_owner :
  forall (v : VIORef) (h : NetHandlerRef) (t t2 : EThread) (vm : ProxyMutexRef)
         (w : World),
    thread (vc (st w)) <> None ->
    nh (vc (st w)) = Some h ->
    vio_mutex (vio (STATE_FROM_VIO v (vc (st w)))) = Some vm ->
    thread_holding (mutexes (st w) vm) = Some t ->
    thread_holding (mutexes (st w) (nh_mutex (handlers (st w) h))) = Some t2 ->
    t2 <> t ->
    enabled (STATE_FROM_VIO v (vc (st w))) = 0 ->
    exists w',
      reenable v w = Some (tt, w')
      /\ enabled (STATE_FROM_VIO v (vc (st w'))) = 1
      /\ in_enabled_list (STATE_FROM_VIO v (vc (st w'))) <> 0
      /\ enable_list v (handlers (st w') h)
         = (if in_enabled_list (STATE_FROM_VIO v (vc (st w))) =? 0
            then push (addr (vc (st w))) (enable_list v (handlers (st w) h))
            else enable_list v (handlers (st w) h))
      /\ read_ready_list (handlers (st w') h) = read_ready_list (handlers (st w) h)
      /\ write_ready_list (handlers (st w') h) = write_ready_list (handlers (st w) h)
      /\ mutexes (st w') = mutexes (st w)
      /\ log w' = log w ++ wake_up (handlers (st w) h).
Proof.
  intros v h t t2 vm w Hth Hnh Hvm Hheld Hother Hne He.
  destruct (set_enabled_effect v w)
    as (w1 & Hs & Hl1 & Hen & Hin & Hvio & Ht1 & Hn1 & Ha1 & Hh1 & Hm1).
  unfold reenable. unfold bind at 1. unfold gets at 1.
  rewrite He. simpl.
  rewrite (bind_some _ _ _ _ _ Hs).
  unfold bind at 1. unfold gets at 1.
  rewrite Ht1. destruct (thread (vc (st w))) as [th|]; [|now elim Hth].
  rewrite Hvio, Hvm.
  unfold bind at 1. unfold gets at 1. rewrite Hm1, Hheld.
  rewrite Hn1, Hnh.
  unfold bind at 1. unfold gets at 1.
  unfold bind at 1. unfold gets at 1.
  rewrite Hh1, Hm1, Hother.
  rewrite opt_nat_eqb_neq by (intro E; inversion E; contradiction).
  unfold MUTEX_TRY_LOCK.
  assert (Hfail : Mutex_trylock (nh_mutex (handlers (st w) h)) t w1 = Some (false, w1))
    by (apply (trylock_fails _ t t2); [rewrite Hm1; exact Hother|exact Hne]).
  rewrite (bind_some _ _ _ _ _ Hfail).
  destruct (reenable_defer_spec v h w1)
    as (w2 & Hd & D1 & D2 & D3 & D4 & D5 & D6 & D7).
  exists w2. split; [exact Hd|].
  rewrite D1, Hen, D3, D4, D5, D6, D7, Hin, Ha1, Hh1, Hm1, Hl1.
  split; [reflexivity|]. split; [exact D2|].
  split; [reflexivity|]. split; [reflexivity|]. split; [reflexivity|].
  split; reflexivity.
Qed.

(** ** A close requested from a handler *)

Lemma answers_with_close_nested (alerrno : Z) (s : State) :
  recursion (vc s) <> 0 ->
  answers_with_close alerrno s = Some (do_io_close_recorded alerrno s).
Proof.
  intro Hr. unfold answers_with_close. rewrite do_io_close_unfold.
  unfold close_inline_b. simpl.
  destruct (Z.eqb_spec (recursion (vc s)) 0) as [E|E]; [contradiction|].
  reflexivity.
Qed.

(** X6.  A read handler that answers its event with [do_io_close]: the
    close is only recorded while the handler runs, whatever thread holds
    the NetHandler's mutex.  When the handler returns to the outermost
    signal function ([recursion] back at 0) the connection is closed there,
    once, and the function yields [EVENT_DONE]; in a nested signal function
    the request stays recorded in [closed], nothing is closed, and the
    function yields [EVENT_CONT]. *)
Theorem close_from_read_handler :
  forall (event : Z) (k : Continuation) (alerrno : Z) (w : World),
    _cont (vio (read (vc (st w)))) = Some k ->
    0 <= recursion (vc (st w)) ->
    thread (vc (st w)) = Some (this_ethread (st w)) ->
    (forall s, handleEvent k event ReadVIO s = answers_with_close alerrno s) ->
    exists w',
      read_signal_and_update event w
      = Some ((if recursion (vc (st w)) =? 0 then EVENT_DONE else EVENT_CONT), w')
      /\ log w'
         = log w ++ HandleEvent k event ReadVIO
                 :: (if recursion (vc (st w)) =? 0
                     then close_actions (vc (st w)) else [])
      /\ (recursion (vc (st w)) = 0 ->
          nh (vc (st w')) = None /\ con_fd (vc (st w')) = NO_FD)
      /\ (recursion (vc (st w)) <> 0 ->
          closed (vc (st w')) = (if alerrno =? -1 then 1 else -1)
          /\ nh (vc (st w')) = nh (vc (st w))
          /\ con_fd (vc (st w')) = con_fd (vc (st w))
          /\ recursion (vc (st w')) = recursion (vc (st w))
          /\ handlers (st w') = handlers (st w)).
Proof.
  intros event k alerrno w Hk Hr Hth Hh.
  unfold read_signal_and_update, read_signal_deliver.
  unfold bind at 1. unfold bind at 1. unfold modify at 1.
  unfold bind at 1. unfold gets at 1. cbn [st log].
  change (_cont (vio (read (vc (upd_vc
            (fun c : UnixNetVConnection => with_recursion (recursion c + 1) c)
            (st w))))))
    with (_cont (vio (read (vc (st w))))).
  rewrite Hk. unfold call_handleEvent. unfold bind at 1. unfold emit at 1.
  cbn [st log]. rewrite Hh.
  rewrite answers_with_close_nested by (simpl; lia).
  unfold signal_update. unfold bind at 1. unfold modify at 1.
  unfold bind at 1. unfold gets at 1. cbn [st log].
  set (s3 := upd_vc (fun c : UnixNetVConnection => with_recursion (recursion c - 1) c)
               (do_io_close_recorded alerrno
                  (upd_vc (fun c : UnixNetVConnection =>
                             with_recursion (recursion c + 1) c) (st w)))).
  assert (Hrec : recursion (vc s3) = recursion (vc (st w))) by (simpl; lia).
  assert (Hcl : closed (vc s3) = (if alerrno =? -1 then 1 else -1)) by reflexivity.
  assert (Hnz : nonzero (closed (vc s3)) = true)
    by (rewrite Hcl; destruct (alerrno =? -1); reflexivity).
  rewrite Hrec, Hnz.
  destruct (Z.eqb_spec (recursion (vc (st w))) 0) as [E|E]; cbn [andb].
  - destruct (close_on_owner (mkWorld s3 (log w ++ [HandleEvent k event ReadVIO])))
      as (w' & Hc & Hl & Hnh & Hfd); [exact Hth|].
    cbn [st log] in Hc, Hl.
    exists w'. unfold bind, ret. rewrite Hc.
    split; [reflexivity|].
    split; [rewrite Hl; rewrite <- app_assoc; reflexivity|].
    split; [intros _; split; assumption|].
    intro H. contradiction.
  - eexists. unfold ret. split; [reflexivity|]. cbn [st log].
    split; [reflexivity|].
    split; [intro H; contradiction|].
    intros _. split; [exact Hcl|]. split; [reflexivity|]. split; [reflexivity|].
    split; [exact Hrec|reflexivity].
Qed.

(** ** A pass that does not get the lock *)

Lemma read_reschedule_effect (nh : NetHandlerRef) (w : World) :
  exists w',
    read_reschedule nh w = Some (tt, w')
    /\ log w' = log w ++ [EpRefresh EVENTIO_READ]
    /\ vc (st w') = vc (st w)
    /\ mutexes (st w') = mutexes (st w)
    /\ kernel (st w') = kernel (st w)
    /\ on_ready_list ReadVIO nh w'
       = nonzero (triggered (read (vc (st w)))) && nonzero (enabled (read (vc (st w))))
    /\ write_ready_list (handlers (st w') nh) = write_ready_list (handlers (st w) nh).
Proof.
  destruct w as [s l]. destruct s as [c hs ms cm k now me].
  unfold read_reschedule, ready_list_update, on_ready_list. run.
  destruct (nonzero (triggered (read c)) && nonzero (enabled (read c)));
    simpl; eexists; (split; [reflexivity|]); simpl; rewrite Nat.eqb_refl; simpl;
    rewrite ?queue_in_remove, ?queue_in_in_or_enqueue;
    (split; [reflexivity|]); (split; [reflexivity|]); (split; [reflexivity|]);
    (split; [reflexivity|]); split; reflexivity.
Qed.

Lemma write_reschedule_effect (nh : NetHandlerRef) (w : World) :
  exists w',
    write_reschedule nh w = Some (tt, w')
    /\ log w' = log w ++ [EpRefresh EVENTIO_WRITE]
    /\ vc (st w') = vc (st w)
    /\ mutexes (st w') = mutexes (st w)
    /\ kernel (st w') = kernel (st w)
    /\ on_ready_list WriteVIO nh w'
       = nonzero (triggered (write (vc (st w)))) && nonzero (enabled (write (vc (st w))))
    /\ read_ready_list (handlers (st w') nh) = read_ready_list (handlers (st w) nh).
Proof.
  destruct w as [s l]. destruct s as [c hs ms cm k now me].
  unfold write_reschedule, ready_list_update, on_ready_list. run.
  destruct (nonzero (triggered (write c)) && nonzero (enabled (write c)));
    simpl; eexists; (split; [reflexivity|]); simpl; rewrite Nat.eqb_refl; simpl;
    rewrite ?queue_in_remove, ?queue_in_in_or_enqueue;
    (split; [reflexivity|]); (split; [reflexivity|]); (split; [reflexivity|]);
    (split; [reflexivity|]); split; reflexivity.
Qed.

(** X7.  A read pass or a write pass that finds the VIO's mutex held by
    another thread does not touch the socket, calls no handler and leaves
    the connection object, the locks and the pending kernel replies as they
    were.  It refreshes the polling interest of its direction and leaves the
    connection on the ready list of that direction exactly when the
    direction is both triggered and enabled. *)
Theorem pass_without_lock_reschedules :
  forall (v : VIORef) (nh : NetHandlerRef) (thread t2 : EThread)
         (vm : ProxyMutexRef) (w : World),
    vio_mutex (vio (STATE_FROM_VIO v (vc (st w)))) = Some vm ->
    thread_holding (mutexes (st w) vm) = Some t2 ->
    t2 <> thread ->
    exists w',
      match v with
      | ReadVIO => read_from_net nh thread w
      | WriteVIO => write_to_net_io nh thread w
      end = Some (tt, w')
      /\ log w' = log w ++ [EpRefresh (interest v)]
      /\ vc (st w') = vc (st w)
      /\ mutexes (st w') = mutexes (st w)
      /\ kernel (st w') = kernel (st w)
      /\ on_ready_list v nh w'
         = nonzero (triggered (STATE_FROM_VIO v (vc (st w))))
           && nonzero (enabled (STATE_FROM_VIO v (vc (st w)))).
Proof.
  intros v nh thread t2 vm w Hvm Hheld Hne.
  pose proof (trylock_fails vm thread t2 w Hheld Hne) as Hfail.
  destruct v; simpl in Hvm |- *.
  - destruct (read_reschedule_effect nh w) as (w' & Hr & H1 & H2 & H3 & H4 & H5 & _).
    exists w'. split.
    + unfold read_from_net. unfold bind at 1. unfold gets at 1. rewrite Hvm.
      unfold MUTEX_TRY_LOCK. rewrite (bind_some _ _ _ _ _ Hfail). exact Hr.
    + split; [exact H1|]. split; [exact H2|]. split; [exact H3|].
      split; [exact H4|exact H5].
  - destruct (write_reschedule_effect nh w) as (w' & Hr & H1 & H2 & H3 & H4 & H5 & _).
    exists w'. split.
    + unfold write_to_net_io. unfold bind at 1. unfold gets at 1. rewrite Hvm.
      unfold MUTEX_TRY_LOCK. rewrite (bind_some _ _ _ _ _ Hfail).
      unfold bind at 1. unfold gets at 1. exact Hr.
    + split; [exact H1|]. split; [exact H2|]. split; [exact H3|].
      split; [exact H4|exact H5].
Qed.

(** ** A read pass on a connection marked closed *)

(** X8.  A read pass by the connection's own thread on a connection whose
    [closed] flag is set -- a close that [do_io_close] could only record --
    completes the close: with the VIO's lock taken, the pass performs the
    close actions and nothing else.  Nothing is read from the socket, no
    pending reply of the kernel is used, and no handler is called, whatever
    the state of the read VIO. *)
Theorem read_pass_completes_close :
  forall (nh0 : NetHandlerRef) (thread0 : EThread) (vm : ProxyMutexRef) (w : World),
    vio_mutex (vio (read (vc (st w)))) = Some vm ->
    can_lock (st w) vm thread0 ->
    closed (vc (st w)) <> 0 ->
    thread (vc (st w)) = Some thread0 ->
    this_ethread (st w) = thread0 ->
    exists w',
      read_from_net nh0 thread0 w = Some (tt, w')
      /\ log w' = log w ++ close_actions (vc (st w))
      /\ kernel (st w') = kernel (st w)
      /\ nh (vc (st w')) = None
      /\ con_fd (vc (st w')) = NO_FD.
Proof.
  intros nh0 thread0 vm w Hm Hlock Hc Hth Hme.
  unfold read_from_net. unfold bind at 1. unfold gets at 1. rewrite Hm.
  match goal with
  | |- context [MUTEX_TRY_LOCK (Some vm) thread0 ?b w] =>
      destruct (MUTEX_TRY_LOCK_ok vm thread0 b w Hlock)
        as (w1 & (Hvc & Hh & Hk & _ & He & Hl) & Heq)
  end.
  rewrite Heq. clear Heq.
  unfold bind at 1. unfold bind at 1. unfold gets at 1.
  rewrite Hvc, (nonzero_true _ Hc).
  pose proof (close_log (Some thread0) w1) as Hcl.
  pose proof (close_state w1 nh0) as Hst.
  rewrite Hvc, Hth in Hst.
  destruct (close_UnixNetVConnection (Some thread0) w1) as [[[] w2]|].
  2:{ exfalso. destruct Hcl as [Hcl|Hcl]; apply Hcl.
      - rewrite Hvc. exact Hth.
      - rewrite He, Hme. reflexivity. }
  destruct Hcl as (L1 & _ & _ & L2 & L3 & _). destruct Hst as (K & _).
  destruct (unlock_ok vm w2) as (w3 & Hu & (Hvc3 & Hh3 & Hk3 & _ & _ & Hl3)).
  rewrite (bind_some _ _ _ _ _ Hu). unfold ret.
  exists w3. split; [reflexivity|].
  rewrite Hl3, Hk3, Hvc3, L1, Hl, Hvc.
  split; [reflexivity|]. split; [|split; [exact L2|exact L3]].
  rewrite <- Hk. exact K.
Qed.

(** ** Timer events *)

Lemma trylock_total (m : ProxyMutexRef) (t : EThread) (w : World) :
  exists b w1, Mutex_trylock m t w = Some (b, w1) /\ same_but_locks w w1.
Proof.
  destruct w as [s l]. unfold Mutex_trylock, same_but_locks. run.
  destruct (thread_holding (mutexes s m)) as [t'|]; simpl.
  - destruct (Nat.eqb t' t); simpl; do 2 eexists; (split; [reflexivity|]);
      simpl; auto 10.
  - do 2 eexists; (split; [reflexivity|]); simpl; auto 10.
Qed.

(** A scoped try-lock around a body that yields [a] and logs [l] whether
    or not the lock was taken. *)
Lemma MUTEX_TRY_LOCK_any {A} (m : ProxyMutexRef) (t : EThread)
    (body : option ProxyMutexRef -> Net A) (a : A) (l : list Action) (w : World) :
  (forall lock w1, same_but_locks w w1 ->
     exists w2, body lock w1 = Some (a, w2)
                /\ same_but_locks (mkWorld (st w) (log w ++ l)) w2) ->
  exists w', MUTEX_TRY_LOCK (Some m) t body w = Some (a, w')
             /\ same_but_locks (mkWorld (st w) (log w ++ l)) w'.
Proof.
  intro Hb. unfold MUTEX_TRY_LOCK.
  destruct (trylock_total m t w) as (b & w1 & Hl & Hs).
  rewrite (bind_some _ _ _ _ _ Hl).
  destruct (Hb (if b then Some m else None) w1 Hs) as (w2 & Hbody & Hs2).
  destruct b.
  - rewrite (bind_some _ _ _ _ _ Hbody).
    destruct (unlock_ok m w2) as (w3 & Hu & Hs3).
    rewrite (bind_some _ _ _ _ _ Hu). unfold ret.
    exists w3. split; [reflexivity|].
    exact (same_but_locks_trans _ _ _ Hs2 Hs3).
  - exists w2. split; [exact Hbody|exact Hs2].
Qed.

(** X9.  A timer event that finds the NetHandler's mutex held by another
    thread is put off: [mainEvent] asks for the event to be scheduled
    again and yields [EVENT_CONT], whether or not it gets the two VIO locks
    and whatever timeout is due.  Nothing is signalled or closed; the
    connection, the handlers and the kernel's replies are as before. *)
Theorem mainEvent_retries_without_handler_lock :
  forall (event : Z) (e : Event) (th t2 : EThread) (w : World),
    thread (vc (st w)) = Some th ->
    thread_holding
      (mutexes (st w) (nh_mutex (handlers (st w) (get_NetHandler th)))) = Some t2 ->
    t2 <> ethread e ->
    exists w',
      mainEvent event e w = Some (EVENT_CONT, w')
      /\ log w' = log w ++ [ScheduleRetry]
      /\ vc (st w') = vc (st w)
      /\ handlers (st w') = handlers (st w)
      /\ kernel (st w') = kernel (st w).
Proof.
  intros event e th t2 w Hth Hheld Hne.
  unfold mainEvent. unfold bind at 1. unfold gets at 1. rewrite Hth.
  unfold bind at 1. unfold gets at 1.
  unfold MUTEX_TRY_LOCK at 1.
  rewrite (bind_some _ _ _ _ _ (trylock_fails _ (ethread e) t2 w Hheld Hne)).
  match goal with
  | |- context [MUTEX_TRY_LOCK (Some ?m) ?t ?b w] =>
      destruct (MUTEX_TRY_LOCK_any m t b EVENT_CONT [ScheduleRetry] w) as (w' & Hr & Hs)
  end.
  { intros rlock w1 Hs1.
    match goal with
    | |- context [MUTEX_TRY_LOCK (Some ?m) ?t ?b w1] =>
        destruct (MUTEX_TRY_LOCK_any m t b EVENT_CONT [ScheduleRetry] w1)
          as (w2 & Hr & Hs2)
    end.
    - intros wlock w2 Hs2. unfold bind, gets, emit, ret. simpl.
      eexists. split; [reflexivity|].
      destruct Hs2 as (A1 & A2 & A3 & A4 & A5 & A6).
      unfold same_but_locks. simpl. rewrite A6.
      split; [exact A1|]. split; [exact A2|]. split; [exact A3|].
      split; [exact A4|]. split; [exact A5|reflexivity].
    - exists w2. split; [exact Hr|].
      destruct Hs1 as (A1 & A2 & A3 & A4 & A5 & A6).
      destruct Hs2 as (B1 & B2 & B3 & B4 & B5 & B6).
      unfold same_but_locks. simpl in *.
      rewrite B1, B2, B3, B4, B5, B6, A1, A2, A3, A4, A5, A6.
      split; [reflexivity|]. split; [reflexivity|]. split; [reflexivity|].
      split; [reflexivity|]. split; reflexivity. }
  exists w'. split; [exact Hr|].
  destruct Hs as (B1 & B2 & B3 & B4 & B5 & B6). simpl in B1, B2, B3, B6.
  split; [exact B6|]. split; [exact B1|]. split; [exact B2|exact B3].
Qed.






(** X11.  One run of [mainEvent] calls the handler of no continuation
    more than once: a continuation that serves both the read and the write
    VIO is told about a timeout a single time. *)
Theorem timer_event_calls_each_handler_once :
  forall (event : Z) (e : Event) (w : World) (res : Z) (w' : World),
    mainEvent event e w = Some (res, w') ->
    exists l,
      log w' = log w ++ l
      /\ forall k, (deliveries k l <= 1)%nat.
Proof.
  intros event e w res w' H.
  exact (mainEvent_delivers_once event e w res w' H).
Qed.

(** ** A write that would block *)



(** ** Setting up a VIO without work *)

(** X13.  On an open connection, [do_io_read] without a buffer and
    [do_io_write] without a reader set up the VIO (operation, continuation,
    the continuation's mutex or the connection's, [nbytes], [ndone = 0])
    and leave the direction disabled; nothing is polled or logged.
    [do_io_read] clears the buffer accessor, [do_io_write] keeps the one it
    had.  [do_io_write] with a reader but [nbytes = 0] installs the reader
    and does not re-enable: [write.enabled] stays as it was. *)
Theorem do_io_without_work :
  forall (c : option Continuation) (n : Z) (owner : bool) (rd : IOBufferReader)
         (w : World),
    closed (vc (st w)) = 0 ->
    let cm := match c with
              | Some k => cont_mutex (st w) k
              | None => mutex (vc (st w))
              end in
    (exists w',
       do_io_read c n None w = Some (Some ReadVIO, w')
       /\ log w' = log w
       /\ enabled (read (vc (st w'))) = 0
       /\ vio (read (vc (st w'))) = mkVIO VIO_READ n 0 c cm accessor_clear true
       /\ write (vc (st w')) = write (vc (st w))
       /\ handlers (st w') = handlers (st w))
    /\ (exists w',
          do_io_write c n None owner w = Some (Some WriteVIO, w')
          /\ log w' = log w
          /\ enabled (write (vc (st w'))) = 0
          /\ vio (write (vc (st w')))
             = mkVIO VIO_WRITE n 0 c cm (buffer (vio (write (vc (st w))))) true
          /\ read (vc (st w')) = read (vc (st w))
          /\ handlers (st w') = handlers (st w))
    /\ (exists w',
          do_io_write c 0 (Some rd) owner w = Some (Some WriteVIO, w')
          /\ log w' = log w
          /\ enabled (write (vc (st w'))) = enabled (write (vc (st w)))
          /\ vio (write (vc (st w')))
             = mkVIO VIO_WRITE 0 0 c cm (reader_for rd) true
          /\ read (vc (st w')) = read (vc (st w))
          /\ handlers (st w') = handlers (st w)).
Proof.
  intros c n owner rd w Hc cm. subst cm.
  destruct w as [s l]. destruct s as [v hs ms cm k now me]. simpl in Hc.
  unfold do_io_read, do_io_write. run. rewrite Hc. simpl.
  split; [|split].
  - eexists. split; [reflexivity|]. simpl.
    split; [reflexivity|]. split; [reflexivity|].
    split; [destruct c; reflexivity|]. split; reflexivity.
  - eexists. split; [reflexivity|]. simpl.
    split; [reflexivity|]. split; [reflexivity|].
    split; [destruct c; reflexivity|]. split; reflexivity.
  - eexists. split; [reflexivity|]. simpl.
    split; [reflexivity|]. split; [reflexivity|].
    split; [destruct c; reflexivity|]. split; reflexivity.
Qed.

(** ** Timeouts after a shutdown of both halves *)

(** X14.  After [do_io_shutdown(IO_SHUTDOWN_READWRITE)] on an open
    connection a timeout reaches nobody: the signalling part of
    [mainEvent] disarms the deadline and yields [EVENT_DONE] without
    calling the read or the write continuation and without closing the
    connection, whatever the two VIOs were set up for. *)
Theorem timeout_after_full_shutdown_is_silent :
  forall (signal_event : Z) (d : Deadline) (w : World),
    closed (vc (st w)) = 0 ->
    exists w',
      (do_io_shutdown IO_SHUTDOWN_READWRITE ;;
       mainEvent_signal signal_event d)%net w = Some (EVENT_DONE, w')
      /\ log w' = log w ++ [SockShutdown (con_fd (vc (st w))) 2]
      /\ deadline d (vc (st w')) = 0
      /\ closed (vc (st w')) = 0
      /\ enabled (read (vc (st w'))) = 0
      /\ enabled (write (vc (st w'))) = 0
      /\ handlers (st w') = handlers (st w).
Proof.
  intros signal_event d w Hc.
  destruct w as [s l]. destruct s as [c hs ms cm k now me]. simpl in Hc.
  unfold do_io_shutdown, mainEvent_signal, write_side_due. run.
  destruct d; simpl; rewrite Hc; simpl;
    rewrite ?andb_false_r; simpl;
    eexists; (split; [reflexivity|]); simpl;
    (split; [reflexivity|]); (split; [reflexivity|]); (split; [exact Hc|]);
    (split; [reflexivity|]); split; reflexivity.
Qed.

(** ** [reenable_re] on a direction that is enabled already *)

(** X15.  Unlike [reenable], [reenable_re] does not look at the [enabled]
    flag.  Called by the thread that holds the VIO's mutex and the
    NetHandler's, on a direction that is enabled but not triggered,
    [reenable] returns at once and changes nothing, whereas [reenable_re]
    installs the polling interest again ([ep.modify], [ep.refresh]) and
    takes the connection off the ready list. *)
Theorem reenable_re_ignores_enabled :
  forall (v : VIORef) (h : NetHandlerRef) (t : EThread) (vm : ProxyMutexRef)
         (w : World),
    thread (vc (st w)) <> None ->
    nh (vc (st w)) = Some h ->
    vio_mutex (vio (STATE_FROM_VIO v (vc (st w)))) = Some vm ->
    thread_holding (mutexes (st w) vm) = Some t ->
    holds_nh_mutex (st w) h t ->
    enabled (STATE_FROM_VIO v (vc (st w))) <> 0 ->
    triggered (STATE_FROM_VIO v (vc (st w))) = 0 ->
    reenable v w = Some (tt, w)
    /\ exists w',
         reenable_re v w = Some (tt, w')
         /\ log w' = log w ++ [EpModify (interest v); EpRefresh (interest v)]
         /\ enabled (STATE_FROM_VIO v (vc (st w'))) = 1
         /\ on_ready_list v h w' = false
         /\ mutexes (st w') = mutexes (st w).
Proof.
  intros v h t vm w Hth Hnh Hvm Hheld Hown He Htr.
  split.
  { unfold reenable, bind, gets. rewrite (nonzero_true _ He). reflexivity. }
  unfold holds_nh_mutex in Hown.
  unfold reenable_re. unfold bind at 1. unfold gets at 1.
  destruct (thread (vc (st w))) as [th|]; [|now elim Hth].
  rewrite Hvm. unfold bind at 1. unfold gets at 1. rewrite Hheld, Hnh.
  unfold bind at 1. unfold gets at 1. unfold bind at 1. unfold gets at 1.
  rewrite Hown, opt_nat_eqb_refl.
  destruct (set_enabled_spec v w)
    as (w1 & Hs & Hl1 & Hen & Htr1 & Hvio & Ht1 & Hn1 & Ha1 & Hh1 & Hm1).
  rewrite (bind_some _ _ _ _ _ Hs).
  destruct w1 as [s1 l1]. destruct s1 as [c1 hs1 ms1 cm1 k1 now1 me1].
  simpl in Hl1, Hen, Htr1, Hh1, Hm1, Ha1. rewrite Htr in Htr1.
  destruct v; simpl in Htr1, Hen |- *; unfold ready_list_update; run;
    rewrite Htr1; simpl;
    eexists; (split; [reflexivity|]); simpl; rewrite Nat.eqb_refl; simpl;
    rewrite queue_in_remove, Hl1, <- app_assoc;
    (split; [reflexivity|]); (split; [exact Hen|]); (split; [reflexivity|]);
    exact Hm1.
Qed.

(** ** A read pass that receives bytes *)

Lemma read_received_unfold (nh : NetHandlerRef) (lock : option ProxyMutexRef)
    (r : Z) (m : MIOBuffer) (w : World) :
  writer (buffer (vio (read (vc (st w))))) = Some m ->
  exists w3,
    read_received nh lock r w = read_signal_ready nh lock r w3
    /\ log w3 = log w
    /\ ndone (vio (read (vc (st w3)))) = ndone (vio (read (vc (st w)))) + r
    /\ nbytes (vio (read (vc (st w3)))) = nbytes (vio (read (vc (st w))))
    /\ op (vio (read (vc (st w3)))) = op (vio (read (vc (st w))))
    /\ _cont (vio (read (vc (st w3)))) = _cont (vio (read (vc (st w))))
    /\ writer (buffer (vio (read (vc (st w3))))) = Some (fill r m)
    /\ next_inactivity_timeout_at (vc (st w3))
       = (if nonzero (inactivity_timeout_in (vc (st w)))
          then hrtime (st w) + inactivity_timeout_in (vc (st w)) else 0).
Proof.
  intro Hm. destruct w as [s l]. destruct s as [c hs ms cm k now me].
  simpl in Hm. unfold read_received, net_activity. run.
  destruct (nonzero (inactivity_timeout_in c)); simpl;
    eexists; (split; [reflexivity|]); simpl; rewrite Hm; simpl;
    (split; [reflexivity|]); (split; [reflexivity|]); (split; [reflexivity|]);
    (split; [reflexivity|]); (split; [reflexivity|]); split; reflexivity.
Qed.

Lemma read_finish_log (nh : NetHandlerRef) (w : World) :
  match read_finish nh w with
  | Some (_, w') => exists tail, log w' = log w ++ tail /\ Forall quiet_action tail
  | None => True
  end.
Proof.
  unfold read_finish. unfold bind at 1. unfold gets at 1. cbv beta match zeta.
  assert (Hd : match read_disable nh w with
               | Some (_, w') =>
                   exists tail, log w' = log w ++ tail /\ Forall quiet_action tail
               | None => True
               end).
  { destruct (read_disable_spec nh w) as (w' & Hd & Hl & _). rewrite Hd.
    eexists. split; [exact Hl|]. repeat constructor. }
  assert (Hr : match read_reschedule nh w with
               | Some (_, w') =>
                   exists tail, log w' = log w ++ tail /\ Forall quiet_action tail
               | None => True
               end).
  { destruct (read_reschedule_log nh w) as (w' & Hr & Hl & _). rewrite Hr.
    eexists. split; [exact Hl|]. repeat constructor. }
  destruct (_ || _); [exact Hd|].
  destruct (writer (buffer (vio (read (vc (st w)))))) as [m|]; [|exact I].
  destruct (write_avail m =? 0); [exact Hd|exact Hr].
Qed.

(** The signal of a pass that moved bytes: the event, then nothing but
    rescheduling, disabling or the close. *)
Lemma read_signal_ready_log (nh : NetHandlerRef) (lock : option ProxyMutexRef)
    (r : Z) (w : World) :
  r <> 0 ->
  match read_signal_ready nh lock r w with
  | Some (_, w') =>
      exists tail,
        log w' = log w
                 ++ signal_entry (_cont (vio (read (vc (st w)))))
                      (if ntodo (vio (read (vc (st w)))) <=? 0
                       then VC_EVENT_READ_COMPLETE else VC_EVENT_READ_READY)
                      ReadVIO :: tail
        /\ Forall quiet_action tail
  | None => True
  end.
Proof.
  intro Hr. unfold read_signal_ready. rewrite (nonzero_true _ Hr).
  unfold bind at 1. unfold gets at 1. cbv beta match.
  destruct (ntodo (vio (read (vc (st w)))) <=? 0).
  - unfold bind at 1.
    pose proof (read_signal_done_log VC_EVENT_READ_COMPLETE nh w) as H.
    destruct (read_signal_done VC_EVENT_READ_COMPLETE nh w) as [[e w1]|]; [|exact I].
    unfold ret. exact H.
  - unfold bind at 1.
    pose proof (read_signal_and_update_log VC_EVENT_READ_READY w) as H.
    unfold signal_logged in H.
    destruct (read_signal_and_update VC_EVENT_READ_READY w) as [[e w1]|]; [|exact I].
    destruct H as (tail & Hl & Hq & He).
    destruct (negb (e =? EVENT_CONT)).
    + unfold ret. exists tail. split; [exact Hl|exact Hq].
    + unfold bind at 1. unfold gets at 1. cbv beta match.
      assert (Hadd : forall (m : Net unit),
                match m w1 with
                | Some (_, w') =>
                    exists t2, log w' = log w1 ++ t2 /\ Forall quiet_action t2
                | None => True
                end ->
                match m w1 with
                | Some (_, w') =>
                    exists tail0,
                      log w' = log w
                               ++ signal_entry (_cont (vio (read (vc (st w)))))
                                    VC_EVENT_READ_READY ReadVIO :: tail0
                      /\ Forall quiet_action tail0
                | None => True
                end).
      { intros m Hm. destruct (m w1) as [[[] w2]|]; [|exact I].
        destruct Hm as (t2 & Hl2 & Hq2). exists (tail ++ t2).
        split; [rewrite Hl2, Hl, <- app_assoc; reflexivity|].
        apply Forall_app. split; assumption. }
      destruct (negb (opt_nat_eqb lock (vio_mutex (vio (read (vc (st w1))))))).
      * apply Hadd.
        destruct (read_reschedule_log nh w1) as (w' & Hrr & Hl2 & _). rewrite Hrr.
        eexists. split; [exact Hl2|]. repeat constructor.
      * apply Hadd. apply read_finish_log.
Qed.

(** X16.  A read pass that reaches the socket and gets [r > 0] bytes
    accounts for them before anybody is told: the writer is filled by [r]
    bytes, [ndone] grows by [r] and the inactivity deadline is pushed back
    (or cleared when the connection has no inactivity timeout), and only
    then the continuation is signalled -- [VC_EVENT_READ_COMPLETE] if this
    completes the VIO, [VC_EVENT_READ_READY] otherwise.  The signal is the
    first log entry after the socket calls; what follows it is
    rescheduling, disabling or a close, never a second signal. *)
Theorem read_bytes_accounted_then_signalled :
  forall (nh : NetHandlerRef) (thread : EThread) (vm : ProxyMutexRef)
         (m : MIOBuffer) (w : World),
    read_pass_ready thread vm m (st w) ->
    toread_of (st w) m <> 0 ->
    exists r w1 w2,
      same_but_locks w w1
      /\ read_data (toread_of (st w) m) m w1 = Some (r, w2)
      /\ (0 < r ->
          exists w3,
            log w3 = log w2
            /\ ndone (vio (read (vc (st w3)))) = ndone (vio (read (vc (st w)))) + r
            /\ writer (buffer (vio (read (vc (st w3))))) = Some (fill r m)
            /\ next_inactivity_timeout_at (vc (st w3))
               = (if nonzero (inactivity_timeout_in (vc (st w)))
                  then hrtime (st w) + inactivity_timeout_in (vc (st w)) else 0)
            /\ read_from_net nh thread w
               = (a <- read_signal_ready nh (Some vm) r ;; Mutex_unlock vm ;; ret a) w3
            /\ forall w',
                 read_from_net nh thread w = Some (tt, w') ->
                 exists tail,
                   log w' = log w2
                            ++ signal_entry (_cont (vio (read (vc (st w)))))
                                 (if nbytes (vio (read (vc (st w))))
                                     <=? ndone (vio (read (vc (st w)))) + r
                                  then VC_EVENT_READ_COMPLETE
                                  else VC_EVENT_READ_READY) ReadVIO :: tail
                   /\ Forall quiet_action tail).
Proof.
  intros nh thread vm m w Hready Ht.
  destruct (read_pass_unfold nh thread vm m w Hready Ht) as (w1 & Hs1 & Heq).
  destruct (read_data_spec (toread_of (st w) m) m w1)
    as (last & ra & tr & w2 & _ & Hd & _ & Hsock).
  exists (summarize tr ra last), w1, w2.
  set (r := summarize tr ra last) in Hd |- *.
  split; [exact Hs1|]. split; [exact Hd|].
  intro Hpos.
  destruct Hready as (Hm & Hlock & Hc & He & Hop & Hn & Hw).
  assert (Hvc : vc (st w2) = vc (st w)).
  { destruct Hsock as (Hv & _). destruct Hs1 as (Hv1 & _). now rewrite Hv, Hv1. }
  assert (Hnow : hrtime (st w2) = hrtime (st w)).
  { destruct Hsock as (_ & _ & _ & Hv & _).
    destruct Hs1 as (_ & _ & _ & Hv1 & _). now rewrite Hv, Hv1. }
  assert (Hw2 : writer (buffer (vio (read (vc (st w2))))) = Some m)
    by (rewrite Hvc; exact Hw).
  destruct (read_received_unfold nh (Some vm) r m w2 Hw2)
    as (w3 & Hrec & L3 & N3 & B3 & O3 & C3 & W3 & T3).
  rewrite Hvc in N3, B3, O3, C3, T3. rewrite Hnow in T3.
  assert (Heq2 : read_from_net nh thread w
                 = (a <- read_signal_ready nh (Some vm) r ;;
                    Mutex_unlock vm ;; ret a) w3).
  { rewrite Heq. unfold bind at 1. unfold bind at 1. rewrite Hd.
    destruct (Z.leb_spec r 0) as [Hle|_]; [lia|].
    rewrite Hrec. reflexivity. }
  exists w3. split; [exact L3|]. split; [exact N3|]. split; [exact W3|].
  split; [exact T3|]. split; [exact Heq2|].
  intros w' Hw'. rewrite Heq2 in Hw'.
  unfold bind at 1 in Hw'.
  assert (Hr0 : r <> 0) by lia.
  pose proof (read_signal_ready_log nh (Some vm) r w3 Hr0) as Hlog.
  destruct (read_signal_ready nh (Some vm) r w3) as [[[] w4]|]; [|discriminate].
  destruct (unlock_ok vm w4) as (w5 & Hu & (_ & _ & _ & _ & _ & Hl5)).
  rewrite (bind_some _ _ _ _ _ Hu) in Hw'. unfold ret in Hw'.
  inversion Hw'. subst w'.
  destruct Hlog as (tail & Hl & Hq). exists tail.
  split; [|exact Hq].
  rewrite Hl5, Hl, L3, C3.
  assert (Hnt : ntodo (vio (read (vc (st w3))))
                = nbytes (vio (read (vc (st w)))) - (ndone (vio (read (vc (st w)))) + r)).
  { unfold ntodo. rewrite O3, Hop, B3, N3. reflexivity. }
  rewrite Hnt.
  destruct (Z.leb_spec (nbytes (vio (read (vc (st w))))
                        - (ndone (vio (read (vc (st w)))) + r)) 0);
    destruct (Z.leb_spec (nbytes (vio (read (vc (st w)))))
                         (ndone (vio (read (vc (st w)))) + r));
    first [reflexivity|lia].
Qed.

(** ** A write pass that moved bytes *)

Lemma write_signal_done_log (event : Z) (nh : NetHandlerRef) (w : World) :
  match write_signal_done event nh w with
  | Some (e, w') =>
      exists tail,
        log w' = log w ++ signal_entry (_cont (vio (write (vc (st w))))) event WriteVIO
                           :: tail
        /\ Forall quiet_action tail
  | None => True
  end.
Proof.
  unfold write_signal_done. unfold bind at 1. unfold modify at 1.
  cbv beta match.
  match goal with
  | |- context [bind (write_signal_and_update event) _ ?w0] =>
      pose proof (write_signal_and_update_log event w0) as H;
      unfold bind at 1;
      destruct (write_signal_and_update event w0) as [[e w1]|]; [|exact I]
  end.
  simpl in H. destruct H as (tail & Hl & Hq & He).
  destruct (e =? EVENT_DONE).
  - unfold ret. exists tail. split; [exact Hl|exact Hq].
  - destruct (write_reschedule_effect nh w1) as (w2 & Hr & Hl2 & _).
    unfold bind. rewrite Hr. unfold ret.
    exists (tail ++ [EpRefresh EVENTIO_WRITE]).
    rewrite Hl2, Hl, <- app_assoc. simpl. split; [reflexivity|].
    apply Forall_app. split; [exact Hq|]. repeat constructor.
Qed.

Lemma write_disable_log (nh : NetHandlerRef) (w : World) :
  exists w', write_disable nh w = Some (tt, w')
             /\ log w' = log w ++ [EpModify (- EVENTIO_WRITE)].
Proof.
  destruct w as [s l]. unfold write_disable, ready_list_update. run.
  eexists. split; reflexivity.
Qed.

Lemma write_finish_log (nh : NetHandlerRef) (needs : Z) (w : World) :
  match write_finish nh needs w with
  | Some (_, w') => exists tail, log w' = log w ++ tail /\ Forall quiet_action tail
  | None => True
  end.
Proof.
  unfold write_finish. unfold bind at 1. unfold gets at 1. cbv beta match.
  destruct (reader (buffer (vio (write (vc (st w)))))) as [rd|]; [|exact I].
  destruct (read_avail rd =? 0).
  - destruct (write_disable_log nh w) as (w' & Hd & Hl). rewrite Hd.
    eexists. split; [exact Hl|]. repeat constructor.
  - unfold bind.
    destruct (needs_has needs EVENTIO_WRITE), (needs_has needs EVENTIO_READ).
    + destruct (write_reschedule_effect nh w) as (w1 & H1 & L1 & _). rewrite H1.
      destruct (read_reschedule_effect nh w1) as (w2 & H2 & L2 & _). rewrite H2.
      eexists. split; [rewrite L2, L1, <- app_assoc; reflexivity|].
      repeat constructor.
    + destruct (write_reschedule_effect nh w) as (w1 & H1 & L1 & _). rewrite H1.
      unfold ret. eexists. split; [exact L1|]. repeat constructor.
    + unfold ret.
      destruct (read_reschedule_effect nh w) as (w2 & H2 & L2 & _). rewrite H2.
      eexists. split; [exact L2|]. repeat constructor.
    + unfold ret. exists []. split; [rewrite app_nil_r; reflexivity|constructor].
Qed.

Lemma write_done_unfold (nh : NetHandlerRef) (lock : option ProxyMutexRef)
    (signalled : bool) (needs r : Z) (rd : IOBufferReader) (w : World) :
  reader (buffer (vio (write (vc (st w))))) = Some rd ->
  exists w3,
    write_done nh lock signalled needs r w
    = write_signal_ready nh lock signalled needs
        (write_buffer_empty_event (vc (st w))) w3
    /\ log w3 = log w
    /\ ndone (vio (write (vc (st w3)))) = ndone (vio (write (vc (st w)))) + r
    /\ nbytes (vio (write (vc (st w3)))) = nbytes (vio (write (vc (st w))))
    /\ op (vio (write (vc (st w3)))) = op (vio (write (vc (st w))))
    /\ _cont (vio (write (vc (st w3)))) = _cont (vio (write (vc (st w))))
    /\ reader (buffer (vio (write (vc (st w3))))) = Some (consume r rd)
    /\ write_buffer_empty_event (vc (st w3))
       = (if is_read_avail_more_than 0 (consume r rd)
          then write_buffer_empty_event (vc (st w)) else 0)
    /\ next_inactivity_timeout_at (vc (st w3))
       = (if nonzero (inactivity_timeout_in (vc (st w)))
          then hrtime (st w) + inactivity_timeout_in (vc (st w)) else 0).
Proof.
  intro Hrd. destruct w as [s l]. destruct s as [c hs ms cm k now me].
  simpl in Hrd.
  set (s0 := mkState c hs ms cm k now me).
  set (s2 := upd_write_vio (fun v => with_ndone (ndone v + r) v)
               (upd_write_vio
                  (fun v => with_buffer
                              (mkAccessor (writer (buffer v)) (Some (consume r rd))) v)
                  s0)).
  set (s3 := if is_read_avail_more_than 0 (consume r rd) then s2
             else upd_vc (with_write_buffer_empty_event 0) s2).
  exists (mkWorld
            (upd_vc (with_next_inactivity_timeout_at
                       (if nonzero (inactivity_timeout_in c)
                        then now + inactivity_timeout_in c else 0)) s3) l).
  split.
  { unfold write_done, net_activity.
    unfold bind at 1. unfold gets at 1. cbv beta match. cbn [st log vc].
    fold s0. replace (reader (buffer (vio (write (vc s0))))) with (Some rd).
    subst s3 s2 s0.
    destruct (is_read_avail_more_than 0 (consume r rd));
      destruct (nonzero (inactivity_timeout_in c)) eqn:En;
      unfold bind, gets, modify, ret; simpl; rewrite En; reflexivity. }
  subst s3 s2 s0. simpl.
  destruct (is_read_avail_more_than 0 (consume r rd));
    destruct (nonzero (inactivity_timeout_in c)); simpl;
    (split; [reflexivity|]); (split; [reflexivity|]);
    (split; [reflexivity|]); (split; [reflexivity|]); (split; [reflexivity|]);
    (split; [reflexivity|]); split; reflexivity.
Qed.

Lemma write_signal_ready_log (nh : NetHandlerRef) (lock : option ProxyMutexRef)
    (signalled : bool) (needs wbe_event : Z) (w : World) :
  match write_signal_ready nh lock signalled needs wbe_event w with
  | Some (_, w') =>
      exists tail,
        log w' = log w
                 ++ write_signals (_cont (vio (write (vc (st w))))) signalled
                      (ntodo (vio (write (vc (st w))))) wbe_event
                      (write_buffer_empty_event (vc (st w)))
                 ++ tail
        /\ Forall quiet_action tail
  | None => True
  end.
Proof.
  unfold write_signal_ready, write_signals.
  unfold bind at 1. unfold gets at 1. cbv beta match.
  assert (Hfin : forall w1 (pre : list Action),
            log w1 = log w ++ pre ->
            match write_finish nh needs w1 with
            | Some (_, w') =>
                exists tail, log w' = (log w ++ pre) ++ tail /\ Forall quiet_action tail
            | None => True
            end).
  { intros w1 pre Hl. pose proof (write_finish_log nh needs w1) as H.
    destruct (write_finish nh needs w1) as [[[] w2]|]; [|exact I].
    destruct H as (tail & Ht & Hq). exists tail. rewrite Ht, Hl.
    split; [reflexivity|exact Hq]. }
  assert (Hsig : forall event (k : World -> option (unit * World)),
            (forall w1 pre, log w1 = log w ++ pre ->
               match k w1 with
               | Some (_, w') =>
                   exists tail, log w' = (log w ++ pre) ++ tail
                                /\ Forall quiet_action tail
               | None => True
               end) ->
            match (e <- write_signal_and_update event ;;
                   if negb (e =? EVENT_CONT) then ret tt else k) w with
            | Some (_, w') =>
                exists tail,
                  log w' = log w
                           ++ [signal_entry (_cont (vio (write (vc (st w)))))
                                 event WriteVIO] ++ tail
                  /\ Forall quiet_action tail
            | None => True
            end).
  { intros event k Hk. unfold bind at 1.
    pose proof (write_signal_and_update_log event w) as H.
    unfold signal_logged in H.
    destruct (write_signal_and_update event w) as [[e w1]|]; [|exact I].
    destruct H as (tail & Hl & Hq & He).
    destruct (negb (e =? EVENT_CONT)).
    - unfold ret. exists tail. split; [exact Hl|exact Hq].
    - assert (Hl' : log w1 = log w ++ (signal_entry (_cont (vio (write (vc (st w)))))
                                         event WriteVIO :: tail)) by exact Hl.
      pose proof (Hk w1 _ Hl') as H.
      destruct (k w1) as [[[] w2]|]; [|exact I].
      destruct H as (t2 & Ht2 & Hq2). exists (tail ++ t2).
      split; [rewrite Ht2, <- app_assoc; reflexivity|].
      apply Forall_app. split; assumption. }
  destruct (ntodo (vio (write (vc (st w)))) <=? 0).
  - unfold bind at 1.
    pose proof (write_signal_done_log VC_EVENT_WRITE_COMPLETE nh w) as H.
    destruct (write_signal_done VC_EVENT_WRITE_COMPLETE nh w) as [[e w1]|]; [|exact I].
    unfold ret. exact H.
  - destruct signalled; cbn [andb negb].
    + destruct (wbe_event =? write_buffer_empty_event (vc (st w))); cbn [negb].
      * pose proof (Hfin w [] (eq_sym (app_nil_r _))) as H.
        destruct (write_finish nh needs w) as [[[] w2]|]; [|exact I].
        destruct H as (tail & Ht & Hq). exists tail.
        rewrite app_nil_r in Ht. split; [exact Ht|exact Hq].
      * apply (Hsig wbe_event (write_finish nh needs)). exact Hfin.
    + apply (Hsig VC_EVENT_WRITE_READY
               (c2 <- gets vc ;;
                if negb (opt_nat_eqb lock (vio_mutex (vio (write c2))))
                then write_reschedule nh
                else write_finish nh needs)).
      intros w1 pre Hl. unfold bind at 1. unfold gets at 1. cbv beta match.
      destruct (negb (opt_nat_eqb lock (vio_mutex (vio (write (vc (st w1))))))).
      * destruct (write_reschedule_effect nh w1) as (w2 & Hr & L2 & _). rewrite Hr.
        eexists. split; [rewrite L2, Hl; reflexivity|]. repeat constructor.
      * apply Hfin. exact Hl.
Qed.

(** X17.  A write pass that wrote [r] bytes accounts for them before
    anybody is told: the reader is advanced by [r], [ndone] grows by [r],
    the write-buffer-empty trap is cleared when the reader has nothing
    left, and the inactivity deadline is pushed back.  Then at most one
    write event goes out: [VC_EVENT_WRITE_COMPLETE] when the VIO is done;
    otherwise, when [VC_EVENT_WRITE_READY] was signalled earlier in the
    pass, the trap event if the trap was sprung by this write and nothing
    if not; otherwise [VC_EVENT_WRITE_READY] -- in which case a sprung
    trap is cleared without its event.  What follows is rescheduling,
    disabling or a close. *)
Theorem write_bytes_accounted_then_signalled :
  forall (nh : NetHandlerRef) (lock : option ProxyMutexRef) (signalled : bool)
         (needs r : Z) (rd : IOBufferReader) (w : World),
    reader (buffer (vio (write (vc (st w))))) = Some rd ->
    op (vio (write (vc (st w)))) = VIO_WRITE ->
    let wbe_event := write_buffer_empty_event (vc (st w)) in
    let wbe_now := if is_read_avail_more_than 0 (consume r rd) then wbe_event else 0 in
    exists w3,
      write_done nh lock signalled needs r w
      = write_signal_ready nh lock signalled needs wbe_event w3
      /\ log w3 = log w
      /\ ndone (vio (write (vc (st w3)))) = ndone (vio (write (vc (st w)))) + r
      /\ reader (buffer (vio (write (vc (st w3))))) = Some (consume r rd)
      /\ write_buffer_empty_event (vc (st w3)) = wbe_now
      /\ next_inactivity_timeout_at (vc (st w3))
         = (if nonzero (inactivity_timeout_in (vc (st w)))
            then hrtime (st w) + inactivity_timeout_in (vc (st w)) else 0)
      /\ forall w',
           write_done nh lock signalled needs r w = Some (tt, w') ->
           exists tail,
             log w' = log w
                      ++ write_signals (_cont (vio (write (vc (st w))))) signalled
                           (nbytes (vio (write (vc (st w))))
                            - (ndone (vio (write (vc (st w)))) + r))
                           wbe_event wbe_now
                      ++ tail
             /\ Forall quiet_action tail.
Proof.
  intros nh lock signalled needs r rd w Hrd Hop wbe_event wbe_now.
  subst wbe_event wbe_now.
  destruct (write_done_unfold nh lock signalled needs r rd w Hrd)
    as (w3 & Heq & L3 & N3 & B3 & O3 & C3 & R3 & W3 & T3).
  exists w3. split; [exact Heq|]. split; [exact L3|]. split; [exact N3|].
  split; [exact R3|]. split; [exact W3|]. split; [exact T3|].
  intros w' Hw'. rewrite Heq in Hw'.
  pose proof (write_signal_ready_log nh lock signalled needs
                (write_buffer_empty_event (vc (st w))) w3) as Hlog.
  rewrite Hw' in Hlog. destruct Hlog as (tail & Hl & Hq).
  exists tail. split; [|exact Hq].
  rewrite Hl, L3, C3, W3.
  assert (Hnt : ntodo (vio (write (vc (st w3))))
                = nbytes (vio (write (vc (st w))))
                  - (ndone (vio (write (vc (st w)))) + r)).
  { unfold ntodo. rewrite O3, Hop, B3, N3. reflexivity. }
  rewrite Hnt. reflexivity.
Qed.

End Code.

(** ** Instances on the sample objects *)

Lemma do_io_on_closed_vc_witness :
  let w := sample_world (with_closed 1 sample_vc) [] in
  closed (vc (st w)) <> 0
  /\ do_io_read (Some 2%nat) 100 (Some sample_buffer) w
     = Some (None, mkWorld (st w) [ErrorClosedVC ReadVIO])
  /\ do_io_write (Some 3%nat) 100 None false w
     = Some (None, mkWorld (st w) [ErrorClosedVC WriteVIO]).
Proof.
  intro w.
  assert (H : closed (vc (st w)) <> 0) by (vm_compute; discriminate).
  split; [exact H|].
  exact (do_io_on_closed_vc (Some 2%nat) 100 (Some sample_buffer) None false w H).
Defined.

Lemma null_cont_signal_closes_witness :
  let w := sample_world sample_vc [] in
  _cont (vio (read (vc (st w)))) = None
  /\ null_cont_outcome ReadVIO (read_signal_deliver quiet)
       (read_signal_and_update quiet) VC_EVENT_EOS w.
Proof.
  intro w.
  assert (H : _cont (vio (read (vc (st w)))) = None) by reflexivity.
  split; [exact H|].
  exact (proj1 (null_cont_signal_closes quiet VC_EVENT_EOS w (or_introl eq_refl)) H).
Defined.

Lemma reenable_when_disabled_witness :
  let w := sample_world_locked
             (with_read (with_enabled 0 (reading 100 sample_buffer)) sample_vc)
             [102%nat; 9%nat] in
  reenable_caller ReadVIO 1%nat 1%nat (st w)
  /\ enabled (read (vc (st w))) = 0
  /\ exists w', reenable ReadVIO w = Some (tt, w') /\ reenabled ReadVIO 1%nat w w'.
Proof.
  intro w.
  assert (H : reenable_caller ReadVIO 1%nat 1%nat (st w)).
  { split; [vm_compute; discriminate|]. split; [reflexivity|].
    split; [exists 102%nat; split; reflexivity|]. left. reflexivity. }
  assert (E : enabled (read (vc (st w))) = 0) by reflexivity.
  split; [exact H|]. split; [exact E|].
  exact (proj1 (reenable_when_disabled ReadVIO 1%nat 1%nat w H) E).
Defined.

(** C5, counterexample.  The read side is already enabled and triggered,
    the connection is not on the ready list, and the caller holds both the
    VIO's mutex and the NetHandler's: [reenable] returns at once, so
    neither [ep.modify] nor [ep.refresh] is called. *)
Lemma reenable_already_enabled_counterexample :
  ~ reenable_always ReadVIO 1%nat 1%nat
      (sample_world_locked (with_read (reading 100 sample_buffer) sample_vc)
         [102%nat; 9%nat]).
Proof.
  unfold reenable_always. intro H.
  destruct H as (w' & Hre & _ & Hlog & _).
  - split; [vm_compute; discriminate|]. split; [reflexivity|].
    split; [exists 102%nat; split; reflexivity|]. left. reflexivity.
  - vm_compute in Hre. inversion Hre. subst w'. simpl in Hlog. discriminate.
Qed.

Lemma empty_read_disables_witness :
  let full := mkMIOBuffer [mkBlock 0 4 4] in
  let w := sample_world (with_read (reading 100 full) sample_vc) [KBytes 5] in
  read_pass_ready 1%nat 102%nat full (st w)
  /\ write_avail full = 0
  /\ exists w',
       read_from_net 16%nat quiet 1%nat 1%nat w = Some (tt, w')
       /\ log w' = log w ++ [EpModify (- EVENTIO_READ)]
       /\ kernel (st w') = kernel (st w)
       /\ enabled (read (vc (st w'))) = 0
       /\ on_ready_list ReadVIO 1%nat w' = false.
Proof.
  intros full w.
  assert (H : read_pass_ready 1%nat 102%nat full (st w)).
  { split; [reflexivity|]. split; [left; reflexivity|]. split; [reflexivity|].
    split; [vm_compute; discriminate|]. split; [reflexivity|].
    split; [reflexivity|reflexivity]. }
  assert (E : write_avail full = 0) by reflexivity.
  split; [exact H|]. split; [exact E|].
  exact (empty_read_disables 16%nat quiet 1%nat 1%nat 102%nat full w H E).
Defined.

Lemma read_result_classified_witness :
  let w := sample_world (with_read (reading 100 sample_buffer) sample_vc)
             [KErrno 11] in
  read_pass_ready 1%nat 102%nat sample_buffer (st w)
  /\ toread_of (st w) sample_buffer <> 0
  /\ exists r w1 w2,
       same_but_locks w w1
       /\ read_data 16%nat (toread_of (st w) sample_buffer) sample_buffer w1
          = Some (r, w2).
Proof.
  intro w.
  assert (H : read_pass_ready 1%nat 102%nat sample_buffer (st w)).
  { split; [reflexivity|]. split; [left; reflexivity|]. split; [reflexivity|].
    split; [vm_compute; discriminate|]. split; [reflexivity|].
    split; [reflexivity|reflexivity]. }
  assert (E : toread_of (st w) sample_buffer <> 0) by (vm_compute; discriminate).
  split; [exact H|]. split; [exact E|].
  destruct (read_result_classified 16%nat quiet 1%nat 1%nat 102%nat sample_buffer w H E)
    as (r & w1 & w2 & H1 & H2 & _).
  exists r, w1, w2. split; [exact H1|exact H2].
Defined.

Lemma timeout_write_side_signal_witness :
  let w := sample_world
             (with_write (writing 50) (with_read (reading 100 sample_buffer) sample_vc))
             [] in
  exists res w',
    mainEvent_signal quiet VC_EVENT_INACTIVITY_TIMEOUT Inactivity w = Some (res, w')
    /\ exists l, log w' = log w ++ l /\ forall k, (deliveries k l <= 1)%nat.
Proof.
  intro w.
  assert (H : exists res w',
             mainEvent_signal quiet VC_EVENT_INACTIVITY_TIMEOUT Inactivity w
             = Some (res, w')).
  { eexists. eexists. vm_compute. reflexivity. }
  destruct H as (res & w' & H).
  exists res, w'. split; [exact H|].
  destruct (timeout_write_side_signal quiet VC_EVENT_INACTIVITY_TIMEOUT Inactivity
              w res w' H) as (l & Hl & _ & Hd).
  exists l. split; [exact Hl|exact Hd].
Defined.

Lemma vio_invariant_preserved_witness :
  let w := sample_world (with_read (reading 100 sample_buffer) sample_vc)
             [KBytes 4; KBytes 3] in
  vio_invariant (st w)
  /\ (forall w', read_from_net 1%nat quiet 1%nat 1%nat w = Some (tt, w') ->
                 vio_invariant (st w')).
Proof.
  intro w.
  assert (H : vio_invariant (st w)).
  { split; left; vm_compute; discriminate. }
  split; [exact H|].
  refine (proj1 (vio_invariant_preserved 1%nat quiet (fun t => t) (fun _ => true)
                   (fun _ => false) handshake_done _ _ 1%nat 1%nat w H)).
  - intros k event v s s' Hs Eq. injection Eq as <-. exact Hs.
  - intros mode s Hs. exact Hs.
Defined.

(** ** Runs on the sample objects *)

(** With one region per call, a read of 10 bytes into blocks of 4, 0 and
    6 bytes makes two calls; the second is answered with 3 of the 6 bytes
    asked for, and the pass goes on with 4 + 3 = 7. *)
Example read_two_calls_short :
  let w := sample_world (with_read (reading 100 sample_buffer) sample_vc)
             [KBytes 4; KBytes 3] in
  option_map fst (read_loop 1 3 33 10 (first_write_block sample_buffer) 0 w)
  = Some (Some (3, 6, 10))
  /\ option_map fst (read_data 1 10 sample_buffer w) = Some 7.
Proof. split; reflexivity. Qed.

(** The same with an error in the second call: the 4 bytes of the first
    call are the result. *)
Example read_two_calls_error :
  let w := sample_world (with_read (reading 100 sample_buffer) sample_vc)
             [KBytes 4; KErrno 11] in
  option_map fst (read_loop 1 3 33 10 (first_write_block sample_buffer) 0 w)
  = Some (Some (-11, 6, 10))
  /\ option_map fst (read_data 1 10 sample_buffer w) = Some 4.
Proof. split; reflexivity. Qed.

(** An error in the only call of a pass is the result as it is. *)
Example read_one_call_error :
  let w := sample_world (with_read (reading 100 sample_buffer) sample_vc)
             [KErrno 11] in
  option_map fst (read_data 16 10 sample_buffer w) = Some (-11).
Proof. reflexivity. Qed.

(** A whole pass: 4 of 10 bytes arrive, the continuation is told
    [VC_EVENT_READ_READY] and the connection stays scheduled. *)
Example read_pass_run :
  let w := sample_world (with_read (reading 100 sample_buffer) sample_vc)
             [KBytes 4] in
  option_map (fun p => (log (snd p), ndone (vio (read (vc (st (snd p)))))))
    (read_from_net 16 quiet 1%nat 1%nat w)
  = Some ([SockReadv 33 [mkIOVec 0 4; mkIOVec 200 6];
           HandleEvent 2%nat VC_EVENT_READ_READY ReadVIO;
           EpRefresh EVENTIO_READ], 4).
Proof. reflexivity. Qed.

(** Shutting down the read half, then the write half, of the sample
    connection leaves [f.shutdown = NET_VC_SHUTDOWN_WRITE]. *)
Example shutdown_read_then_write_run :
  option_map (fun p => f_shutdown (vc (st (snd p))))
    ((do_io_shutdown IO_SHUTDOWN_READ ;; do_io_shutdown IO_SHUTDOWN_WRITE)%net
       (sample_world sample_vc []))
  = Some 2.
Proof. reflexivity. Qed.

(** ** Instances of the further properties *)

Lemma iovec_within_bounds_witness :
  0 < 10
  /\ (length (snd (fst (fill_tiovec 16 10 0 (first_write_block sample_buffer)
                          0 [] 0))) <= 16)%nat.
Proof.
  assert (H : 0 < 10) by reflexivity.
  split; [exact H|].
  pose proof (proj1 (iovec_within_bounds 16 10 0 (first_write_block sample_buffer)
                       0 H)) as P.
  exact (proj1 P).
Defined.


Lemma close_detaches_everywhere_witness :
  let w := sample_world sample_vc [] in
  nh (vc (st w)) = Some 1%nat
  /\ thread (vc (st w)) = Some (this_ethread (st w))
  /\ exists w',
       close_UnixNetVConnection (thread (vc (st w))) w = Some (tt, w')
       /\ on_no_list (addr (vc (st w))) (handlers (st w') 1%nat)
       /\ released (vc (st w')).
Proof.
  intro w.
  assert (H : nh (vc (st w)) = Some 1%nat) by reflexivity.
  assert (E : thread (vc (st w)) = Some (this_ethread (st w))) by reflexivity.
  split; [exact H|]. split; [exact E|].
  destruct (close_detaches_everywhere w 1%nat H E)
    as (w' & H1 & H2 & _ & _ & H3 & _).
  exists w'. split; [exact H1|]. split; [exact H2|exact H3].
Defined.

Lemma reenable_deferred_to_owner_witness :
  let w := sample_world_held
             (with_read (with_enabled 0 (reading 100 sample_buffer)) sample_vc)
             [102%nat] 1%nat [] in
  let w2 := mkWorld (upd_mutex 9%nat (fun _ => mkProxyMutex (Some 2%nat) 1) (st w)) [] in
  thread (vc (st w2)) <> None
  /\ nh (vc (st w2)) = Some 1%nat
  /\ vio_mutex (vio (STATE_FROM_VIO ReadVIO (vc (st w2)))) = Some 102%nat
  /\ thread_holding (mutexes (st w2) 102%nat) = Some 1%nat
  /\ thread_holding (mutexes (st w2) (nh_mutex (handlers (st w2) 1%nat))) = Some 2%nat
  /\ 2%nat <> 1%nat
  /\ enabled (STATE_FROM_VIO ReadVIO (vc (st w2))) = 0
  /\ exists w',
       reenable ReadVIO w2 = Some (tt, w')
       /\ enabled (STATE_FROM_VIO ReadVIO (vc (st w'))) = 1
       /\ enable_list ReadVIO (handlers (st w') 1%nat) = [7%nat].
Proof.
  intros w w2.
  assert (H1 : thread (vc (st w2)) <> None) by (vm_compute; discriminate).
  assert (H2 : nh (vc (st w2)) = Some 1%nat) by reflexivity.
  assert (H3 : vio_mutex (vio (STATE_FROM_VIO ReadVIO (vc (st w2)))) = Some 102%nat)
    by reflexivity.
  assert (H4 : thread_holding (mutexes (st w2) 102%nat) = Some 1%nat) by reflexivity.
  assert (H5 : thread_holding (mutexes (st w2) (nh_mutex (handlers (st w2) 1%nat)))
               = Some 2%nat) by reflexivity.
  assert (H6 : 2%nat <> 1%nat) by discriminate.
  assert (H7 : enabled (STATE_FROM_VIO ReadVIO (vc (st w2))) = 0) by reflexivity.
  split; [exact H1|]. split; [exact H2|]. split; [exact H3|]. split; [exact H4|].
  split; [exact H5|]. split; [exact H6|]. split; [exact H7|].
  destruct (reenable_deferred_to_owner ReadVIO 1%nat 1%nat 2%nat 102%nat w2
              H1 H2 H3 H4 H5 H6 H7)
    as (w' & R1 & R2 & _ & R3 & _).
  exists w'. split; [exact R1|]. split; [exact R2|exact R3].
Defined.

Lemma close_from_read_handler_witness :
  let w := sample_world (with_read (reading 100 sample_buffer) sample_vc) [] in
  let closing : Continuation -> Z -> VIORef -> State -> option State :=
    fun _ _ _ s => answers_with_close (-1) s in
  _cont (vio (read (vc (st w)))) = Some 2%nat
  /\ 0 <= recursion (vc (st w))
  /\ thread (vc (st w)) = Some (this_ethread (st w))
  /\ exists w',
       read_signal_and_update closing VC_EVENT_READ_READY w = Some (EVENT_DONE, w')
       /\ log w' = [HandleEvent 2%nat VC_EVENT_READ_READY ReadVIO; EpStop;
                    ConClose 33; AllocFree false].
Proof.
  intros w closing.
  assert (H1 : _cont (vio (read (vc (st w)))) = Some 2%nat) by reflexivity.
  assert (H2 : 0 <= recursion (vc (st w))) by (vm_compute; discriminate).
  assert (H3 : thread (vc (st w)) = Some (this_ethread (st w))) by reflexivity.
  split; [exact H1|]. split; [exact H2|]. split; [exact H3|].
  destruct (close_from_read_handler closing VC_EVENT_READ_READY 2%nat (-1) w
              H1 H2 H3 (fun s => eq_refl))
    as (w' & R1 & R2 & _).
  exists w'. split; [exact R1|exact R2].
Defined.

Lemma pass_without_lock_reschedules_witness :
  let w := sample_world_held (with_read (reading 100 sample_buffer) sample_vc)
             [102%nat] 2%nat [KBytes 4] in
  vio_mutex (vio (STATE_FROM_VIO ReadVIO (vc (st w)))) = Some 102%nat
  /\ thread_holding (mutexes (st w) 102%nat) = Some 2%nat
  /\ 2%nat <> 1%nat
  /\ exists w',
       read_from_net 16 quiet 1%nat 1%nat w = Some (tt, w')
       /\ log w' = log w ++ [EpRefresh EVENTIO_READ]
       /\ kernel (st w') = kernel (st w).
Proof.
  intro w.
  assert (H1 : vio_mutex (vio (STATE_FROM_VIO ReadVIO (vc (st w)))) = Some 102%nat)
    by reflexivity.
  assert (H2 : thread_holding (mutexes (st w) 102%nat) = Some 2%nat) by reflexivity.
  assert (H3 : 2%nat <> 1%nat) by discriminate.
  split; [exact H1|]. split; [exact H2|]. split; [exact H3|].
  destruct (pass_without_lock_reschedules 16 quiet (fun _ => true) (fun _ => false)
              handshake_done ReadVIO 1%nat 1%nat 2%nat 102%nat w H1 H2 H3)
    as (w' & R1 & R2 & _ & _ & R3 & _).
  exists w'. split; [exact R1|]. split; [exact R2|exact R3].
Defined.

Lemma read_pass_completes_close_witness :
  let w := sample_world
             (with_closed 1 (with_read (reading 100 sample_buffer) sample_vc))
             [KBytes 4] in
  vio_mutex (vio (read (vc (st w)))) = Some 102%nat
  /\ can_lock (st w) 102%nat 1%nat
  /\ closed (vc (st w)) <> 0
  /\ thread (vc (st w)) = Some 1%nat
  /\ this_ethread (st w) = 1%nat
  /\ exists w',
       read_from_net 16 quiet 1%nat 1%nat w = Some (tt, w')
       /\ log w' = log w ++ close_actions (vc (st w))
       /\ kernel (st w') = kernel (st w).
Proof.
  intro w.
  assert (H1 : vio_mutex (vio (read (vc (st w)))) = Some 102%nat) by reflexivity.
  assert (H2 : can_lock (st w) 102%nat 1%nat) by (left; reflexivity).
  assert (H3 : closed (vc (st w)) <> 0) by (vm_compute; discriminate).
  assert (H4 : thread (vc (st w)) = Some 1%nat) by reflexivity.
  assert (H5 : this_ethread (st w) = 1%nat) by reflexivity.
  split; [exact H1|]. split; [exact H2|]. split; [exact H3|]. split; [exact H4|].
  split; [exact H5|].
  destruct (read_pass_completes_close 16 quiet 1%nat 1%nat 102%nat w H1 H2 H3 H4 H5)
    as (w' & R1 & R2 & R3 & _).
  exists w'. split; [exact R1|]. split; [exact R2|exact R3].
Defined.

Lemma mainEvent_retries_without_handler_lock_witness :
  let w := sample_world_held
             (with_inactivity_timeout_in 5
                (with_read (reading 100 sample_buffer) sample_vc))
             [9%nat] 2%nat [] in
  thread (vc (st w)) = Some 1%nat
  /\ thread_holding (mutexes (st w) (nh_mutex (handlers (st w) (get_NetHandler 1%nat))))
     = Some 2%nat
  /\ 2%nat <> ethread (sample_event false)
  /\ exists w',
       mainEvent quiet (fun t => t) EVENT_IMMEDIATE (sample_event false) w
       = Some (EVENT_CONT, w')
       /\ log w' = log w ++ [ScheduleRetry].
Proof.
  intro w.
  assert (H1 : thread (vc (st w)) = Some 1%nat) by reflexivity.
  assert (H2 : thread_holding
                 (mutexes (st w) (nh_mutex (handlers (st w) (get_NetHandler 1%nat))))
               = Some 2%nat) by reflexivity.
  assert (H3 : 2%nat <> ethread (sample_event false)) by discriminate.
  split; [exact H1|]. split; [exact H2|]. split; [exact H3|].
  destruct (mainEvent_retries_without_handler_lock quiet (fun t => t) EVENT_IMMEDIATE
              (sample_event false) 1%nat 2%nat w H1 H2 H3)
    as (w' & R1 & R2 & _).
  exists w'. split; [exact R1|exact R2].
Defined.


Lemma timer_event_calls_each_handler_once_witness :
  let w := sample_world
             (with_inactivity_timeout_in 5
                (with_write (with_vio (with_cont (Some 2%nat) (vio (writing 50)))
                               (writing 50))
                   (with_read (reading 100 sample_buffer) sample_vc))) [] in
  exists res w',
    mainEvent quiet (fun t => t) EVENT_IMMEDIATE (sample_event false) w
    = Some (res, w')
    /\ exists l, log w' = log w ++ l /\ forall k, (deliveries k l <= 1)%nat.
Proof.
  intro w.
  assert (H : exists res w',
             mainEvent quiet (fun t => t) EVENT_IMMEDIATE (sample_event false) w
             = Some (res, w')).
  { eexists. eexists. vm_compute. reflexivity. }
  destruct H as (res & w' & H).
  exists res, w'. split; [exact H|].
  exact (timer_event_calls_each_handler_once quiet (fun t => t) EVENT_IMMEDIATE
           (sample_event false) w res w' H).
Defined.


Lemma do_io_without_work_witness :
  let w := sample_world (with_write (sending 50) sample_vc) [] in
  closed (vc (st w)) = 0
  /\ exists w',
       do_io_write (Some 3%nat) 0 (Some sample_reader) false w
       = Some (Some WriteVIO, w')
       /\ enabled (write (vc (st w'))) = enabled (write (vc (st w))).
Proof.
  intro w.
  assert (H : closed (vc (st w)) = 0) by reflexivity.
  split; [exact H|].
  destruct (proj2 (proj2 (do_io_without_work (Some 3%nat) 0 false sample_reader w H)))
    as (w' & R1 & _ & R2 & _).
  exists w'. split; [exact R1|exact R2].
Defined.

Lemma timeout_after_full_shutdown_is_silent_witness :
  let w := sample_world
             (with_write (sending 50) (with_read (reading 100 sample_buffer) sample_vc))
             [] in
  closed (vc (st w)) = 0
  /\ exists w',
       (do_io_shutdown IO_SHUTDOWN_READWRITE ;;
        mainEvent_signal quiet VC_EVENT_ACTIVE_TIMEOUT Activity)%net w
       = Some (EVENT_DONE, w')
       /\ log w' = log w ++ [SockShutdown (con_fd (vc (st w))) 2].
Proof.
  intro w.
  assert (H : closed (vc (st w)) = 0) by reflexivity.
  split; [exact H|].
  destruct (timeout_after_full_shutdown_is_silent quiet VC_EVENT_ACTIVE_TIMEOUT
              Activity w H)
    as (w' & R1 & R2 & _).
  exists w'. split; [exact R1|exact R2].
Defined.

Lemma reenable_re_ignores_enabled_witness :
  let w := sample_world_locked
             (with_read (with_triggered 0 (reading 100 sample_buffer)) sample_vc)
             [102%nat; 9%nat] in
  thread (vc (st w)) <> None
  /\ nh (vc (st w)) = Some 1%nat
  /\ vio_mutex (vio (STATE_FROM_VIO ReadVIO (vc (st w)))) = Some 102%nat
  /\ thread_holding (mutexes (st w) 102%nat) = Some 1%nat
  /\ holds_nh_mutex (st w) 1%nat 1%nat
  /\ enabled (STATE_FROM_VIO ReadVIO (vc (st w))) <> 0
  /\ triggered (STATE_FROM_VIO ReadVIO (vc (st w))) = 0
  /\ reenable ReadVIO w = Some (tt, w)
  /\ exists w',
       reenable_re 16 quiet (fun _ => true) (fun _ => false) handshake_done ReadVIO w
       = Some (tt, w')
       /\ log w' = log w ++ [EpModify EVENTIO_READ; EpRefresh EVENTIO_READ].
Proof.
  intro w.
  assert (H1 : thread (vc (st w)) <> None) by (vm_compute; discriminate).
  assert (H2 : nh (vc (st w)) = Some 1%nat) by reflexivity.
  assert (H3 : vio_mutex (vio (STATE_FROM_VIO ReadVIO (vc (st w)))) = Some 102%nat)
    by reflexivity.
  assert (H4 : thread_holding (mutexes (st w) 102%nat) = Some 1%nat) by reflexivity.
  assert (H5 : holds_nh_mutex (st w) 1%nat 1%nat) by reflexivity.
  assert (H6 : enabled (STATE_FROM_VIO ReadVIO (vc (st w))) <> 0)
    by (vm_compute; discriminate).
  assert (H7 : triggered (STATE_FROM_VIO ReadVIO (vc (st w))) = 0) by reflexivity.
  split; [exact H1|]. split; [exact H2|]. split; [exact H3|]. split; [exact H4|].
  split; [exact H5|]. split; [exact H6|]. split; [exact H7|].
  destruct (reenable_re_ignores_enabled 16 quiet (fun _ => true) (fun _ => false)
              handshake_done ReadVIO 1%nat 1%nat 102%nat w H1 H2 H3 H4 H5 H6 H7)
    as (R0 & w' & R1 & R2 & _).
  split; [exact R0|].
  exists w'. split; [exact R1|exact R2].
Defined.

Lemma read_bytes_accounted_then_signalled_witness :
  let w := sample_world (with_read (reading 100 sample_buffer) sample_vc)
             [KBytes 4] in
  read_pass_ready 1%nat 102%nat sample_buffer (st w)
  /\ toread_of (st w) sample_buffer <> 0
  /\ exists r w1 w2,
       same_but_locks w w1
       /\ read_data 16 (toread_of (st w) sample_buffer) sample_buffer w1
          = Some (r, w2).
Proof.
  intro w.
  assert (H : read_pass_ready 1%nat 102%nat sample_buffer (st w)).
  { split; [reflexivity|]. split; [left; reflexivity|]. split; [reflexivity|].
    split; [vm_compute; discriminate|]. split; [reflexivity|].
    split; [reflexivity|reflexivity]. }
  assert (E : toread_of (st w) sample_buffer <> 0) by (vm_compute; discriminate).
  split; [exact H|]. split; [exact E|].
  destruct (read_bytes_accounted_then_signalled 16 quiet 1%nat 1%nat 102%nat
              sample_buffer w H E)
    as (r & w1 & w2 & H1 & H2 & _).
  exists r, w1, w2. split; [exact H1|exact H2].
Defined.

Lemma write_bytes_accounted_then_signalled_witness :
  let w := sample_world (with_write (sending 50) sample_vc) [] in
  reader (buffer (vio (write (vc (st w))))) = Some sample_reader
  /\ op (vio (write (vc (st w)))) = VIO_WRITE
  /\ exists w3,
       write_done quiet 1%nat (Some 103%nat) false EVENTIO_WRITE 5 w
       = write_signal_ready quiet 1%nat (Some 103%nat) false EVENTIO_WRITE
           (write_buffer_empty_event (vc (st w))) w3
       /\ ndone (vio (write (vc (st w3)))) = ndone (vio (write (vc (st w)))) + 5.
Proof.
  intro w.
  assert (H1 : reader (buffer (vio (write (vc (st w))))) = Some sample_reader)
    by reflexivity.
  assert (H2 : op (vio (write (vc (st w)))) = VIO_WRITE) by reflexivity.
  split; [exact H1|]. split; [exact H2|].
  destruct (write_bytes_accounted_then_signalled quiet 1%nat (Some 103%nat) false
              EVENTIO_WRITE 5 sample_reader w H1 H2)
    as (w3 & R1 & _ & R2 & _).
  exists w3. split; [exact R1|exact R2].
Defined.
